(** * FSG search (pocketsphinx, [fsg_search.c]): a shallow embedding

    The decoder handle [fsg_search_t] is a record, the C functions are
    computations in a state-and-error monad over it, and the properties of
    the frame loop, the history table and the back-pointer search are
    proved about those computations.

    Conventions.
    - [int32] values are [Z]; the C additions are [add32] (two's complement
      wrap-around, which is what the compiled code does on overflow).
    - [float32] values are [spec_float] in the binary32 format (24 bits of
      mantissa, exponent bound 128), with the Standard Library's IEEE-754
      operations; the [double] constant [0.1] is in binary64.
    - A pointer to a lextree node is its index in the node arena; the
      NULL-terminated [sibling] chains of roots and of successors are the
      lists of those indices.
    - A pointer that may be NULL is an [option]. *)

From Stdlib Require Import ZArith List Bool String Lia.
From Stdlib Require Import Floats.SpecFloat.
From stdpp Require Import base option list gmap strings.

Open Scope Z_scope.

(** ** Machine integers *)

Definition INT_MIN : Z := -2147483648.
Definition INT_MAX : Z := 2147483647.

Definition wrap32 (z : Z) : Z := (z + 2147483648) mod 4294967296 - 2147483648.
Definition add32 (a b : Z) : Z := wrap32 (a + b).
Definition sub32 (a b : Z) : Z := wrap32 (a - b).

Definition in_int32 (z : Z) : Prop := INT_MIN <= z <= INT_MAX.

(** ** Single-precision arithmetic of the beam controller *)

Definition float32 : Type := spec_float.

Definition f32_of_int (z : Z) : float32 := binary_normalize 24 128 z 0 false.
Definition f32_mul (x y : float32) : float32 := SFmul 24 128 x y.

(** [1.0f] and [0.9f]: the binary32 values nearest to 1 and to 9/10. *)
Definition f32_1_0 : float32 := f32_of_int 1.
Definition f32_0_9 : float32 := SFdiv 24 128 (f32_of_int 9) (f32_of_int 10).

(** The [double] constant [0.1]: the binary64 value nearest to 1/10. *)
Definition f64_0_1 : spec_float :=
  SFdiv 53 1024 (binary_normalize 53 1024 1 0 false)
                (binary_normalize 53 1024 10 0 false).

(** The usual arithmetic conversion of a [float] operand to [double]
    (exact: every binary32 value is a binary64 value). *)
Definition f64_of_f32 (x : float32) : spec_float :=
  match x with
  | S754_finite s m e => binary_normalize 53 1024 (cond_Zopp s (Zpos m)) e s
  | _ => x
  end.

(** [x > 0.1] with [x] a [float] and [0.1] a [double]. *)
Definition f32_gt_0_1 (x : float32) : bool := SFltb f64_0_1 (f64_of_f32 x).

(** [(int32) x]: truncation toward zero.  Outside the range of [int32] (and
    for infinities and NaN) the conversion is undefined in C; the value
    given here is the x86 "integer indefinite" one. *)
Definition int32_of_f32 (x : float32) : Z :=
  match x with
  | S754_zero _ => 0
  | S754_finite s m e =>
      let a := if 0 <=? e then Zpos m * 2 ^ e else Zpos m / 2 ^ (- e) in
      let v := if s then - a else a in
      if (INT_MIN <=? v) && (v <=? INT_MAX) then v else INT_MIN
  | _ => INT_MIN
  end.

(** [(int32) (orig * factor)] with [orig] an [int32] and [factor] a
    [float32]: the integer is converted to [float], the product is taken in
    single precision and truncated. *)
Definition scale_beam (orig : Z) (factor : float32) : Z :=
  int32_of_f32 (f32_mul (f32_of_int orig) factor).

(** ** Context bit vectors ([fsg_pnode_ctxt_t]) *)

(** Number of 32-bit words of a context bit vector
    ([FSG_PNODE_CTXT_BVSZ] of fsg_lextree.h). *)
Definition FSG_PNODE_CTXT_BVSZ : nat := 4.

Record fsg_pnode_ctxt_t := { bv : list Z }.

(** Modelled from the spec: [fsg_pnode_add_all_ctxt] is in fsg_lextree.c,
    which is not among the sources; the spec calls its result the
    "all-ones bitset". *)
Definition fsg_pnode_add_all_ctxt : fsg_pnode_ctxt_t :=
  {| bv := replicate FSG_PNODE_CTXT_BVSZ 4294967295 |}.

(** The C test [c.bv[i >> 5] & (1 << (i & 0x001f))], as a truth value.
    Reading outside the array is undefined in C and gives [None] here. *)
Definition ctxt_test (c : fsg_pnode_ctxt_t) (i : Z) : option bool :=
  if Z.shiftr i 5 <? 0 then None
  else match bv c !! Z.to_nat (Z.shiftr i 5) with
       | Some w => Some (negb (Z.land w (Z.shiftl 1 (Z.land i 31)) =? 0))
       | None => None
       end.

(** Membership of phone [i] in the set that [c] stands for: bit [i mod 32]
    of word [i / 32]. *)
Definition ctxt_contains (c : fsg_pnode_ctxt_t) (i : Z) : Prop :=
  0 <= i /\ exists w, bv c !! Z.to_nat (i / 32) = Some w /\ Z.testbit w (i mod 32) = true.

(** ** The FSG model, as far as the search reads it *)

Record fsg_link_t := {
  from_state : Z;
  to_state : Z;
  link_logs2prob : Z;
  wid : Z
}.

Record fsg_model_t := {
  n_state : Z;
  start_state : Z;
  final_state : Z;
  fsg_model_null_trans : Z -> Z -> option fsg_link_t;
  fsg_model_trans : Z -> Z -> list fsg_link_t;
  fsg_model_is_filler : Z -> bool;
  fsg_model_word_str : Z -> string
}.

(** A [fsg_model_t *] is the address of a model in the store of models
    ([fsg_heap] below); NULL is [None].  The C [==] on two such pointers: *)
Definition fsg_ptr : Type := N.

Definition fsg_ptr_eqb (f g : option fsg_ptr) : bool :=
  match f, g with
  | Some a, Some b => N.eqb a b
  | None, None => true
  | _, _ => false
  end.

(** ** The dictionary *)

Record dict_t := {
  dict_to_id : string -> Z;
  dict_pronlen : Z -> Z
}.

(** ** The history (back-pointer) table *)

Record fsg_hist_entry_t := {
  fsglink : option fsg_link_t;
  hist_frame : Z;
  hist_score : Z;
  hist_pred : Z;
  hist_lc : Z;
  hist_rc : fsg_pnode_ctxt_t
}.

Record fsg_history_t := {
  entries : list fsg_hist_entry_t;
  hist_fsg : option fsg_ptr;
  hist_dict : option dict_t
}.

(** Modelled from the spec: fsg_history.c is not among the sources; the
    spec calls the table "an append-only indexed sequence of back-pointer
    entries".  Reading an index outside the table gives NULL. *)
Definition fsg_history_n_entries (h : fsg_history_t) : Z :=
  Z.of_nat (length (entries h)).

Definition fsg_history_entry_get (h : fsg_history_t) (bpidx : Z) : option fsg_hist_entry_t :=
  if bpidx <? 0 then None else entries h !! Z.to_nat bpidx.

(** Modelled from the spec: an exit "emits a new history entry", which is
    appended; the aggregation that the table may do between two commits is
    not described and is left out. *)
Definition fsg_history_entry_add (h : fsg_history_t) (e : fsg_hist_entry_t) : fsg_history_t :=
  {| entries := entries h ++ [e]; hist_fsg := hist_fsg h; hist_dict := hist_dict h |}.

(** Modelled from the spec: the commit of the entries added in a frame;
    with no aggregation it changes nothing. *)
Definition fsg_history_end_frame (h : fsg_history_t) : fsg_history_t := h.

(** Modelled from the spec: "drain history, declare utterance start". *)
Definition fsg_history_reset (h : fsg_history_t) : fsg_history_t :=
  {| entries := []; hist_fsg := hist_fsg h; hist_dict := hist_dict h |}.

(** Modelled from the spec: the start of an utterance leaves the drained
    table as it is. *)
Definition fsg_history_utt_start (h : fsg_history_t) : fsg_history_t := h.

(** Modelled from the spec: the table is bound to a grammar and a
    dictionary ("history (rebinds)"). *)
Definition fsg_history_set_fsg (h : fsg_history_t) (f : option fsg_ptr)
    (d : option dict_t) : fsg_history_t :=
  {| entries := entries h; hist_fsg := f; hist_dict := d |}.

(** ** HMM instances *)

(** [WORST_SCORE] of hmm.h. *)
Definition WORST_SCORE : Z := -536870912.

(** The fields of [hmm_t] that the search reads and writes; the scores and
    histories of the inner states are [hmm_inner]. *)
Record hmm_t := {
  hmm_in_score : Z;
  hmm_in_history : Z;
  hmm_inner : list (Z * Z);
  hmm_out_score : Z;
  hmm_out_history : Z;
  hmm_bestscore : Z;
  hmm_frame : Z
}.

(** Modelled from the spec: [enter(score, history, frame)] "(re-)activates
    with a new token" (hmm.c is not among the sources). *)
Definition hmm_enter (h : hmm_t) (score histid frm : Z) : hmm_t :=
  {| hmm_in_score := score; hmm_in_history := histid; hmm_inner := hmm_inner h;
     hmm_out_score := hmm_out_score h; hmm_out_history := hmm_out_history h;
     hmm_bestscore := hmm_bestscore h; hmm_frame := frm |}.

Definition hmm_set_frame (h : hmm_t) (frm : Z) : hmm_t :=
  {| hmm_in_score := hmm_in_score h; hmm_in_history := hmm_in_history h;
     hmm_inner := hmm_inner h;
     hmm_out_score := hmm_out_score h; hmm_out_history := hmm_out_history h;
     hmm_bestscore := hmm_bestscore h; hmm_frame := frm |}.

(** Modelled from the spec: deactivation resets the HMM, "Lextree HMMs are
    reused by resetting their frame field"; an inactive HMM has frame -1
    and the worst score everywhere. *)
Definition hmm_clear (h : hmm_t) : hmm_t :=
  {| hmm_in_score := WORST_SCORE; hmm_in_history := -1;
     hmm_inner := map (fun _ => (WORST_SCORE, -1)) (hmm_inner h);
     hmm_out_score := WORST_SCORE; hmm_out_history := -1;
     hmm_bestscore := WORST_SCORE; hmm_frame := -1 |}.

(** ** The lextree *)

Abbreviation pnode_id := nat (only parsing).

Record fsg_pnode_t := {
  pn_succ : list pnode_id;
  pn_fsglink : option fsg_link_t;
  leaf : bool;
  logs2prob : Z;
  ci_ext : Z;
  ctxt : fsg_pnode_ctxt_t;
  hmm : hmm_t
}.

Definition pnode_set_hmm (p : fsg_pnode_t) (h : hmm_t) : fsg_pnode_t :=
  {| pn_succ := pn_succ p; pn_fsglink := pn_fsglink p; leaf := leaf p;
     logs2prob := logs2prob p; ci_ext := ci_ext p; ctxt := ctxt p; hmm := h |}.

Record fsg_lextree_t := {
  pnodes : list fsg_pnode_t;
  fsg_lextree_root : Z -> list pnode_id;
  n_pnode : Z
}.

Definition lextree_set_pnodes (lt : fsg_lextree_t) (ps : list fsg_pnode_t) : fsg_lextree_t :=
  {| pnodes := ps; fsg_lextree_root := fsg_lextree_root lt; n_pnode := n_pnode lt |}.

(** ** Lattices *)

(** A lattice remembers the number of frames it was built over
    ([n_frames]); the rest of it (nodes, links, start and end) is
    [lat_body]. *)
Record ps_lattice_t (body : Type) := {
  n_frames : Z;
  lat_body : body
}.
Arguments n_frames {body} _.
Arguments lat_body {body} _.

(** ** A state-and-error monad for the C functions *)

Inductive error : Type :=
| NullDeref      (* a NULL pointer, or an index outside an array, is read *)
| AssertFailed   (* assert() fails in a build with assertions *)
| Fatal          (* E_FATAL *)
| OutOfFuel.     (* a loop was cut off: it had not finished *)

Inductive result (A : Type) : Type :=
| Ok (a : A)
| Err (e : error).
Arguments Ok {A} _.
Arguments Err {A} _.

Definition M (St A : Type) : Type := St -> result (A * St).

Definition ret {St A} (a : A) : M St A := fun s => Ok (a, s).

Definition bind {St A B} (m : M St A) (k : A -> M St B) : M St B :=
  fun s => match m s with
           | Ok (a, s') => k a s'
           | Err e => Err e
           end.

Definition fail {St A} (e : error) : M St A := fun _ => Err e.
Definition get {St} : M St St := fun s => Ok (s, s).
Definition gets {St A} (f : St -> A) : M St A := fun s => Ok (f s, s).
Definition modify {St} (f : St -> St) : M St unit := fun s => Ok (tt, f s).

(** Reading through a pointer that may be NULL. *)
Definition deref {St A} (o : option A) : M St A :=
  match o with
  | Some a => ret a
  | None => fail NullDeref
  end.

Notation "x <- m ;; k" := (bind m (fun x => k))
  (at level 20, m at level 99, k at level 200, only parsing).
Notation "m ;;; k" := (bind m (fun _ => k))
  (at level 100, k at level 200, only parsing, right associativity).

(** [for (x in l) body]. *)
Fixpoint forM_ {St A} (l : list A) (body : A -> M St unit) : M St unit :=
  match l with
  | [] => ret tt
  | x :: l' => body x ;;; forM_ l' body
  end.

(** A loop over [l] that carries an accumulator. *)
Fixpoint foldM {St A B} (l : list A) (acc : B) (body : B -> A -> M St B) : M St B :=
  match l with
  | [] => ret acc
  | x :: l' => acc' <- body acc x;; foldM l' acc' body
  end.

Definition when {St} (b : bool) (m : M St unit) : M St unit :=
  if b then m else ret tt.

(** The integers [lo, lo+1, ..., hi-1] of a counting loop. *)
Definition range (lo hi : Z) : list Z := seqZ lo (hi - lo).

(** *** Partial correctness *)

(** [wp m Q s]: if [m] returns from [s], its result and final state
    satisfy [Q]. *)
Definition wp {St A} (m : M St A) (Q : A -> St -> Prop) (s : St) : Prop :=
  match m s with
  | Ok (a, s') => Q a s'
  | Err _ => True
  end.

(** ** The decoder *)

Section Decoder.

(** The collaborators of the search that are not part of fsg_search.c: the
    acoustic model, the Viterbi step of one HMM, the lextree builder and
    the lattice code.  [NDEBUG] says whether assertions are compiled out. *)
Context {acmod_t senscr_t lat_body_t : Type}.

Variable NDEBUG : bool.

Variable acmod_n_feat_frame : acmod_t -> Z.
Variable acmod_compallsen : acmod_t -> bool.
Variable acmod_n_senone_active : acmod_t -> Z.
Variable acmod_clear_active : acmod_t -> acmod_t.
Variable acmod_activate_hmm : acmod_t -> hmm_t -> acmod_t.
Variable acmod_score : acmod_t -> senscr_t * acmod_t.
Variable bin_mdef_ciphone_id : acmod_t -> string -> Z.

(** [hmm_vit_eval] returns the best score and the updated HMM. *)
Variable hmm_vit_eval : option senscr_t -> hmm_t -> Z * hmm_t.

Variable fsg_lextree_init :
  option fsg_model_t -> dict_t -> acmod_t -> Z -> Z -> option fsg_lextree_t.

(** The two passes of the lattice builder and its post-processing (the
    body of [fsg_search_lattice] after the lattice is allocated): from the
    FSG, the dictionary, the history and the frame count, the lattice and
    the FSG with the words it gained, or [None] on the [error_out] path. *)
Variable fsg_lattice_build :
  fsg_model_t -> dict_t -> fsg_history_t -> Z -> option (lat_body_t * fsg_model_t).

(** [fsg_search_bestpath] followed by [ps_lattice_hyp]: the string and the
    score. *)
Variable fsg_search_bestpath_hyp : ps_lattice_t lat_body_t -> option string * option Z.

(** A call of [hmm_enter], with the HMM as it was when the call was made. *)
Record hmm_enter_call := {
  ec_pnode : pnode_id;
  ec_before : hmm_t;
  ec_score : Z;
  ec_history : Z;
  ec_frame : Z
}.

(** [ps_search_t], the part common to all searches. *)
Record ps_search_t := {
  acmod : acmod_t;
  dict : dict_t;
  maxhmmpf : Z;                      (* the -maxhmmpf option *)
  dag : option (ps_lattice_t lat_body_t);
  hyp_str : option string
}.

Record fsg_search_t := {
  base : ps_search_t;
  hmmctx : option senscr_t;
  (* the store of FSG models that the pointers below point into *)
  fsg_heap : gmap fsg_ptr fsg_model_t;
  fsgs : gmap string fsg_ptr;
  fsg : option fsg_ptr;
  lextree : option fsg_lextree_t;
  history : fsg_history_t;
  pnode_active : list pnode_id;
  pnode_active_next : list pnode_id;
  beam_orig : Z;
  pbeam_orig : Z;
  wbeam_orig : Z;
  beam_factor : float32;
  beam : Z;
  pbeam : Z;
  wbeam : Z;
  pip : Z;
  wip : Z;
  frame : Z;
  final : bool;
  bestpath : bool;
  bestscore : Z;
  bpidx_start : Z;
  n_hmm_eval : Z;
  n_sen_eval : Z;
  (* not a field of the C structure: the calls of hmm_enter made so far *)
  enter_log : list hmm_enter_call
}.

(** *** Field updates *)

Definition set_acmod (a : acmod_t) (b : ps_search_t) : ps_search_t :=
  {| acmod := a; dict := dict b; maxhmmpf := maxhmmpf b; dag := dag b; hyp_str := hyp_str b |}.

Definition set_dag (d : option (ps_lattice_t lat_body_t)) (b : ps_search_t) : ps_search_t :=
  {| acmod := acmod b; dict := dict b; maxhmmpf := maxhmmpf b; dag := d; hyp_str := hyp_str b |}.

Definition set_hyp_str (h : option string) (b : ps_search_t) : ps_search_t :=
  {| acmod := acmod b; dict := dict b; maxhmmpf := maxhmmpf b; dag := dag b; hyp_str := h |}.

Definition set_base (x : ps_search_t) (s : fsg_search_t) : fsg_search_t :=
  {| base := x; hmmctx := hmmctx s; fsg_heap := fsg_heap s; fsgs := fsgs s;
     fsg := fsg s; lextree := lextree s; history := history s;
     pnode_active := pnode_active s; pnode_active_next := pnode_active_next s;
     beam_orig := beam_orig s; pbeam_orig := pbeam_orig s; wbeam_orig := wbeam_orig s;
     beam_factor := beam_factor s; beam := beam s; pbeam := pbeam s; wbeam := wbeam s;
     pip := pip s; wip := wip s; frame := frame s; final := final s;
     bestpath := bestpath s; bestscore := bestscore s; bpidx_start := bpidx_start s;
     n_hmm_eval := n_hmm_eval s; n_sen_eval := n_sen_eval s;
     enter_log := enter_log s |}.

Definition set_hmmctx (x : option senscr_t) (s : fsg_search_t) : fsg_search_t :=
  {| base := base s; hmmctx := x; fsg_heap := fsg_heap s; fsgs := fsgs s; fsg := fsg s;
     lextree := lextree s; history := history s; pnode_active := pnode_active s;
     pnode_active_next := pnode_active_next s; beam_orig := beam_orig s;
     pbeam_orig := pbeam_orig s; wbeam_orig := wbeam_orig s;
     beam_factor := beam_factor s; beam := beam s; pbeam := pbeam s; wbeam := wbeam s;
     pip := pip s; wip := wip s; frame := frame s; final := final s;
     bestpath := bestpath s; bestscore := bestscore s; bpidx_start := bpidx_start s;
     n_hmm_eval := n_hmm_eval s; n_sen_eval := n_sen_eval s;
     enter_log := enter_log s |}.

Definition set_fsg_heap (x : gmap fsg_ptr fsg_model_t) (s : fsg_search_t) : fsg_search_t :=
  {| base := base s; hmmctx := hmmctx s; fsg_heap := x; fsgs := fsgs s; fsg := fsg s;
     lextree := lextree s; history := history s; pnode_active := pnode_active s;
     pnode_active_next := pnode_active_next s; beam_orig := beam_orig s;
     pbeam_orig := pbeam_orig s; wbeam_orig := wbeam_orig s;
     beam_factor := beam_factor s; beam := beam s; pbeam := pbeam s; wbeam := wbeam s;
     pip := pip s; wip := wip s; frame := frame s; final := final s;
     bestpath := bestpath s; bestscore := bestscore s; bpidx_start := bpidx_start s;
     n_hmm_eval := n_hmm_eval s; n_sen_eval := n_sen_eval s;
     enter_log := enter_log s |}.

Definition set_fsgs (x : gmap string fsg_ptr) (s : fsg_search_t) : fsg_search_t :=
  {| base := base s; hmmctx := hmmctx s; fsg_heap := fsg_heap s; fsgs := x;
     fsg := fsg s; lextree := lextree s; history := history s;
     pnode_active := pnode_active s; pnode_active_next := pnode_active_next s;
     beam_orig := beam_orig s; pbeam_orig := pbeam_orig s; wbeam_orig := wbeam_orig s;
     beam_factor := beam_factor s; beam := beam s; pbeam := pbeam s; wbeam := wbeam s;
     pip := pip s; wip := wip s; frame := frame s; final := final s;
     bestpath := bestpath s; bestscore := bestscore s; bpidx_start := bpidx_start s;
     n_hmm_eval := n_hmm_eval s; n_sen_eval := n_sen_eval s;
     enter_log := enter_log s |}.

Definition set_fsg (x : option fsg_ptr) (s : fsg_search_t) : fsg_search_t :=
  {| base := base s; hmmctx := hmmctx s; fsg_heap := fsg_heap s; fsgs := fsgs s;
     fsg := x; lextree := lextree s; history := history s;
     pnode_active := pnode_active s; pnode_active_next := pnode_active_next s;
     beam_orig := beam_orig s; pbeam_orig := pbeam_orig s; wbeam_orig := wbeam_orig s;
     beam_factor := beam_factor s; beam := beam s; pbeam := pbeam s; wbeam := wbeam s;
     pip := pip s; wip := wip s; frame := frame s; final := final s;
     bestpath := bestpath s; bestscore := bestscore s; bpidx_start := bpidx_start s;
     n_hmm_eval := n_hmm_eval s; n_sen_eval := n_sen_eval s;
     enter_log := enter_log s |}.

Definition set_lextree (x : option fsg_lextree_t) (s : fsg_search_t) : fsg_search_t :=
  {| base := base s; hmmctx := hmmctx s; fsg_heap := fsg_heap s; fsgs := fsgs s;
     fsg := fsg s; lextree := x; history := history s; pnode_active := pnode_active s;
     pnode_active_next := pnode_active_next s; beam_orig := beam_orig s;
     pbeam_orig := pbeam_orig s; wbeam_orig := wbeam_orig s;
     beam_factor := beam_factor s; beam := beam s; pbeam := pbeam s; wbeam := wbeam s;
     pip := pip s; wip := wip s; frame := frame s; final := final s;
     bestpath := bestpath s; bestscore := bestscore s; bpidx_start := bpidx_start s;
     n_hmm_eval := n_hmm_eval s; n_sen_eval := n_sen_eval s;
     enter_log := enter_log s |}.

Definition set_history (x : fsg_history_t) (s : fsg_search_t) : fsg_search_t :=
  {| base := base s; hmmctx := hmmctx s; fsg_heap := fsg_heap s; fsgs := fsgs s;
     fsg := fsg s; lextree := lextree s; history := x; pnode_active := pnode_active s;
     pnode_active_next := pnode_active_next s; beam_orig := beam_orig s;
     pbeam_orig := pbeam_orig s; wbeam_orig := wbeam_orig s;
     beam_factor := beam_factor s; beam := beam s; pbeam := pbeam s; wbeam := wbeam s;
     pip := pip s; wip := wip s; frame := frame s; final := final s;
     bestpath := bestpath s; bestscore := bestscore s; bpidx_start := bpidx_start s;
     n_hmm_eval := n_hmm_eval s; n_sen_eval := n_sen_eval s;
     enter_log := enter_log s |}.

Definition set_pnode_active (x : list pnode_id) (s : fsg_search_t) : fsg_search_t :=
  {| base := base s; hmmctx := hmmctx s; fsg_heap := fsg_heap s; fsgs := fsgs s;
     fsg := fsg s; lextree := lextree s; history := history s; pnode_active := x;
     pnode_active_next := pnode_active_next s; beam_orig := beam_orig s;
     pbeam_orig := pbeam_orig s; wbeam_orig := wbeam_orig s;
     beam_factor := beam_factor s; beam := beam s; pbeam := pbeam s; wbeam := wbeam s;
     pip := pip s; wip := wip s; frame := frame s; final := final s;
     bestpath := bestpath s; bestscore := bestscore s; bpidx_start := bpidx_start s;
     n_hmm_eval := n_hmm_eval s; n_sen_eval := n_sen_eval s;
     enter_log := enter_log s |}.

Definition set_pnode_active_next (x : list pnode_id) (s : fsg_search_t) : fsg_search_t :=
  {| base := base s; hmmctx := hmmctx s; fsg_heap := fsg_heap s; fsgs := fsgs s;
     fsg := fsg s; lextree := lextree s; history := history s;
     pnode_active := pnode_active s; pnode_active_next := x; beam_orig := beam_orig s;
     pbeam_orig := pbeam_orig s; wbeam_orig := wbeam_orig s;
     beam_factor := beam_factor s; beam := beam s; pbeam := pbeam s; wbeam := wbeam s;
     pip := pip s; wip := wip s; frame := frame s; final := final s;
     bestpath := bestpath s; bestscore := bestscore s; bpidx_start := bpidx_start s;
     n_hmm_eval := n_hmm_eval s; n_sen_eval := n_sen_eval s;
     enter_log := enter_log s |}.

Definition set_frame (x : Z) (s : fsg_search_t) : fsg_search_t :=
  {| base := base s; hmmctx := hmmctx s; fsg_heap := fsg_heap s; fsgs := fsgs s;
     fsg := fsg s; lextree := lextree s; history := history s;
     pnode_active := pnode_active s; pnode_active_next := pnode_active_next s;
     beam_orig := beam_orig s; pbeam_orig := pbeam_orig s; wbeam_orig := wbeam_orig s;
     beam_factor := beam_factor s; beam := beam s; pbeam := pbeam s; wbeam := wbeam s;
     pip := pip s; wip := wip s; frame := x; final := final s; bestpath := bestpath s;
     bestscore := bestscore s; bpidx_start := bpidx_start s;
     n_hmm_eval := n_hmm_eval s; n_sen_eval := n_sen_eval s;
     enter_log := enter_log s |}.

Definition set_final (x : bool) (s : fsg_search_t) : fsg_search_t :=
  {| base := base s; hmmctx := hmmctx s; fsg_heap := fsg_heap s; fsgs := fsgs s;
     fsg := fsg s; lextree := lextree s; history := history s;
     pnode_active := pnode_active s; pnode_active_next := pnode_active_next s;
     beam_orig := beam_orig s; pbeam_orig := pbeam_orig s; wbeam_orig := wbeam_orig s;
     beam_factor := beam_factor s; beam := beam s; pbeam := pbeam s; wbeam := wbeam s;
     pip := pip s; wip := wip s; frame := frame s; final := x; bestpath := bestpath s;
     bestscore := bestscore s; bpidx_start := bpidx_start s;
     n_hmm_eval := n_hmm_eval s; n_sen_eval := n_sen_eval s;
     enter_log := enter_log s |}.

Definition set_bestscore (x : Z) (s : fsg_search_t) : fsg_search_t :=
  {| base := base s; hmmctx := hmmctx s; fsg_heap := fsg_heap s; fsgs := fsgs s;
     fsg := fsg s; lextree := lextree s; history := history s;
     pnode_active := pnode_active s; pnode_active_next := pnode_active_next s;
     beam_orig := beam_orig s; pbeam_orig := pbeam_orig s; wbeam_orig := wbeam_orig s;
     beam_factor := beam_factor s; beam := beam s; pbeam := pbeam s; wbeam := wbeam s;
     pip := pip s; wip := wip s; frame := frame s; final := final s;
     bestpath := bestpath s; bestscore := x; bpidx_start := bpidx_start s;
     n_hmm_eval := n_hmm_eval s; n_sen_eval := n_sen_eval s;
     enter_log := enter_log s |}.

Definition set_bpidx_start (x : Z) (s : fsg_search_t) : fsg_search_t :=
  {| base := base s; hmmctx := hmmctx s; fsg_heap := fsg_heap s; fsgs := fsgs s;
     fsg := fsg s; lextree := lextree s; history := history s;
     pnode_active := pnode_active s; pnode_active_next := pnode_active_next s;
     beam_orig := beam_orig s; pbeam_orig := pbeam_orig s; wbeam_orig := wbeam_orig s;
     beam_factor := beam_factor s; beam := beam s; pbeam := pbeam s; wbeam := wbeam s;
     pip := pip s; wip := wip s; frame := frame s; final := final s;
     bestpath := bestpath s; bestscore := bestscore s; bpidx_start := x;
     n_hmm_eval := n_hmm_eval s; n_sen_eval := n_sen_eval s;
     enter_log := enter_log s |}.

Definition set_n_hmm_eval (x : Z) (s : fsg_search_t) : fsg_search_t :=
  {| base := base s; hmmctx := hmmctx s; fsg_heap := fsg_heap s; fsgs := fsgs s;
     fsg := fsg s; lextree := lextree s; history := history s;
     pnode_active := pnode_active s; pnode_active_next := pnode_active_next s;
     beam_orig := beam_orig s; pbeam_orig := pbeam_orig s; wbeam_orig := wbeam_orig s;
     beam_factor := beam_factor s; beam := beam s; pbeam := pbeam s; wbeam := wbeam s;
     pip := pip s; wip := wip s; frame := frame s; final := final s;
     bestpath := bestpath s; bestscore := bestscore s; bpidx_start := bpidx_start s;
     n_hmm_eval := x; n_sen_eval := n_sen_eval s; enter_log := enter_log s |}.

Definition set_n_sen_eval (x : Z) (s : fsg_search_t) : fsg_search_t :=
  {| base := base s; hmmctx := hmmctx s; fsg_heap := fsg_heap s; fsgs := fsgs s;
     fsg := fsg s; lextree := lextree s; history := history s;
     pnode_active := pnode_active s; pnode_active_next := pnode_active_next s;
     beam_orig := beam_orig s; pbeam_orig := pbeam_orig s; wbeam_orig := wbeam_orig s;
     beam_factor := beam_factor s; beam := beam s; pbeam := pbeam s; wbeam := wbeam s;
     pip := pip s; wip := wip s; frame := frame s; final := final s;
     bestpath := bestpath s; bestscore := bestscore s; bpidx_start := bpidx_start s;
     n_hmm_eval := n_hmm_eval s; n_sen_eval := x; enter_log := enter_log s |}.

Definition set_enter_log (x : list hmm_enter_call) (s : fsg_search_t) : fsg_search_t :=
  {| base := base s; hmmctx := hmmctx s; fsg_heap := fsg_heap s; fsgs := fsgs s;
     fsg := fsg s; lextree := lextree s; history := history s;
     pnode_active := pnode_active s; pnode_active_next := pnode_active_next s;
     beam_orig := beam_orig s; pbeam_orig := pbeam_orig s; wbeam_orig := wbeam_orig s;
     beam_factor := beam_factor s; beam := beam s; pbeam := pbeam s; wbeam := wbeam s;
     pip := pip s; wip := wip s; frame := frame s; final := final s;
     bestpath := bestpath s; bestscore := bestscore s; bpidx_start := bpidx_start s;
     n_hmm_eval := n_hmm_eval s; n_sen_eval := n_sen_eval s; enter_log := x |}.

(** The beam factor and the three live beams are written together. *)
Definition set_beams (f : float32) (b pb wb : Z) (s : fsg_search_t) : fsg_search_t :=
  {| base := base s; hmmctx := hmmctx s; fsg_heap := fsg_heap s; fsgs := fsgs s;
     fsg := fsg s; lextree := lextree s; history := history s;
     pnode_active := pnode_active s; pnode_active_next := pnode_active_next s;
     beam_orig := beam_orig s; pbeam_orig := pbeam_orig s; wbeam_orig := wbeam_orig s;
     beam_factor := f; beam := b; pbeam := pb; wbeam := wb; pip := pip s; wip := wip s;
     frame := frame s; final := final s; bestpath := bestpath s;
     bestscore := bestscore s; bpidx_start := bpidx_start s;
     n_hmm_eval := n_hmm_eval s; n_sen_eval := n_sen_eval s;
     enter_log := enter_log s |}.

Local Abbreviation FM := (M fsg_search_t).

(** *** Access to the objects behind the pointers of the handle *)

Definition assert (b : bool) : FM unit :=
  if NDEBUG then ret tt else if b then ret tt else fail AssertFailed.

Definition get_lextree : FM fsg_lextree_t :=
  s <- get;; deref (lextree s).

(** [*fsgs->fsg] *)
Definition get_fsg : FM fsg_model_t :=
  s <- get;; a <- deref (fsg s);; deref (fsg_heap s !! a).

Definition get_pnode (pid : pnode_id) : FM fsg_pnode_t :=
  lt <- get_lextree;; deref (pnodes lt !! pid).

(** A write to the HMM that node [pid] owns. *)
Definition put_pnode_hmm (pid : pnode_id) (h : hmm_t) : FM unit :=
  lt <- get_lextree;;
  p <- deref (pnodes lt !! pid);;
  modify (set_lextree (Some (lextree_set_pnodes lt (<[pid := pnode_set_hmm p h]> (pnodes lt))))).

(** [hmm_enter(&pnode->hmm, score, histid, frame)] *)
Definition pnode_hmm_enter (pid : pnode_id) (score histid frm : Z) : FM unit :=
  p <- get_pnode pid;;
  modify (fun s => set_enter_log
            (enter_log s ++ [{| ec_pnode := pid; ec_before := hmm p; ec_score := score;
                                ec_history := histid; ec_frame := frm |}]) s);;;
  put_pnode_hmm pid (hmm_enter (hmm p) score histid frm).

(** Modelled from the spec: [fsg_psubtree_pnode_deactivate] is in
    fsg_lextree.c, which is not among the sources; the spec's [deactivate()]
    of a pnode resets its HMM. *)
Definition fsg_psubtree_pnode_deactivate (pid : pnode_id) : FM unit :=
  p <- get_pnode pid;; put_pnode_hmm pid (hmm_clear (hmm p)).

(** [pnode_active_next = glist_add_ptr(pnode_active_next, pnode)]: the new
    node goes to the head of the list. *)
Definition push_active_next (pid : pnode_id) : FM unit :=
  modify (fun s => set_pnode_active_next (pid :: pnode_active_next s) s).

Definition history_entry_add (e : fsg_hist_entry_t) : FM unit :=
  modify (fun s => set_history (fsg_history_entry_add (history s) e) s).

Definition history_end_frame : FM unit :=
  modify (fun s => set_history (fsg_history_end_frame (history s)) s).

(** *** fsg_search_reinit *)

Definition fsg_search_reinit : FM Z :=
  s <- get;;
  let g := match fsg s with Some a => fsg_heap s !! a | None => None end in
  modify (set_lextree
            (fsg_lextree_init g (dict (base s)) (acmod (base s)) (wip s) (pip s)));;;
  modify (fun s => set_history
            (fsg_history_set_fsg (history s) (fsg s) (Some (dict (base s)))) s);;;
  ret 0.

(** *** The FSG registry *)

Definition fsg_set_get_fsg (name : string) : FM (option fsg_ptr) :=
  gets (fun s => fsgs s !! name).

Definition fsg_set_remove_byname (key : string) : FM (option fsg_ptr) :=
  s <- get;;
  match fsgs s !! key with
  | None => ret None
  | Some oldfsg =>
      modify (fun s => set_fsgs (delete key (fsgs s)) s);;;
      s1 <- get;;
      (if fsg_ptr_eqb (fsg s1) (Some oldfsg) then
         modify (set_lextree None);;;
         modify (fun s => set_history (fsg_history_set_fsg (history s) None None) s);;;
         modify (set_fsg None)
       else ret tt);;;
      ret (Some oldfsg)
  end.

Definition fsg_set_select (name : string) : FM (option fsg_ptr) :=
  f <- fsg_set_get_fsg name;;
  match f with
  | None => ret None
  | Some a => modify (set_fsg (Some a));;; ret (Some a)
  end.

(** *** fsg_search_sen_active *)

Definition fsg_search_sen_active : FM unit :=
  modify (fun s => set_base (set_acmod (acmod_clear_active (acmod (base s))) (base s)) s);;;
  s <- get;;
  forM_ (pnode_active s) (fun pid =>
    p <- get_pnode pid;;
    s1 <- get;;
    assert (hmm_frame (hmm p) =? frame s1);;;
    modify (fun s => set_base (set_acmod (acmod_activate_hmm (acmod (base s)) (hmm p)) (base s)) s)).

(** *** fsg_search_hmm_eval *)

(** The loop over the active list: every HMM takes its Viterbi step; the
    best score and the number of HMMs are accumulated. *)
Definition hmm_eval_loop (l : list pnode_id) : FM (Z * Z) :=
  foldM l (WORST_SCORE, 0) (fun acc pid =>
    p <- get_pnode pid;;
    s1 <- get;;
    assert (hmm_frame (hmm p) =? frame s1);;;
    let r := hmm_vit_eval (hmmctx s1) (hmm p) in
    put_pnode_hmm pid (snd r);;;
    ret (if fst acc <? fst r then fst r else fst acc, snd acc + 1)).

(** "Adjust beams if #active HMMs larger than absolute threshold". *)
Definition adjust_beams (n : Z) : FM unit :=
  s <- get;;
  let mx := maxhmmpf (base s) in
  if negb (mx =? -1) && (mx <? n) then
    if f32_gt_0_1 (beam_factor s) then
      let f := f32_mul (beam_factor s) f32_0_9 in
      modify (set_beams f (scale_beam (beam_orig s) f) (scale_beam (pbeam_orig s) f)
                          (scale_beam (wbeam_orig s) f))
    else ret tt
  else
    modify (set_beams f32_1_0 (beam_orig s) (pbeam_orig s) (wbeam_orig s)).

Definition fsg_search_hmm_eval : FM unit :=
  s <- get;;
  match pnode_active s with
  | [] => ret tt                      (* "No active HMM!!" is logged *)
  | _ :: _ =>
      r <- hmm_eval_loop (pnode_active s);;
      modify (fun s => set_n_hmm_eval (add32 (n_hmm_eval s) (snd r)) s);;;
      adjust_beams (snd r);;;
      lt <- get_lextree;;
      (if n_pnode lt <? snd r then fail Fatal else ret tt);;;
      modify (set_bestscore (fst r))
  end.

(** *** fsg_search_pnode_trans *)

(** The activation of [target] with [newscore], shared by the transition
    into a child and the transition into a root: it happens when the score
    passes the threshold and beats the score already entering the target. *)
Definition try_enter (target : pnode_id) (t : fsg_pnode_t) (newscore thresh histid nf : Z)
    : FM unit :=
  if (thresh <=? newscore) && (hmm_in_score (hmm t) <? newscore) then
    when (hmm_frame (hmm t) <? nf) (push_active_next target);;;
    pnode_hmm_enter target newscore histid nf
  else ret tt.

Definition fsg_search_pnode_trans (pid : pnode_id) : FM unit :=
  pnode <- get_pnode pid;;
  assert (negb (leaf pnode));;;
  s <- get;;
  let nf := add32 (frame s) 1 in
  let thresh := add32 (bestscore s) (beam s) in
  forM_ (pn_succ pnode) (fun child =>
    p <- get_pnode pid;;
    c <- get_pnode child;;
    let newscore := add32 (hmm_out_score (hmm p)) (logs2prob c) in
    try_enter child c newscore thresh (hmm_out_history (hmm p)) nf).

(** *** fsg_search_pnode_exit *)

Definition fsg_search_pnode_exit (pid : pnode_id) : FM unit :=
  pnode <- get_pnode pid;;
  assert (leaf pnode);;;
  assert (bool_decide (is_Some (pn_fsglink pnode)));;;
  fl <- deref (pn_fsglink pnode);;
  assert (0 <=? wid fl);;;
  s <- get;;
  g <- get_fsg;;
  let d := dict (base s) in
  if fsg_model_is_filler g (wid fl)
     || (dict_pronlen d (dict_to_id d (fsg_model_word_str g (wid fl))) =? 1)
  then
    history_entry_add
      {| fsglink := Some fl; hist_frame := frame s;
         hist_score := hmm_out_score (hmm pnode); hist_pred := hmm_out_history (hmm pnode);
         hist_lc := ci_ext pnode; hist_rc := fsg_pnode_add_all_ctxt |}
  else
    history_entry_add
      {| fsglink := Some fl; hist_frame := frame s;
         hist_score := hmm_out_score (hmm pnode); hist_pred := hmm_out_history (hmm pnode);
         hist_lc := ci_ext pnode; hist_rc := ctxt pnode |}.

(** *** fsg_search_hmm_prune_prop *)

Definition fsg_search_hmm_prune_prop : FM unit :=
  s <- get;;
  assert (bool_decide (pnode_active_next s = []));;;
  let thresh := add32 (bestscore s) (beam s) in
  let phone_thresh := add32 (bestscore s) (pbeam s) in
  let word_thresh := add32 (bestscore s) (wbeam s) in
  forM_ (pnode_active s) (fun pid =>
    p <- get_pnode pid;;
    if thresh <=? hmm_bestscore (hmm p) then
      s1 <- get;;
      (if hmm_frame (hmm p) =? frame s1 then
         put_pnode_hmm pid (hmm_set_frame (hmm p) (add32 (frame s1) 1));;;
         push_active_next pid
       else assert (hmm_frame (hmm p) =? add32 (frame s1) 1));;;
      if negb (leaf p) then
        when (phone_thresh <=? hmm_out_score (hmm p)) (fsg_search_pnode_trans pid)
      else
        when (word_thresh <=? hmm_out_score (hmm p)) (fsg_search_pnode_exit pid)
    else ret tt).

(** *** fsg_search_null_prop *)

(** "Destination FSG state for history entry". *)
Definition hist_dest_state (e : fsg_hist_entry_t) : FM Z :=
  match fsglink e with
  | Some l => ret (to_state l)
  | None => g <- get_fsg;; ret (start_state g)
  end.

Definition fsg_search_null_prop : FM unit :=
  s <- get;;
  let thresh := add32 (bestscore s) (wbeam s) in
  let n_entries := fsg_history_n_entries (history s) in
  forM_ (range (bpidx_start s) n_entries) (fun bpidx =>
    s1 <- get;;
    hist_entry <- deref (fsg_history_entry_get (history s1) bpidx);;
    src <- hist_dest_state hist_entry;;
    g <- get_fsg;;
    forM_ (range 0 (n_state g)) (fun d =>
      match fsg_model_null_trans g src d with
      | Some l =>
          let newscore := add32 (hist_score hist_entry) (link_logs2prob l) in
          when (thresh <=? newscore)
            (history_entry_add
               {| fsglink := Some l; hist_frame := hist_frame hist_entry;
                  hist_score := newscore; hist_pred := bpidx;
                  hist_lc := hist_lc hist_entry; hist_rc := hist_rc hist_entry |})
      | None => ret tt
      end)).

(** *** fsg_search_word_trans *)

(** The body of the loop over the roots of the destination state. *)
Definition word_trans_root (bpidx : Z) (hist_entry : fsg_hist_entry_t)
    (thresh nf : Z) (rid : pnode_id) : FM unit :=
  root <- get_pnode rid;;
  let rc := ci_ext root in
  t1 <- deref (ctxt_test (ctxt root) (hist_lc hist_entry));;
  t2 <- (if t1 then deref (ctxt_test (hist_rc hist_entry) rc) else ret false);;
  if t1 && t2 then
    let newscore := add32 (hist_score hist_entry) (logs2prob root) in
    try_enter rid root newscore thresh bpidx nf
  else ret tt.

Definition fsg_search_word_trans : FM unit :=
  s <- get;;
  let n_entries := fsg_history_n_entries (history s) in
  let thresh := add32 (bestscore s) (beam s) in
  let nf := add32 (frame s) 1 in
  forM_ (range (bpidx_start s) n_entries) (fun bpidx =>
    s1 <- get;;
    assert (bool_decide (is_Some (fsg_history_entry_get (history s1) bpidx)));;;
    hist_entry <- deref (fsg_history_entry_get (history s1) bpidx);;
    assert (frame s1 =? hist_frame hist_entry);;;
    d <- hist_dest_state hist_entry;;
    lt <- get_lextree;;
    forM_ (fsg_lextree_root lt d) (word_trans_root bpidx hist_entry thresh nf)).

(** *** fsg_search_step *)

(** "deactivate any currently active HMMs that did not survive into the
    next frame" *)
Definition deactivate_stale (l : list pnode_id) : FM unit :=
  forM_ l (fun pid =>
    p <- get_pnode pid;;
    s <- get;;
    if hmm_frame (hmm p) =? frame s then fsg_psubtree_pnode_deactivate pid
    else assert (hmm_frame (hmm p) =? add32 (frame s) 1)).

(** "Make the next-frame active list the current one" *)
Definition swap_active : FM unit :=
  modify (fun s => set_pnode_active_next [] (set_pnode_active (pnode_active_next s) s)).

Definition fsg_search_step : FM Z :=
  s <- get;;
  if acmod_n_feat_frame (acmod (base s)) =? 0 then ret 0
  else
    when (negb (acmod_compallsen (acmod (base s)))) fsg_search_sen_active;;;
    s1 <- get;;
    let r := acmod_score (acmod (base s1)) in
    modify (fun s => set_base (set_acmod (snd r) (base s)) s);;;
    modify (fun s => set_n_sen_eval
              (add32 (n_sen_eval s) (acmod_n_senone_active (acmod (base s)))) s);;;
    modify (set_hmmctx (Some (fst r)));;;
    modify (fun s => set_bpidx_start (fsg_history_n_entries (history s)) s);;;
    fsg_search_hmm_eval;;;
    fsg_search_hmm_prune_prop;;;
    history_end_frame;;;
    fsg_search_null_prop;;;
    history_end_frame;;;
    fsg_search_word_trans;;;
    s2 <- get;;
    deactivate_stale (pnode_active s2);;;
    swap_active;;;
    modify (fun s => set_frame (add32 (frame s) 1) s);;;
    ret 1.

(** *** fsg_search_start and fsg_search_finish *)

Definition SIL : string := "SIL".

Definition fsg_search_start : FM Z :=
  modify (fun s => set_beams f32_1_0 (beam_orig s) (pbeam_orig s) (wbeam_orig s) s);;;
  s <- get;;
  let silcipid := bin_mdef_ciphone_id (acmod (base s)) SIL in
  assert (bool_decide (pnode_active s = []));;;
  assert (bool_decide (pnode_active_next s = []));;;
  modify (fun s => set_history (fsg_history_utt_start (fsg_history_reset (history s))) s);;;
  modify (set_final false);;;
  modify (set_frame (-1));;;
  modify (set_bestscore 0);;;
  history_entry_add
    {| fsglink := None; hist_frame := -1; hist_score := 0; hist_pred := -1;
       hist_lc := silcipid; hist_rc := fsg_pnode_add_all_ctxt |};;;
  modify (set_bpidx_start 0);;;
  fsg_search_null_prop;;;
  fsg_search_word_trans;;;
  swap_active;;;
  modify (fun s => set_frame (add32 (frame s) 1) s);;;
  modify (set_n_hmm_eval 0);;;
  modify (set_n_sen_eval 0);;;
  ret 0.

Definition fsg_search_finish : FM Z :=
  s <- get;;
  forM_ (pnode_active s) fsg_psubtree_pnode_deactivate;;;
  s1 <- get;;
  forM_ (pnode_active_next s1) fsg_psubtree_pnode_deactivate;;;
  modify (set_pnode_active []);;;
  modify (set_pnode_active_next []);;;
  modify (set_final true);;;
  (* the statistics are logged; the sanity check reads the lextree *)
  _ <- get_lextree;;
  ret 0.

(** *** fsg_search_find_exit *)

(** "Scan backwards to find a word exit in frame_idx": the first [while]
    loop.  Its body never changes [bpidx]; an iteration that does not break
    leaves every variable as it was.  The result is the entry and the frame
    it broke on, or nothing when the loop was not entered. *)
Fixpoint find_exit_scan (fuel : nat) (h : fsg_history_t) (frame_idx bpidx : Z)
    : result (option fsg_hist_entry_t) :=
  match fuel with
  | O => Err OutOfFuel
  | S fuel' =>
      if 0 <? bpidx then
        match fsg_history_entry_get h bpidx with
        | None => Err NullDeref
        | Some hist_entry =>
            if hist_frame hist_entry <=? frame_idx then Ok (Some hist_entry)
            else find_exit_scan fuel' h frame_idx bpidx
        end
      else Ok None
  end.

(** "Now find best word exit in this frame": the second [while] loop, with
    [n] the number of entries left to visit below and at [bpidx] (the loop
    stops at the latest when [bpidx] falls below 0). *)
Fixpoint find_exit_best (n : nat) (h : fsg_history_t) (final_state_ : option Z)
    (final_ : bool) (last_frm : Z) (bpidx : Z) (hist_entry : fsg_hist_entry_t)
    (bestscore_ besthist : Z) : result (Z * Z) :=
  match n with
  | O => Err OutOfFuel
  | S n' =>
      if hist_frame hist_entry =? last_frm then
        let score := hist_score hist_entry in
        let upd :=
          if bestscore_ <? score then
            if negb final_ then Ok true
            else match fsglink hist_entry, final_state_ with
                 | Some fl, Some fs => Ok (to_state fl =? fs)
                 | _, _ => Err NullDeref
                 end
          else Ok false in
        match upd with
        | Err e => Err e
        | Ok u =>
            let bestscore' := if u then score else bestscore_ in
            let besthist' := if u then bpidx else besthist in
            if bpidx - 1 <? 0 then Ok (bestscore', besthist')
            else match fsg_history_entry_get h (bpidx - 1) with
                 | None => Err NullDeref
                 | Some e' => find_exit_best n' h final_state_ final_ last_frm
                                (bpidx - 1) e' bestscore' besthist'
                 end
        end
      else Ok (bestscore_, besthist)
  end.

(** The result is the index and what was stored through [out_score]. *)
Definition fsg_search_find_exit (fuel : nat) (frame_idx : Z) (final_ : bool)
    : FM (Z * option Z) :=
  s <- get;;
  let frame_idx := if frame_idx =? -1 then sub32 (frame s) 1 else frame_idx in
  let bpidx := fsg_history_n_entries (history s) - 1 in
  match find_exit_scan fuel (history s) frame_idx bpidx with
  | Err e => fail e
  | Ok None => ret (bpidx, None)                   (* bpidx <= 0 *)
  | Ok (Some hist_entry) =>
      let final_state_ := match fsg s with
                          | Some a => final_state <$> (fsg_heap s !! a)
                          | None => None
                          end in
      match find_exit_best (Z.to_nat bpidx + 1) (history s) final_state_ final_
              (hist_frame hist_entry) bpidx hist_entry INT_MIN (-1) with
      | Err e => fail e
      | Ok (bestscore_, besthist) =>
          if besthist =? -1 then ret (-1, None)    (* "Final state not reached" *)
          else ret (besthist, Some bestscore_)
      end
  end.

(** *** fsg_search_lattice *)

(** The lattice that [ps_lattice_init_search(search, fsgs->frame)] creates
    (ps_lattice.c is not among the sources) has [fsgs->frame] for its
    [n_frames]: the cache test of a later call compares the two. *)
Definition fsg_search_lattice : FM (option (ps_lattice_t lat_body_t)) :=
  s <- get;;
  let rebuild : FM (option (ps_lattice_t lat_body_t)) :=
    modify (fun s => set_base (set_dag None (base s)) s);;;
    a <- deref (fsg s);;
    g <- deref (fsg_heap s !! a);;
    match fsg_lattice_build g (dict (base s)) (history s) (frame s) with
    | None => ret None
    | Some (b, g') =>
        let d := {| n_frames := frame s; lat_body := b |} in
        modify (fun s => set_fsg_heap (<[a := g']> (fsg_heap s)) s);;;
        modify (fun s => set_base (set_dag (Some d) (base s)) s);;;
        ret (Some d)
    end in
  match dag (base s) with
  | Some d => if n_frames d =? frame s then ret (Some d) else rebuild
  | None => rebuild
  end.

(** *** fsg_search_hyp *)

(** The two walks over the [pred] chain visit the same entries; the first
    adds up the lengths, the second copies the words from the end of the
    buffer backwards.  [hyp_words] is the words in the order of the walk
    (last word first). *)
Fixpoint hyp_words (fuel : nat) (h : fsg_history_t) (g : option fsg_model_t) (bp : Z)
    : result (list string) :=
  match fuel with
  | O => Err OutOfFuel
  | S fuel' =>
      if 0 <? bp then
        match fsg_history_entry_get h bp with
        | None => Err NullDeref
        | Some hist_entry =>
            match fsglink hist_entry with
            | None => Err NullDeref
            | Some fl =>
                if wid fl <? 0 then hyp_words fuel' h g (hist_pred hist_entry)
                else match g with
                     | None => Err NullDeref
                     | Some g' =>
                         if fsg_model_is_filler g' (wid fl)
                         then hyp_words fuel' h g (hist_pred hist_entry)
                         else match hyp_words fuel' h g (hist_pred hist_entry) with
                              | Ok ws => Ok (fsg_model_word_str g' (wid fl) :: ws)
                              | Err e => Err e
                              end
                     end
            end
        end
      else Ok []
  end.

Definition SPACE : string := " ".

(** The result is the string (NULL is [None]) and what was stored through
    [out_score]. *)
Definition fsg_search_hyp (fuel : nat) : FM (option string * option Z) :=
  s <- get;;
  r <- fsg_search_find_exit fuel (frame s) (final s);;
  if fst r <=? 0 then ret (None, snd r)
  else if bestpath s && final s then
    dag <- fsg_search_lattice;;
    match dag with
    | None => ret (None, snd r)
    | Some d =>
        match fsg_search_bestpath_hyp d with
        | (None, _) => ret (None, snd r)
        | (Some str, sc) => ret (Some str, sc)
        end
    end
  else
    let g := match fsg s with Some a => fsg_heap s !! a | None => None end in
    match hyp_words fuel (history s) g (fst r) with
    | Err e => fail e
    | Ok ws =>
        let str := String.concat SPACE (rev ws) in
        modify (fun s => set_base (set_hyp_str (Some str) (base s)) s);;;
        ret (Some str, snd r)
    end.

End Decoder.

(** ** A small decoder for the examples

    The grammar is [0 -eps-> 1 -WORD-> 2] with 2 final; the lextree has a
    root for state 1 (node 0) whose only successor is the leaf of the arc
    [1 -WORD-> 2] (node 1). *)

Definition ex_link_null : fsg_link_t :=
  {| from_state := 0; to_state := 1; link_logs2prob := -10; wid := -1 |}.

Definition ex_link_word : fsg_link_t :=
  {| from_state := 1; to_state := 2; link_logs2prob := -5; wid := 0 |}.

Definition WORD : string := "WORD".

(** The names under which the example grammars are registered. *)
Definition NAME_G : string := "g".
Definition NAME_H : string := "h".

Definition ex_fsg : fsg_model_t :=
  {| n_state := 3; start_state := 0; final_state := 2;
     fsg_model_null_trans := fun s d =>
       if (s =? 0) && (d =? 1) then Some ex_link_null else None;
     fsg_model_trans := fun s d =>
       if (s =? 1) && (d =? 2) then [ex_link_word] else [];
     fsg_model_is_filler := fun _ => false;
     fsg_model_word_str := fun _ => WORD |}.

(** A second grammar, with no arcs at all. *)
Definition ex_fsg2 : fsg_model_t :=
  {| n_state := 1; start_state := 0; final_state := 0;
     fsg_model_null_trans := fun _ _ => None;
     fsg_model_trans := fun _ _ => [];
     fsg_model_is_filler := fun _ => false;
     fsg_model_word_str := fun _ => WORD |}.

Definition ex_dict : dict_t :=
  {| dict_to_id := fun _ => 0; dict_pronlen := fun _ => 2 |}.

Definition ex_hmm_idle : hmm_t :=
  {| hmm_in_score := WORST_SCORE; hmm_in_history := -1; hmm_inner := [];
     hmm_out_score := WORST_SCORE; hmm_out_history := -1;
     hmm_bestscore := WORST_SCORE; hmm_frame := -1 |}.

Definition ex_lextree : fsg_lextree_t :=
  {| pnodes :=
       [ {| pn_succ := [1%nat]; pn_fsglink := None; leaf := false; logs2prob := -3;
            ci_ext := 5; ctxt := fsg_pnode_add_all_ctxt; hmm := ex_hmm_idle |};
         {| pn_succ := []; pn_fsglink := Some ex_link_word; leaf := true; logs2prob := -2;
            ci_ext := 7; ctxt := {| bv := [1; 0; 0; 0] |}; hmm := ex_hmm_idle |} ];
     fsg_lextree_root := fun d => if d =? 1 then [0%nat] else [];
     n_pnode := 2 |}.

(** A Viterbi step for the examples: the token that entered leaves in the
    same frame, at no cost. *)
Definition ex_vit_eval (_ : option (list Z)) (h : hmm_t) : Z * hmm_t :=
  (hmm_in_score h,
   {| hmm_in_score := WORST_SCORE; hmm_in_history := hmm_in_history h;
      hmm_inner := hmm_inner h;
      hmm_out_score := hmm_in_score h; hmm_out_history := hmm_in_history h;
      hmm_bestscore := hmm_in_score h; hmm_frame := hmm_frame h |}).

Definition ex_base : @ps_search_t unit unit :=
  {| acmod := tt; dict := ex_dict; maxhmmpf := 1; dag := None; hyp_str := None |}.

(** The handle after [fsg_search_init] with [ex_fsg] registered under the
    name "g", selected, and [fsg_search_reinit] done; [ex_fsg2] is
    registered as "h". *)
Definition ex_search : @fsg_search_t unit (list Z) unit :=
  {| base := ex_base; hmmctx := None;
     fsg_heap := {[ 1%N := ex_fsg; 2%N := ex_fsg2 ]};
     fsgs := {[ NAME_G := 1%N; NAME_H := 2%N ]};
     fsg := Some 1%N;
     lextree := Some ex_lextree;
     history := {| entries := []; hist_fsg := Some 1%N; hist_dict := Some ex_dict |};
     pnode_active := []; pnode_active_next := [];
     beam_orig := -1000; pbeam_orig := -800; wbeam_orig := -600;
     beam_factor := f32_1_0; beam := -1000; pbeam := -800; wbeam := -600;
     pip := 0; wip := 0; frame := -1; final := false; bestpath := false;
     bestscore := 0; bpidx_start := 0; n_hmm_eval := 0; n_sen_eval := 0;
     enter_log := [] |}.

(** The collaborators of the examples. *)
Definition ex_n_feat_frame (_ : unit) : Z := 1.
Definition ex_compallsen (_ : unit) : bool := true.
Definition ex_n_senone_active (_ : unit) : Z := 0.
Definition ex_clear_active (a : unit) : unit := a.
Definition ex_activate_hmm (a : unit) (_ : hmm_t) : unit := a.
Definition ex_acmod_score (a : unit) : list Z * unit := ([], a).
Definition ex_ciphone_id (_ : unit) (_ : string) : Z := 0.
Definition ex_lattice_build (g : fsg_model_t) (_ : dict_t) (_ : fsg_history_t) (_ : Z)
    : option (unit * fsg_model_t) := Some (tt, g).
Definition ex_bestpath_hyp (_ : ps_lattice_t unit) : option string * option Z := (None, None).

Abbreviation ex_start :=
  (fsg_search_start (lat_body_t := unit) (senscr_t := list Z)
                         false ex_ciphone_id).
Abbreviation ex_step :=
  (fsg_search_step (lat_body_t := unit) false ex_n_feat_frame
                        ex_compallsen ex_n_senone_active ex_clear_active ex_activate_hmm
                        ex_acmod_score ex_vit_eval).
Abbreviation ex_hyp :=
  (fsg_search_hyp (acmod_t := unit) (senscr_t := list Z)
                       ex_lattice_build ex_bestpath_hyp).

(** Running a computation for its final state. *)
Definition exec {St A} (m : M St A) (s : St) : option St :=
  match m s with
  | Ok (_, s') => Some s'
  | Err _ => None
  end.

(** The decoder after [fsg_search_start] and three frames. *)
Definition ex_search3 : @fsg_search_t unit (list Z) unit :=
  match (ex_start ;;; ex_step ;;; ex_step ;;; ex_step) ex_search with
  | Ok (_, s) => s
  | Err _ => ex_search
  end.

(** The newest entry of the history, where the backward scan of
    fsg_search_find_exit starts. *)
Definition newest (h : fsg_history_t) : option fsg_hist_entry_t :=
  fsg_history_entry_get h (fsg_history_n_entries h - 1).

(** ** The back-pointer search in the words of the specification

    "scan history backward for the first entry with frame <= frame_idx;
    record that frame as the search frame; among all entries with that
    frame, pick the one with maximum score subject to: if final,
    fl.to_state == final_state; return its index, or -1 on failure." *)

Definition spec_search_frame (h : list fsg_hist_entry_t) (frame_idx : Z) : option Z :=
  hist_frame <$> last (filter (fun e => hist_frame e <= frame_idx) h).

Definition spec_qualifies (final_state_ : Z) (final_ : bool) (frm : Z)
    (e : fsg_hist_entry_t) : bool :=
  (hist_frame e =? frm)
  && (negb final_
      || match fsglink e with
         | Some fl => to_state fl =? final_state_
         | None => false
         end).

(** The choice between the best entry so far ([best], an index and its
    score, the index [-1] when there is none yet) and the entry [snd ie] at
    index [fst ie]. *)
Definition spec_step (final_state_ : Z) (final_ : bool) (frm : Z)
    (ie : Z * fsg_hist_entry_t) (best : Z * Z) : Z * Z :=
  if spec_qualifies final_state_ final_ frm (snd ie)
     && ((fst best =? -1) || (snd best <? hist_score (snd ie)))
  then (fst ie, hist_score (snd ie)) else best.

(** The index of a maximum-score entry among the qualifying ones, [-1]
    when there is none. *)
Definition spec_best (final_state_ : Z) (final_ : bool) (frm : Z)
    (h : list fsg_hist_entry_t) : Z :=
  fst (foldr (spec_step final_state_ final_ frm) (-1, 0)
         (zip (seqZ 0 (Z.of_nat (length h))) h)).

Definition find_exit_spec (h : list fsg_hist_entry_t) (final_state_ : Z)
    (frame_idx : Z) (final_ : bool) : Z :=
  match spec_search_frame h frame_idx with
  | Some frm => spec_best final_state_ final_ frm h
  | None => -1
  end.

(** The best score and index of the second loop of fsg_search_find_exit
    ([c]) against the best index and score of the search as specified
    ([a]). *)
Definition best_rel (c a : Z * Z) : Prop :=
  snd c = fst a /\ fst c = (if fst a =? -1 then INT_MIN else snd a).

(** A grammar whose start state reaches its final state through a null arc
    of probability one: [0 -eps-> 1], with 1 final. *)
Definition ex_link_null_final : fsg_link_t :=
  {| from_state := 0; to_state := 1; link_logs2prob := 0; wid := -1 |}.

Definition ex_fsg3 : fsg_model_t :=
  {| n_state := 2; start_state := 0; final_state := 1;
     fsg_model_null_trans := fun s d =>
       if (s =? 0) && (d =? 1) then Some ex_link_null_final else None;
     fsg_model_trans := fun _ _ => [];
     fsg_model_is_filler := fun _ => false;
     fsg_model_word_str := fun _ => WORD |}.

(** [ex_search] with [ex_fsg3] in the place of [ex_fsg]. *)
Definition ex_search_null_final : @fsg_search_t unit (list Z) unit :=
  set_fsg_heap {[ 1%N := ex_fsg3; 2%N := ex_fsg2 ]} ex_search.

(** [ex_search] with [ex_fsg2], which has no null arc, selected. *)
Definition ex_search_h : @fsg_search_t unit (list Z) unit := set_fsg (Some 2%N) ex_search.

#[global] Instance spec_float_eq_dec : EqDecision spec_float.
Proof. solve_decision. Defined.

(** ** The values of the beam factor

    [f32_decay n x] is [x], [x * 0.9f], [x * 0.9f * 0.9f], ... ([n] values,
    each product rounded to single precision as the code computes it). *)
Fixpoint f32_decay (n : nat) (x : float32) : list float32 :=
  match n with
  | O => []
  | S n' => x :: f32_decay n' (f32_mul x f32_0_9)
  end.

(** The 23 values that the factor takes from [1.0f] on. *)
Definition beam_factor_values : list float32 := f32_decay 23 f32_1_0.

(** The last of them, [1.0f] multiplied 22 times by [0.9f]:
    13217364 * 2^-27, about 0.0985. *)
Definition beam_factor_min : float32 := S754_finite false 13217364 (-27).

(** [n > maxhmmpf], with the cap enabled. *)
Definition over_cap {acmod_t senscr_t lat_body_t : Type}
    (s : @fsg_search_t acmod_t senscr_t lat_body_t) : bool :=
  negb (maxhmmpf (base s) =? -1)
  && (maxhmmpf (base s) <? Z.of_nat (length (pnode_active s))).

(** [m] run [n] times. *)
Fixpoint repeatM {St} (n : nat) (m : M St unit) : M St unit :=
  match n with
  | O => ret tt
  | S n' => m ;;; repeatM n' m
  end.

Definition ex_hmm_at (frm : Z) : hmm_t :=
  {| hmm_in_score := 0; hmm_in_history := 0; hmm_inner := [];
     hmm_out_score := 0; hmm_out_history := 0; hmm_bestscore := 0; hmm_frame := frm |}.

(** The example decoder in frame 0 with both nodes active, which is more
    than the cap ([maxhmmpf] is 1). *)
Definition ex_crowded : @fsg_search_t unit (list Z) unit :=
  set_frame 0
    (set_pnode_active [0%nat; 1%nat]
       (set_lextree
          (Some (lextree_set_pnodes ex_lextree
                   (map (fun p => pnode_set_hmm p (ex_hmm_at 0)) (pnodes ex_lextree))))
          ex_search)).

Abbreviation ex_hmm_eval :=
  (fsg_search_hmm_eval (acmod_t := unit) (lat_body_t := unit)
                            false ex_vit_eval).

(** What fsg_search_hmm_eval does to the beam factor and the live beams
    in a frame with at least one active HMM, from [s] to [s']. *)
Definition beams_adjusted {acmod_t senscr_t lat_body_t : Type}
    (s s' : @fsg_search_t acmod_t senscr_t lat_body_t) : Prop :=
  if over_cap s then
    if f32_gt_0_1 (beam_factor s) then
      beam_factor s' = f32_mul (beam_factor s) f32_0_9
      /\ beam s' = scale_beam (beam_orig s) (beam_factor s')
      /\ pbeam s' = scale_beam (pbeam_orig s) (beam_factor s')
      /\ wbeam s' = scale_beam (wbeam_orig s) (beam_factor s')
    else
      beam_factor s' = beam_factor s
      /\ beam s' = beam s /\ pbeam s' = pbeam s /\ wbeam s' = wbeam s
  else
    beam_factor s' = f32_1_0
    /\ beam s' = beam_orig s /\ pbeam s' = pbeam_orig s /\ wbeam s' = wbeam_orig s.

(** ** What null propagation emits

    The destination state of a history entry, and the entry that
    fsg_search_null_prop emits for entry [e] (at index [bpidx]) and the
    null arc [l]. *)
Definition dest_state (g : fsg_model_t) (e : fsg_hist_entry_t) : Z :=
  match fsglink e with
  | Some l => to_state l
  | None => start_state g
  end.

Definition null_entry (bpidx : Z) (e : fsg_hist_entry_t) (l : fsg_link_t) : fsg_hist_entry_t :=
  {| fsglink := Some l; hist_frame := hist_frame e;
     hist_score := add32 (hist_score e) (link_logs2prob l); hist_pred := bpidx;
     hist_lc := hist_lc e; hist_rc := hist_rc e |}.

(** The entries emitted for [e], in the order of the loop over the states. *)
Definition null_emits (g : fsg_model_t) (thresh : Z) (bpidx : Z) (e : fsg_hist_entry_t)
    : list fsg_hist_entry_t :=
  range 0 (n_state g) ≫= fun d =>
    match fsg_model_null_trans g (dest_state g e) d with
    | Some l => if thresh <=? add32 (hist_score e) (link_logs2prob l)
                then [null_entry bpidx e l] else []
    | None => []
    end.

(** [s] with the entries [es] appended to its history. *)
Definition add_entries {acmod_t senscr_t lat_body_t : Type} (es : list fsg_hist_entry_t)
    (s : @fsg_search_t acmod_t senscr_t lat_body_t) : fsg_search_t :=
  set_history {| entries := entries (history s) ++ es;
                 hist_fsg := hist_fsg (history s); hist_dict := hist_dict (history s) |} s.

(** ** Admissible activations of a root

    [lextree_static_eq o0 o1]: the lextrees behind [o0] and [o1] have the
    same roots and the same nodes, up to the HMMs the nodes own. *)
Definition lextree_static_eq (o0 o1 : option fsg_lextree_t) : Prop :=
  match o0, o1 with
  | Some lt0, Some lt1 =>
      fsg_lextree_root lt1 = fsg_lextree_root lt0
      /\ Forall2 (fun p0 p1 => pnode_set_hmm p1 (hmm p0) = p0) (pnodes lt0) (pnodes lt1)
  | None, None => True
  | _, _ => False
  end.

(** [d] is the destination state of the history entry [e]. *)
Definition is_dest {acmod_t senscr_t lat_body_t : Type}
    (s : @fsg_search_t acmod_t senscr_t lat_body_t) (e : fsg_hist_entry_t) (d : Z) : Prop :=
  match fsglink e with
  | Some l => d = to_state l
  | None => exists a g, fsg s = Some a /\ fsg_heap s !! a = Some g /\ d = start_state g
  end.

(** The call [c] of [hmm_enter] is a cross-word transition made from the
    state [s]: it enters a root of the destination state of a history
    entry of the current frame, both context tests pass, and the new score
    passes the beam and beats the score that was entering the root. *)
Definition admissible_enter {acmod_t senscr_t lat_body_t : Type}
    (s : @fsg_search_t acmod_t senscr_t lat_body_t) (c : hmm_enter_call) : Prop :=
  exists e lt root d,
    bpidx_start s <= ec_history c < fsg_history_n_entries (history s)
    /\ fsg_history_entry_get (history s) (ec_history c) = Some e
    /\ is_dest s e d
    /\ lextree s = Some lt
    /\ ec_pnode c ∈ fsg_lextree_root lt d
    /\ pnodes lt !! ec_pnode c = Some root
    /\ ctxt_contains (ctxt root) (hist_lc e)
    /\ ctxt_contains (hist_rc e) (ci_ext root)
    /\ ec_score c = add32 (hist_score e) (logs2prob root)
    /\ add32 (bestscore s) (beam s) <= ec_score c
    /\ hmm_in_score (ec_before c) < ec_score c
    /\ ec_frame c = add32 (frame s) 1.

(** What the loops of fsg_search_word_trans keep, from the state [s] they
    start in: they read the history, the frame, the best score, the beam
    and the FSG and leave them alone, they change HMMs only, and every call
    of hmm_enter they add to the log is admissible. *)
Definition word_trans_inv {acmod_t senscr_t lat_body_t : Type}
    (s s1 : @fsg_search_t acmod_t senscr_t lat_body_t) : Prop :=
  history s1 = history s /\ frame s1 = frame s /\ bestscore s1 = bestscore s
  /\ beam s1 = beam s /\ bpidx_start s1 = bpidx_start s
  /\ fsg s1 = fsg s /\ fsg_heap s1 = fsg_heap s
  /\ lextree_static_eq (lextree s) (lextree s1)
  /\ exists calls, enter_log s1 = enter_log s ++ calls /\ Forall (admissible_enter s) calls.

(** ** The active sets and the frames of the HMMs *)

(** The nodes of the lextree of [s] (none when there is no lextree). *)
Definition all_pnodes {acmod_t senscr_t lat_body_t : Type}
    (s : @fsg_search_t acmod_t senscr_t lat_body_t) : list fsg_pnode_t :=
  match lextree s with
  | Some lt => pnodes lt
  | None => []
  end.

(** Node [i] exists and the frame field of its HMM is [F]. *)
Definition at_frame (ps : list fsg_pnode_t) (F : Z) (i : pnode_id) : Prop :=
  exists p, ps !! i = Some p /\ hmm_frame (hmm p) = F.

(** The state of the decoder between two frames: the next-frame list is
    empty, the active list holds exactly the nodes whose HMM is at the
    current frame, and no HMM is ahead of the current frame. *)
Definition active_inv {acmod_t senscr_t lat_body_t : Type}
    (s : @fsg_search_t acmod_t senscr_t lat_body_t) : Prop :=
  pnode_active_next s = []
  /\ (forall i, i ∈ pnode_active s <-> at_frame (all_pnodes s) (frame s) i)
  /\ (forall i p, all_pnodes s !! i = Some p -> hmm_frame (hmm p) <= frame s).

(** The same inside frame [F], with [N] the list for the next frame and
    [ps] the nodes: no HMM is beyond [F + 1], [N] holds exactly the nodes at
    [F + 1], the nodes of [A] are at [F] or [F + 1], and the nodes at [F]
    are in [A].  Inside fsg_search_step [A] is the active list; inside
    fsg_search_start, where the frame is -1 and every HMM is idle, it is the
    list of all the nodes. *)
Definition frames_inv (F : Z) (A N : list pnode_id) (ps : list fsg_pnode_t) : Prop :=
  (forall i p, ps !! i = Some p -> hmm_frame (hmm p) <= F + 1)
  /\ (forall i, i ∈ N <-> at_frame ps (F + 1) i)
  /\ (forall i, i ∈ A -> at_frame ps F i \/ at_frame ps (F + 1) i)
  /\ (forall i p, ps !! i = Some p -> hmm_frame (hmm p) = F -> i ∈ A).

(** The decoder inside frame [F], with [act] its active list. *)
Definition step_inv {acmod_t senscr_t lat_body_t : Type} (F : Z) (act A : list pnode_id)
    (s : @fsg_search_t acmod_t senscr_t lat_body_t) : Prop :=
  frame s = F /\ pnode_active s = act
  /\ frames_inv F A (pnode_active_next s) (all_pnodes s).

(** An HMM as [hmm_clear] leaves it. *)
Definition hmm_cleared (h : hmm_t) : Prop := exists h0, h = hmm_clear h0.

(** The dummy entry that [fsg_search_start] puts at index 0, and its copy
    through the null arc of [ex_fsg]. *)
Definition ex_entry_dummy : fsg_hist_entry_t :=
  {| fsglink := None; hist_frame := -1; hist_score := 0; hist_pred := -1;
     hist_lc := 0; hist_rc := fsg_pnode_add_all_ctxt |}.

Definition ex_entry_null : fsg_hist_entry_t :=
  {| fsglink := Some ex_link_null; hist_frame := -1; hist_score := -10; hist_pred := 0;
     hist_lc := 0; hist_rc := fsg_pnode_add_all_ctxt |}.

(** An exit of WORD in frame [frm]. *)
Definition ex_entry_word (frm score : Z) : fsg_hist_entry_t :=
  {| fsglink := Some ex_link_word; hist_frame := frm; hist_score := score; hist_pred := 1;
     hist_lc := 7; hist_rc := {| bv := [1; 0; 0; 0] |} |}.

(** [fsg_search_start] just before null propagation and just before the
    cross-word transitions. *)
Definition ex_search_dummy : @fsg_search_t unit (list Z) unit :=
  add_entries [ex_entry_dummy] ex_search.

Definition ex_search_nulls : @fsg_search_t unit (list Z) unit :=
  add_entries [ex_entry_dummy; ex_entry_null] ex_search.

(** The decoder after [fsg_search_start], and after one more frame. *)
Definition ex_search0 : @fsg_search_t unit (list Z) unit :=
  match ex_start ex_search with
  | Ok (_, s) => s
  | Err _ => ex_search
  end.

Definition ex_search1 : @fsg_search_t unit (list Z) unit :=
  match ex_step ex_search0 with
  | Ok (_, s) => s
  | Err _ => ex_search0
  end.

(** [ex_crowded] after [fsg_search_hmm_eval]. *)
Definition ex_crowded1 : @fsg_search_t unit (list Z) unit :=
  match ex_hmm_eval ex_crowded with
  | Ok (_, s) => s
  | Err _ => ex_crowded
  end.

Abbreviation ex_lattice :=
  (fsg_search_lattice (acmod_t := unit) (senscr_t := list Z)
                           ex_lattice_build).

(** The value a computation returns. *)
Definition eval {St A} (m : M St A) (s : St) : result A :=
  match m s with
  | Ok (a, _) => Ok a
  | Err e => Err e
  end.

(** [ex_search_nulls] after [fsg_search_word_trans], [ex_search_dummy]
    after [fsg_search_null_prop]. *)
Abbreviation ex_word_trans :=
  (fsg_search_word_trans (acmod_t := unit) (senscr_t := list Z)
                              (lat_body_t := unit) false).

Definition ex_search_entered : @fsg_search_t unit (list Z) unit :=
  match ex_word_trans ex_search_nulls with
  | Ok (_, s) => s
  | Err _ => ex_search_nulls
  end.



Definition ex_lextree_init (_ : option fsg_model_t) (_ : dict_t) (_ : unit) (_ _ : Z)
    : option fsg_lextree_t := Some ex_lextree.

(** ** The nodes of the word lattice

    The part of [ps_latnode_t] and [ps_latlink_t] that fsg_search.c reads
    and writes.  A pointer to a node is its index in [lat_arena], where the
    nodes are in the order of their allocation; [lat_chain] is the list
    [dag->nodes], [node->next], ..., the newest node first. *)

Record ps_latlink_t := {
  ll_from : nat;
  ll_to : nat;
  ll_ascr : Z;
  ll_ef : Z
}.

Record ps_latnode_t := {
  ln_wid : Z;
  ln_sf : Z;
  ln_fef : Z;
  ln_lef : Z;
  ln_reachable : bool;
  ln_entries : list ps_latlink_t;
  ln_exits : list ps_latlink_t;
  ln_best_exit : Z
}.

Record lat_nodes_t := {
  lat_arena : list ps_latnode_t;
  lat_chain : list nat
}.

Definition set_lat_arena (a : list ps_latnode_t) (dag : lat_nodes_t) : lat_nodes_t :=
  {| lat_arena := a; lat_chain := lat_chain dag |}.

Definition set_ln_reachable (b : bool) (n : ps_latnode_t) : ps_latnode_t :=
  {| ln_wid := ln_wid n; ln_sf := ln_sf n; ln_fef := ln_fef n; ln_lef := ln_lef n;
     ln_reachable := b; ln_entries := ln_entries n; ln_exits := ln_exits n;
     ln_best_exit := ln_best_exit n |}.

(** *** find_node *)

(** [for (node = dag->nodes; node; node = node->next)
       if (node->sf == sf && node->wid == wid) break;] *)
Fixpoint find_in_chain (arena : list ps_latnode_t) (chain : list nat) (sf wid : Z)
    : result (option nat) :=
  match chain with
  | [] => Ok None
  | n :: rest =>
      match arena !! n with
      | None => Err NullDeref
      | Some node =>
          if (ln_sf node =? sf) && (ln_wid node =? wid) then Ok (Some n)
          else find_in_chain arena rest sf wid
      end
  end.

Definition find_node (sf wid : Z) : M lat_nodes_t (option nat) :=
  fun dag =>
    match find_in_chain (lat_arena dag) (lat_chain dag) sf wid with
    | Ok r => Ok (r, dag)
    | Err e => Err e
    end.

(** *** new_node *)

(** "Update end frames", "Update best link score". *)
Definition latnode_update (ef ascr : Z) (n : ps_latnode_t) : ps_latnode_t :=
  {| ln_wid := ln_wid n; ln_sf := ln_sf n;
     ln_fef := if (ln_fef n =? -1) || (ef <? ln_fef n) then ef else ln_fef n;
     ln_lef := if (ln_lef n =? -1) || (ln_lef n <? ef) then ef else ln_lef n;
     ln_reachable := ln_reachable n;
     ln_entries := ln_entries n; ln_exits := ln_exits n;
     ln_best_exit := if ln_best_exit n <? ascr then ascr else ln_best_exit n |}.

Definition new_node (sf ef wid ascr : Z) : M lat_nodes_t nat :=
  found <- find_node sf wid;;
  match found with
  | Some n =>
      node <- gets (fun dag => lat_arena dag !! n);;
      node <- deref node;;
      modify (fun dag => set_lat_arena (<[n := latnode_update ef ascr node]> (lat_arena dag)) dag);;;
      ret n
  | None =>
      (* "New node; link to head of list" *)
      dag <- get;;
      let n := length (lat_arena dag) in
      modify (fun dag =>
        {| lat_arena := lat_arena dag
             ++ [{| ln_wid := wid; ln_sf := sf; ln_fef := ef; ln_lef := ef;
                    ln_reachable := false; ln_entries := []; ln_exits := [];
                    ln_best_exit := ascr |}];
           lat_chain := n :: lat_chain dag |});;;
      ret n
  end.

(** *** The first pass of fsg_search_lattice: the nodes *)

(** The start frame and the score of the link that the history entry [fh]
    stands for.  The C test [if (fh->pred)] takes every predecessor but 0
    for one. *)
Definition hist_link_start (h : fsg_history_t) (fh : fsg_hist_entry_t) : result (Z * Z) :=
  if hist_pred fh =? 0 then Ok (0, hist_score fh)
  else match fsg_history_entry_get h (hist_pred fh) with
       | None => Err NullDeref
       | Some pfh => Ok (add32 (hist_frame pfh) 1, sub32 (hist_score fh) (hist_score pfh))
       end.

(** "Skip null transitions." *)
Definition hist_word_link (fh : fsg_hist_entry_t) : option fsg_link_t :=
  match fsglink fh with
  | Some l => if wid l =? -1 then None else Some l
  | None => None
  end.

Definition lattice_add_nodes (h : fsg_history_t) : M lat_nodes_t unit :=
  forM_ (range 0 (fsg_history_n_entries h)) (fun i =>
    fh <- deref (fsg_history_entry_get h i);;
    match hist_word_link fh with
    | None => ret tt
    | Some l =>
        match hist_link_start h fh with
        | Err e => fail e
        | Ok (sf, ascr) => _ <- new_node sf (hist_frame fh) (wid l) ascr;; ret tt
        end
    end).

(** *** mark_reachable *)

(** The loop over [node->entries]: a predecessor that was not seen yet is
    marked and put at the head of the queue. *)
Definition mark_preds (entries : list ps_latlink_t) (q : list nat) : M lat_nodes_t (list nat) :=
  foldM entries q (fun q x =>
    next <- gets (fun dag => lat_arena dag !! ll_from x);;
    next <- deref next;;
    if negb (ln_reachable next) then
      modify (fun dag =>
        set_lat_arena (<[ll_from x := set_ln_reachable true next]> (lat_arena dag)) dag);;;
      ret (ll_from x :: q)
    else ret q).

(** [while (q)]: [fuel] bounds the number of nodes taken from the queue. *)
Fixpoint mark_loop (fuel : nat) (q : list nat) : M lat_nodes_t unit :=
  match fuel with
  | O => fail OutOfFuel
  | S fuel' =>
      match q with
      | [] => ret tt
      | n :: q' =>
          node <- gets (fun dag => lat_arena dag !! n);;
          node <- deref node;;
          q'' <- mark_preds (ln_entries node) q';;
          mark_loop fuel' q''
      end
  end.

Definition mark_reachable (fuel : nat) (end_ : nat) : M lat_nodes_t unit :=
  node <- gets (fun dag => lat_arena dag !! end_);;
  node <- deref node;;
  modify (fun dag => set_lat_arena (<[end_ := set_ln_reachable true node]> (lat_arena dag)) dag);;;
  mark_loop fuel [end_].

(** Total correctness: [m] returns from [s], and its result and final state
    satisfy [Q]. *)
Definition wpt {St A} (m : M St A) (Q : A -> St -> Prop) (s : St) : Prop :=
  match m s with
  | Ok (a, s') => Q a s'
  | Err _ => False
  end.

(** The chain of a lattice holds allocated nodes only, and no two nodes of
    it have the same start frame and word. *)
Definition lat_wf (dag : lat_nodes_t) : Prop :=
  (forall n, n ∈ lat_chain dag -> is_Some (lat_arena dag !! n))
  /\ (forall n m a b, n ∈ lat_chain dag -> m ∈ lat_chain dag ->
        lat_arena dag !! n = Some a -> lat_arena dag !! m = Some b ->
        ln_sf a = ln_sf b -> ln_wid a = ln_wid b -> n = m).

(** A lattice with no node yet. *)
Definition lat_empty : lat_nodes_t := {| lat_arena := []; lat_chain := [] |}.

(** The start frame, the word and the score of the lattice link that the
    history entry [fh] stands for; none for a null transition. *)
Definition hist_node_key (h : fsg_history_t) (fh : fsg_hist_entry_t) : option (Z * Z * Z) :=
  match hist_word_link fh, hist_link_start h fh with
  | Some l, Ok (sf, ascr) => Some (sf, wid l, ascr)
  | _, _ => None
  end.

(** The node [node] stands for a link from frame [sf] with the word [w],
    the score [ascr] and the end frame [ef]. *)
Definition node_covers (node : ps_latnode_t) (sf w ascr ef : Z) : Prop :=
  ln_sf node = sf /\ ln_wid node = w
  /\ ln_fef node <= ef <= ln_lef node /\ ascr <= ln_best_exit node.

(** The first and the last end frame and the best exit score of [node] are
    those of history entries among [done] that the node stands for. *)
Definition node_attained (h : fsg_history_t) (done : list Z) (node : ps_latnode_t) : Prop :=
  (exists i fh a, i ∈ done /\ fsg_history_entry_get h i = Some fh
     /\ hist_node_key h fh = Some (ln_sf node, ln_wid node, a)
     /\ hist_frame fh = ln_fef node)
  /\ (exists i fh a, i ∈ done /\ fsg_history_entry_get h i = Some fh
        /\ hist_node_key h fh = Some (ln_sf node, ln_wid node, a)
        /\ hist_frame fh = ln_lef node)
  /\ (exists i fh, i ∈ done /\ fsg_history_entry_get h i = Some fh
        /\ hist_node_key h fh = Some (ln_sf node, ln_wid node, ln_best_exit node)).

(** The nodes of [dag] are those of the links of the history entries
    [done]: every such link has its node, and every node has the end
    frames and the score of links it stands for. *)
Definition nodes_of_entries (h : fsg_history_t) (done : list Z) (dag : lat_nodes_t) : Prop :=
  lat_wf dag
  /\ (forall i fh sf w ascr, i ∈ done -> fsg_history_entry_get h i = Some fh ->
        hist_node_key h fh = Some (sf, w, ascr) ->
        exists n node, n ∈ lat_chain dag /\ lat_arena dag !! n = Some node
                       /\ node_covers node sf w ascr (hist_frame fh))
  /\ (forall n node, n ∈ lat_chain dag -> lat_arena dag !! n = Some node ->
        node_attained h done node).

(** [i] is a predecessor of [j]: a link that enters [j] comes from [i]. *)
Definition lat_pred (arena : list ps_latnode_t) (j i : nat) : Prop :=
  exists node x, arena !! j = Some node /\ x ∈ ln_entries node /\ ll_from x = i.

(** Node [j] is marked reachable. *)
Definition lat_marked (arena : list ps_latnode_t) (j : nat) : Prop :=
  exists node, arena !! j = Some node /\ ln_reachable node = true.

(** [arena'] is [arena] up to the reachable marks. *)
Definition same_but_marks (arena arena' : list ps_latnode_t) : Prop :=
  Forall2 (fun a a' => a' = set_ln_reachable (ln_reachable a') a) arena arena'.

(** The number of nodes that are not marked. *)
Definition unmarked (arena : list ps_latnode_t) : nat :=
  length (filter (fun nd => ln_reachable nd = false) arena).

(** What the loop of mark_reachable keeps, with [A] the nodes before it,
    [e] the end node, [q] the queue and [skip] the node whose entries are
    being visited: only marks change; a marked node is reached from [e]
    through predecessors; [e] and the nodes of the queue are marked; and
    the predecessors of a marked node that is not in the queue (and is not
    [skip]) are marked. *)
Definition mark_inv (A : list ps_latnode_t) (e : nat) (skip : option nat)
    (q : list nat) (arena : list ps_latnode_t) : Prop :=
  same_but_marks A arena
  /\ (forall j, lat_marked arena j -> rtc (lat_pred A) e j)
  /\ lat_marked arena e
  /\ (forall j, j ∈ q -> lat_marked arena j)
  /\ (forall j, lat_marked arena j -> j ∉ q -> Some j <> skip ->
        forall i, lat_pred A j i -> lat_marked arena i).

(** The node of the exits of WORD in the history of [ex_search3], and the
    nodes that the first pass builds from that history. *)
Definition ex_latnode_word : ps_latnode_t :=
  {| ln_wid := 0; ln_sf := 0; ln_fef := 1; ln_lef := 2; ln_reachable := false;
     ln_entries := []; ln_exits := []; ln_best_exit := -5 |}.

Definition ex_lat_nodes : lat_nodes_t :=
  {| lat_arena := [ex_latnode_word]; lat_chain := [0%nat] |}.

(** A lattice with a branch that does not lead to the end: the links
    [0 -> 1] and [0 -> 2], with 1 the end node. *)
Definition ex_lat_link (i j : nat) : ps_latlink_t :=
  {| ll_from := i; ll_to := j; ll_ascr := 0; ll_ef := 0 |}.

Definition ex_lat_node (w : Z) (entries exits : list ps_latlink_t) : ps_latnode_t :=
  {| ln_wid := w; ln_sf := 0; ln_fef := 0; ln_lef := 0; ln_reachable := false;
     ln_entries := entries; ln_exits := exits; ln_best_exit := 0 |}.

Definition ex_lat_branch : lat_nodes_t :=
  {| lat_arena := [ex_lat_node 0 [] [ex_lat_link 0 1; ex_lat_link 0 2];
                   ex_lat_node 1 [ex_lat_link 0 1] [];
                   ex_lat_node 2 [ex_lat_link 0 2] []];
     lat_chain := [2%nat; 1%nat; 0%nat] |}.

(** ** The history and the HMMs of a running decoder *)

(** The history ids that the HMM [h] holds are below [B]. *)
Definition hmm_hist_below (B : Z) (h : hmm_t) : Prop :=
  hmm_in_history h < B /\ hmm_out_history h < B
  /\ Forall (fun sh => snd sh < B) (hmm_inner h).

(** The history inside frame [F], with [n0] the number of entries the frame
    began with: the predecessor of an entry is before it, every entry but
    the first has a link, no entry is later than [F], the entries from
    [n0] on are of frame [F], and the frames do not decrease. *)
Definition hist_ok (F n0 : Z) (l : list fsg_hist_entry_t) : Prop :=
  (forall i e, l !! i = Some e ->
     hist_pred e < Z.of_nat i
     /\ ((0 < i)%nat -> is_Some (fsglink e))
     /\ hist_frame e <= F
     /\ (n0 <= Z.of_nat i -> hist_frame e = F))
  /\ (forall i j ei ej, (i <= j)%nat -> l !! i = Some ei -> l !! j = Some ej ->
        hist_frame ei <= hist_frame ej).

(** The HMM [h] inside frame [F]: it holds history ids below [B], and it
    was entered for the next frame, or is at [F], or is idle. *)
Definition hmm_ok (F B : Z) (h : hmm_t) : Prop :=
  hmm_hist_below B h
  /\ (hmm_frame h = F + 1 \/ (0 <= F /\ hmm_frame h = F) \/ hmm_cleared h).

(** The decoder inside frame [F]: [n0] is the index of the first history
    entry of the frame and the history begins with [l0]. *)
Definition mid_inv {acmod_t senscr_t lat_body_t : Type} (F n0 : Z)
    (l0 : list fsg_hist_entry_t)
    (s : @fsg_search_t acmod_t senscr_t lat_body_t) : Prop :=
  frame s = F
  /\ bpidx_start s = n0
  /\ l0 `prefix_of` entries (history s)
  /\ hist_ok F n0 (entries (history s))
  /\ (forall i p, all_pnodes s !! i = Some p ->
        hmm_ok F (fsg_history_n_entries (history s)) (hmm p)).

(** The decoder between two frames: every history entry is of an earlier
    frame and comes after its predecessor, every entry but the first has a
    link, the frames of the entries do not decrease, and every HMM holds
    ids of history entries that exist and is at the current frame or
    idle. *)
Definition run_inv {acmod_t senscr_t lat_body_t : Type}
    (s : @fsg_search_t acmod_t senscr_t lat_body_t) : Prop :=
  (forall i e, entries (history s) !! i = Some e ->
     hist_pred e < Z.of_nat i
     /\ ((0 < i)%nat -> is_Some (fsglink e))
     /\ hist_frame e < frame s)
  /\ (forall i j ei ej, (i <= j)%nat ->
        entries (history s) !! i = Some ei -> entries (history s) !! j = Some ej ->
        hist_frame ei <= hist_frame ej)
  /\ (forall i p, all_pnodes s !! i = Some p ->
        hmm_hist_below (fsg_history_n_entries (history s)) (hmm p)
        /\ (hmm_frame (hmm p) = frame s \/ hmm_cleared (hmm p))).

(** * Properties *)

(** ** Machine arithmetic *)

Lemma wrap32_id (z : Z) : in_int32 z -> wrap32 z = z.
Proof.
  unfold in_int32, INT_MIN, INT_MAX, wrap32. intros H.
  rewrite Z.mod_small by lia. lia.
Qed.

Lemma wrap32_range (z : Z) : in_int32 (wrap32 z).
Proof.
  unfold in_int32, INT_MIN, INT_MAX, wrap32.
  pose proof (Z.mod_pos_bound (z + 2147483648) 4294967296 ltac:(lia)). lia.
Qed.

Lemma add32_exact (a b : Z) : in_int32 (a + b) -> add32 a b = a + b.
Proof. apply wrap32_id. Qed.

(** ** Rules for the monad *)

Lemma wp_ok {St A} (m : M St A) (Q : A -> St -> Prop) s a s' :
  wp m Q s -> m s = Ok (a, s') -> Q a s'.
Proof. unfold wp. intros H E. now rewrite E in H. Qed.

Lemma wp_bind {St A B} (m : M St A) (k : A -> M St B) (Q : B -> St -> Prop) s :
  wp m (fun a s' => wp (k a) Q s') s -> wp (bind m k) Q s.
Proof. unfold wp, bind. destruct (m s) as [[a s']|e]; auto. Qed.

Lemma wp_mono {St A} (m : M St A) (Q Q' : A -> St -> Prop) s :
  wp m Q s -> (forall a s', Q a s' -> Q' a s') -> wp m Q' s.
Proof. unfold wp. destruct (m s) as [[a s']|e]; auto. Qed.

Lemma wp_ret {St A} (a : A) (Q : A -> St -> Prop) s : Q a s -> wp (ret a) Q s.
Proof. auto. Qed.

Lemma wp_get {St} (Q : St -> St -> Prop) s : Q s s -> wp get Q s.
Proof. auto. Qed.

Lemma wp_gets {St A} (f : St -> A) (Q : A -> St -> Prop) s : Q (f s) s -> wp (gets f) Q s.
Proof. auto. Qed.

Lemma wp_modify {St} (f : St -> St) (Q : unit -> St -> Prop) s :
  Q tt (f s) -> wp (modify f) Q s.
Proof. auto. Qed.

Lemma wp_fail {St A} (e : error) (Q : A -> St -> Prop) s : wp (fail e) Q s.
Proof. exact I. Qed.

Lemma wp_deref {St A} (o : option A) (Q : A -> St -> Prop) s :
  (forall a, o = Some a -> Q a s) -> wp (deref o) Q s.
Proof. destruct o; simpl; intros H; [apply H; reflexivity | exact I]. Qed.

Lemma wp_when {St} (b : bool) (m : M St unit) (Q : unit -> St -> Prop) s :
  (b = true -> wp m Q s) -> (b = false -> Q tt s) -> wp (when b m) Q s.
Proof. destruct b; simpl; intros H1 H2; [apply H1 | apply H2]; reflexivity. Qed.

(** A loop keeps what every run of its body keeps. *)
Lemma wp_forM_ {St A} (I : St -> Prop) (l : list A) (body : A -> M St unit) :
  (forall x s, x ∈ l -> I s -> wp (body x) (fun _ => I) s) ->
  forall s, I s -> wp (forM_ l body) (fun _ => I) s.
Proof.
  induction l as [|x l IH]; intros Hb s Hs; simpl.
  - exact Hs.
  - apply wp_bind. eapply wp_mono.
    + apply Hb; [left | exact Hs].
    + intros u s' Hs'. apply IH; [|exact Hs'].
      intros y s0 Hy. apply Hb. now right.
Qed.

(** The same with an invariant that knows which elements were visited. *)
Lemma wp_forM_split {St A} (I : list A -> St -> Prop) (l : list A) (body : A -> M St unit) :
  (forall done x rest s, l = done ++ x :: rest -> I done s ->
     wp (body x) (fun _ => I (done ++ [x])) s) ->
  forall s, I [] s -> wp (forM_ l body) (fun _ => I l) s.
Proof.
  intros Hb.
  enough (G : forall rest done s, l = done ++ rest -> I done s ->
            wp (forM_ rest body) (fun _ => I l) s).
  { intros s Hs. now apply (G l [] s). }
  induction rest as [|x rest IH]; intros done s El Hs; simpl.
  - rewrite app_nil_r in El. now subst.
  - apply wp_bind. eapply wp_mono.
    + eapply Hb; eauto.
    + intros u s' Hs'. apply (IH (done ++ [x])); [|exact Hs'].
      now rewrite <- app_assoc.
Qed.

Lemma wp_foldM {St A B} (I : B -> St -> Prop) (l : list A) (body : B -> A -> M St B) :
  (forall acc x s, x ∈ l -> I acc s -> wp (body acc x) I s) ->
  forall acc s, I acc s -> wp (foldM l acc body) I s.
Proof.
  induction l as [|x l IH]; intros Hb acc s Hs; simpl.
  - exact Hs.
  - apply wp_bind. eapply wp_mono.
    + apply Hb; [left | exact Hs].
    + intros acc' s' Hs'. apply IH; [|exact Hs'].
      intros a y s0 Hy. apply Hb. now right.
Qed.

(** The number of elements a [foldM] loop has counted. *)
Lemma wp_foldM_count {St A B} (I : nat -> B -> St -> Prop) (l : list A)
    (body : B -> A -> M St B) :
  (forall n acc x s, x ∈ l -> I n acc s -> wp (body acc x) (I (S n)) s) ->
  forall n acc s, I n acc s -> wp (foldM l acc body) (I (n + length l)%nat) s.
Proof.
  induction l as [|x l IH]; intros Hb n acc s Hs; simpl.
  - now rewrite Nat.add_0_r.
  - apply wp_bind. eapply wp_mono.
    + apply (Hb n); [left | exact Hs].
    + intros acc' s' Hs'. replace (n + S (length l))%nat with (S n + length l)%nat by lia.
      apply IH; [|exact Hs'].
      intros m a y s0 Hy. apply Hb. now right.
Qed.

(** ** Rules for total correctness *)

Lemma wpt_ok {St A} (m : M St A) (Q : A -> St -> Prop) s :
  wpt m Q s -> exists a s', m s = Ok (a, s') /\ Q a s'.
Proof. unfold wpt. destruct (m s) as [[a s']|e]; [eauto | contradiction]. Qed.

Lemma wpt_intro {St A} (m : M St A) (Q : A -> St -> Prop) s a s' :
  m s = Ok (a, s') -> Q a s' -> wpt m Q s.
Proof. unfold wpt. now intros ->. Qed.

Lemma wpt_bind {St A B} (m : M St A) (k : A -> M St B) (Q : B -> St -> Prop) s :
  wpt m (fun a s' => wpt (k a) Q s') s -> wpt (bind m k) Q s.
Proof. unfold wpt, bind. destruct (m s) as [[a s']|e]; auto. Qed.

Lemma wpt_mono {St A} (m : M St A) (Q Q' : A -> St -> Prop) s :
  wpt m Q s -> (forall a s', Q a s' -> Q' a s') -> wpt m Q' s.
Proof. unfold wpt. destruct (m s) as [[a s']|e]; auto. Qed.

Lemma wpt_ret {St A} (a : A) (Q : A -> St -> Prop) s : Q a s -> wpt (ret a) Q s.
Proof. auto. Qed.

Lemma wpt_get {St} (Q : St -> St -> Prop) s : Q s s -> wpt get Q s.
Proof. auto. Qed.

Lemma wpt_gets {St A} (f : St -> A) (Q : A -> St -> Prop) s : Q (f s) s -> wpt (gets f) Q s.
Proof. auto. Qed.

Lemma wpt_modify {St} (f : St -> St) (Q : unit -> St -> Prop) s :
  Q tt (f s) -> wpt (modify f) Q s.
Proof. auto. Qed.

Lemma wpt_deref {St A} (o : option A) (a : A) (Q : A -> St -> Prop) s :
  o = Some a -> Q a s -> wpt (deref o) Q s.
Proof. intros ->. auto. Qed.

Lemma wpt_wp {St A} (m : M St A) (Q : A -> St -> Prop) s : wpt m Q s -> wp m Q s.
Proof. unfold wpt, wp. destruct (m s) as [[a s']|e]; auto. Qed.

(** A loop whose body returns and keeps [I] returns and keeps [I]. *)
Lemma wpt_forM_split {St A} (I : list A -> St -> Prop) (l : list A) (body : A -> M St unit) :
  (forall done x rest s, l = done ++ x :: rest -> I done s ->
     wpt (body x) (fun _ => I (done ++ [x])) s) ->
  forall s, I [] s -> wpt (forM_ l body) (fun _ => I l) s.
Proof.
  intros Hb.
  enough (G : forall rest done s, l = done ++ rest -> I done s ->
            wpt (forM_ rest body) (fun _ => I l) s).
  { intros s Hs. now apply (G l [] s). }
  induction rest as [|x rest IH]; intros done s El Hs; simpl.
  - rewrite app_nil_r in El. now subst.
  - apply wpt_bind. eapply wpt_mono.
    + eapply Hb; eauto.
    + intros u s' Hs'. apply (IH (done ++ [x])); [|exact Hs'].
      now rewrite <- app_assoc.
Qed.

Lemma wpt_foldM_split {St A B} (I : list A -> B -> St -> Prop) (l : list A)
    (body : B -> A -> M St B) :
  (forall done x rest acc s, l = done ++ x :: rest -> I done acc s ->
     wpt (body acc x) (I (done ++ [x])) s) ->
  forall acc s, I [] acc s -> wpt (foldM l acc body) (I l) s.
Proof.
  intros Hb.
  enough (G : forall rest done acc s, l = done ++ rest -> I done acc s ->
            wpt (foldM rest acc body) (I l) s).
  { intros acc s Hs. now apply (G l [] acc s). }
  induction rest as [|x rest IH]; intros done acc s El Hs; simpl.
  - rewrite app_nil_r in El. now subst.
  - apply wpt_bind. eapply wpt_mono.
    + eapply Hb; eauto.
    + intros acc' s' Hs'. apply (IH (done ++ [x])); [|exact Hs'].
      now rewrite <- app_assoc.
Qed.

Ltac wpt_step :=
  lazymatch goal with
  | |- wpt (bind _ _) _ _ => apply wpt_bind
  | |- wpt (ret _) _ _ => apply wpt_ret
  | |- wpt get _ _ => apply wpt_get
  | |- wpt (gets _) _ _ => apply wpt_gets
  | |- wpt (modify _) _ _ => apply wpt_modify
  end.

Section Properties.

Context {acmod_t senscr_t lat_body_t : Type}.

Variable NDEBUG : bool.
Variable acmod_n_feat_frame : acmod_t -> Z.
Variable acmod_compallsen : acmod_t -> bool.
Variable acmod_n_senone_active : acmod_t -> Z.
Variable acmod_clear_active : acmod_t -> acmod_t.
Variable acmod_activate_hmm : acmod_t -> hmm_t -> acmod_t.
Variable acmod_score : acmod_t -> senscr_t * acmod_t.
Variable bin_mdef_ciphone_id : acmod_t -> string -> Z.
Variable hmm_vit_eval : option senscr_t -> hmm_t -> Z * hmm_t.
Variable fsg_lextree_init :
  option fsg_model_t -> dict_t -> acmod_t -> Z -> Z -> option fsg_lextree_t.
Variable fsg_lattice_build :
  fsg_model_t -> dict_t -> fsg_history_t -> Z -> option (lat_body_t * fsg_model_t).
Variable fsg_search_bestpath_hyp : ps_lattice_t lat_body_t -> option string * option Z.

Local Abbreviation search_t := (@fsg_search_t acmod_t senscr_t lat_body_t).
Local Abbreviation FM := (M search_t).

Local Abbreviation assert := (assert (acmod_t := acmod_t) (senscr_t := senscr_t)
                                (lat_body_t := lat_body_t) NDEBUG).
Local Abbreviation fsg_search_reinit := (fsg_search_reinit (senscr_t := senscr_t)
                                           (lat_body_t := lat_body_t) fsg_lextree_init).
Local Abbreviation fsg_search_sen_active :=
  (fsg_search_sen_active (senscr_t := senscr_t) (lat_body_t := lat_body_t)
     NDEBUG acmod_clear_active acmod_activate_hmm).
Local Abbreviation hmm_eval_loop :=
  (hmm_eval_loop (acmod_t := acmod_t) (lat_body_t := lat_body_t) NDEBUG hmm_vit_eval).
Local Abbreviation fsg_search_hmm_eval :=
  (fsg_search_hmm_eval (acmod_t := acmod_t) (lat_body_t := lat_body_t) NDEBUG hmm_vit_eval).
Local Abbreviation fsg_search_pnode_trans :=
  (fsg_search_pnode_trans (acmod_t := acmod_t) (senscr_t := senscr_t)
     (lat_body_t := lat_body_t) NDEBUG).
Local Abbreviation fsg_search_pnode_exit :=
  (fsg_search_pnode_exit (acmod_t := acmod_t) (senscr_t := senscr_t)
     (lat_body_t := lat_body_t) NDEBUG).
Local Abbreviation fsg_search_hmm_prune_prop :=
  (fsg_search_hmm_prune_prop (acmod_t := acmod_t) (senscr_t := senscr_t)
     (lat_body_t := lat_body_t) NDEBUG).
Local Abbreviation fsg_search_word_trans :=
  (fsg_search_word_trans (acmod_t := acmod_t) (senscr_t := senscr_t)
     (lat_body_t := lat_body_t) NDEBUG).
Local Abbreviation deactivate_stale :=
  (deactivate_stale (acmod_t := acmod_t) (senscr_t := senscr_t)
     (lat_body_t := lat_body_t) NDEBUG).
Local Abbreviation fsg_search_step :=
  (fsg_search_step (lat_body_t := lat_body_t) NDEBUG acmod_n_feat_frame acmod_compallsen
     acmod_n_senone_active acmod_clear_active acmod_activate_hmm acmod_score hmm_vit_eval).
Local Abbreviation fsg_search_start :=
  (fsg_search_start (senscr_t := senscr_t) (lat_body_t := lat_body_t)
     NDEBUG bin_mdef_ciphone_id).
Local Abbreviation fsg_search_lattice :=
  (fsg_search_lattice (acmod_t := acmod_t) (senscr_t := senscr_t) fsg_lattice_build).
Local Abbreviation fsg_search_hyp :=
  (fsg_search_hyp (acmod_t := acmod_t) (senscr_t := senscr_t)
     fsg_lattice_build fsg_search_bestpath_hyp).

Lemma wp_assert (b : bool) (Q : unit -> search_t -> Prop) (s : search_t) :
  Q tt s -> wp (assert b) Q s.
Proof. intros H. unfold assert. destruct NDEBUG, b; try exact H. exact I. Qed.

(** ** Running straight-line code *)

Lemma assert_true (s : search_t) : assert true s = Ok (tt, s).
Proof. unfold assert. now destruct NDEBUG. Qed.

Lemma bind_ok {A B} (m : FM A) (k : A -> FM B) (s s' : search_t) (a : A) :
  m s = Ok (a, s') -> bind m k s = k a s'.
Proof. unfold bind. now intros ->. Qed.

Lemma get_pnode_ok (s : search_t) lt pid p :
  lextree s = Some lt -> pnodes lt !! pid = Some p -> get_pnode pid s = Ok (p, s).
Proof.
  intros Hlt Hp. unfold get_pnode, get_lextree, bind, get. simpl.
  rewrite Hlt. simpl. now rewrite Hp.
Qed.

Lemma get_fsg_ok (s : search_t) a g :
  fsg s = Some a -> fsg_heap s !! a = Some g -> get_fsg s = Ok (g, s).
Proof.
  intros Ha Hg. unfold get_fsg, bind, get. simpl. rewrite Ha. simpl. now rewrite Hg.
Qed.

(** ** Word exits (fsg_search_pnode_exit) *)

(** C5.  The exit of a leaf appends one history entry: its link is the
    leaf's, its frame the current one, its score and predecessor are the
    HMM's out_score and out_history, its left context is the leaf's ci_ext,
    and its right context is the all-ones vector when the word is a filler
    or has a one-phone pronunciation and the leaf's own vector otherwise. *)
Theorem pnode_exit_entry (s : search_t) lt pid pnode fl a g :
  lextree s = Some lt -> pnodes lt !! pid = Some pnode ->
  leaf pnode = true -> pn_fsglink pnode = Some fl -> 0 <= wid fl ->
  fsg s = Some a -> fsg_heap s !! a = Some g ->
  let d := dict (base s) in
  let all_rc := fsg_model_is_filler g (wid fl)
                || (dict_pronlen d (dict_to_id d (fsg_model_word_str g (wid fl))) =? 1) in
  exists e,
    fsg_search_pnode_exit pid s
      = Ok (tt, set_history (fsg_history_entry_add (history s) e) s)
    /\ entries (fsg_history_entry_add (history s) e) = entries (history s) ++ [e]
    /\ fsglink e = Some fl
    /\ hist_frame e = frame s
    /\ hist_score e = hmm_out_score (hmm pnode)
    /\ hist_pred e = hmm_out_history (hmm pnode)
    /\ hist_lc e = ci_ext pnode
    /\ (all_rc = true -> bv (hist_rc e) = replicate FSG_PNODE_CTXT_BVSZ 4294967295)
    /\ (all_rc = false -> hist_rc e = ctxt pnode).
Proof.
  intros Hlt Hp Hleaf Hfl Hwid Ha Hg d all_rc.
  unfold fsg_search_pnode_exit.
  rewrite (bind_ok _ _ _ _ _ (get_pnode_ok _ _ _ _ Hlt Hp)).
  rewrite Hleaf, (bind_ok _ _ _ _ _ (assert_true s)).
  rewrite Hfl. rewrite bool_decide_eq_true_2 by eauto.
  rewrite (bind_ok _ _ _ _ _ (assert_true s)).
  unfold deref at 1. unfold bind at 1, ret at 1.
  replace (0 <=? wid fl) with true by (symmetry; apply Z.leb_le; exact Hwid).
  rewrite (bind_ok _ _ _ _ _ (assert_true s)).
  unfold bind at 1, get at 1.
  rewrite (bind_ok _ _ _ _ _ (get_fsg_ok _ _ _ Ha Hg)).
  fold d. fold all_rc.
  destruct all_rc eqn:E; eexists; (split; [reflexivity|]); simpl;
    repeat split; auto; discriminate.
Qed.

(** ** The FSG registry (fsg_set_remove_byname, fsg_set_select) *)

Lemma fsg_ptr_eqb_eq (f g : option fsg_ptr) : fsg_ptr_eqb f g = true <-> f = g.
Proof.
  destruct f as [a|], g as [b|]; simpl; try (split; congruence).
  rewrite N.eqb_eq. split; congruence.
Qed.

Lemma fsg_ptr_eqb_neq (f g : option fsg_ptr) : fsg_ptr_eqb f g = false <-> f <> g.
Proof.
  rewrite <- fsg_ptr_eqb_eq. destruct (fsg_ptr_eqb f g); split; congruence.
Qed.

(** C9, as the code has it.  For an FSG [p] registered under [key]:
    removing it when it is the current one nulls the current-FSG pointer,
    frees the lextree and unbinds the history; removing it when it is not
    the current one changes the registry only; selecting it makes it the
    current one and leaves the lextree (built for the FSG that was current
    before) and the history binding as they are, until fsg_search_reinit
    builds the lextree of the selected FSG and binds the history to it. *)
Theorem fsg_set_current_changes (s : search_t) (key : string) (p : fsg_ptr) :
  fsgs s !! key = Some p ->
  (fsg s = Some p ->
     exists s', fsg_set_remove_byname key s = Ok (Some p, s')
       /\ fsgs s' = delete key (fsgs s)
       /\ fsg s' = None /\ lextree s' = None /\ hist_fsg (history s') = None)
  /\ (fsg s <> Some p ->
     fsg_set_remove_byname key s = Ok (Some p, set_fsgs (delete key (fsgs s)) s))
  /\ (exists s', fsg_set_select key s = Ok (Some p, s')
       /\ fsg s' = Some p /\ lextree s' = lextree s /\ history s' = history s
       /\ fsgs s' = fsgs s
       /\ exists s'', fsg_search_reinit s' = Ok (0, s'')
            /\ fsg s'' = Some p
            /\ lextree s'' = fsg_lextree_init (fsg_heap s !! p) (dict (base s))
                               (acmod (base s)) (wip s) (pip s)
            /\ hist_fsg (history s'') = Some p).
Proof.
  intros Hk. repeat split.
  - intros Hcur. unfold fsg_set_remove_byname, bind, get, modify, ret. simpl.
    rewrite Hk. simpl. rewrite Hcur.
    replace (fsg_ptr_eqb (Some p) (Some p)) with true
      by (symmetry; now apply fsg_ptr_eqb_eq).
    eexists. split; [reflexivity|]. simpl. auto.
  - intros Hcur. unfold fsg_set_remove_byname, bind, get, modify, ret. simpl.
    rewrite Hk. simpl.
    replace (fsg_ptr_eqb (fsg s) (Some p)) with false
      by (symmetry; now apply fsg_ptr_eqb_neq).
    reflexivity.
  - unfold fsg_set_select, fsg_set_get_fsg, bind, gets, modify, ret. rewrite Hk.
    eexists. split; [reflexivity|]. simpl. repeat split.
    unfold fsg_search_reinit, bind, get, modify, ret. simpl.
    eexists. split; [reflexivity|]. simpl. auto.
Qed.

(** ** The lattice cache (fsg_search_lattice) *)




(** ** The back-pointer search (fsg_search_find_exit) *)

(** The first loop never changes [bpidx]: when the newest entry is later
    than [frame_idx], every iteration finds the loop as it was. *)
Lemma find_exit_scan_stuck (fuel : nat) (h : fsg_history_t) (frame_idx bpidx : Z) e :
  0 < bpidx -> fsg_history_entry_get h bpidx = Some e -> frame_idx < hist_frame e ->
  find_exit_scan fuel h frame_idx bpidx = Err OutOfFuel.
Proof.
  intros Hb He Hf. induction fuel as [|fuel IH]; simpl; [reflexivity|].
  replace (0 <? bpidx) with true by (symmetry; now apply Z.ltb_lt).
  rewrite He.
  replace (hist_frame e <=? frame_idx) with false by (symmetry; apply Z.leb_gt; lia).
  exact IH.
Qed.




(** ** The back-pointer search when the newest entry is in range *)

Lemma last_filter_snoc {A} (P : A -> Prop) `{!forall x, Decision (P x)} (l : list A) (x : A) :
  P x -> last (filter P (l ++ [x])) = Some x.
Proof.
  intros Hx. rewrite filter_app, filter_cons_True by exact Hx.
  rewrite filter_nil. apply last_snoc.
Qed.

Lemma spec_search_frame_newest (h : fsg_history_t) (frame_idx : Z) e :
  newest h = Some e -> hist_frame e <= frame_idx ->
  spec_search_frame (entries h) frame_idx = Some (hist_frame e).
Proof.
  unfold newest, fsg_history_entry_get, fsg_history_n_entries, spec_search_frame.
  intros He Hf. destruct (_ <? 0) eqn:Hn; [discriminate|].
  apply Z.ltb_ge in Hn.
  induction (entries h) as [|x l _] using rev_ind; [simpl in Hn; lia|].
  rewrite length_app in He. simpl in He.
  replace (Z.to_nat _) with (length l) in He by lia.
  rewrite lookup_app_r, Nat.sub_diag in He by lia. injection He as ->.
  now rewrite last_filter_snoc.
Qed.

Lemma spec_step_skip fs final_ frm ie best :
  hist_frame (snd ie) <> frm -> spec_step fs final_ frm ie best = best.
Proof.
  intros H. unfold spec_step, spec_qualifies.
  replace (hist_frame (snd ie) =? frm) with false by (symmetry; now apply Z.eqb_neq).
  reflexivity.
Qed.

Lemma foldr_spec_step_skip fs final_ frm (ies : list (Z * fsg_hist_entry_t)) a :
  Forall (fun ie => hist_frame (snd ie) <> frm) ies ->
  foldr (spec_step fs final_ frm) a ies = a.
Proof.
  induction 1 as [|ie ies H _ IH]; simpl; [reflexivity|].
  rewrite IH. now apply spec_step_skip.
Qed.

(** One iteration of the second loop, on an entry of the frame searched. *)
Lemma best_step (fs_code : option Z) (fs : Z) (final_ : bool) (f k : Z)
    (x : fsg_hist_entry_t) (c a : Z * Z) :
  (final_ = true -> fs_code = Some fs /\ is_Some (fsglink x)) ->
  INT_MIN < hist_score x -> 0 <= k -> hist_frame x = f -> best_rel c a ->
  exists u : bool,
    (if fst c <? hist_score x then
       if negb final_ then Ok true
       else match fsglink x, fs_code with
            | Some fl, Some fs' => Ok (to_state fl =? fs')
            | _, _ => Err NullDeref
            end
     else Ok false) = Ok u
    /\ best_rel (if u then hist_score x else fst c, if u then k else snd c)
                (spec_step fs final_ f (k, x) a).
Proof.
  intros Hfin Hsc Hk Hf (Hi & Hs). unfold spec_step, spec_qualifies. simpl.
  replace (hist_frame x =? f) with true by (symmetry; now apply Z.eqb_eq).
  assert (E : (fst c <? hist_score x) = ((fst a =? -1) || (snd a <? hist_score x))).
  { rewrite Hs. destruct (fst a =? -1); simpl; [|reflexivity]. apply Z.ltb_lt; lia. }
  rewrite <- E. unfold best_rel.
  destruct (fst c <? hist_score x).
  - destruct final_; simpl.
    + destruct (Hfin eq_refl) as (-> & fl & Hfl). rewrite Hfl.
      eexists. split; [reflexivity|]. rewrite andb_true_r.
      destruct (to_state fl =? fs); simpl; [|auto].
      replace (k =? -1) with false by (symmetry; apply Z.eqb_neq; lia). auto.
    + exists true. split; [reflexivity|]. simpl.
      replace (k =? -1) with false by (symmetry; apply Z.eqb_neq; lia). auto.
  - exists false. split; [reflexivity|]. rewrite andb_false_r. auto.
Qed.

Lemma zip_seqZ_snoc {A} (k : nat) (l : list A) (x : A) :
  length l = k ->
  zip (seqZ 0 (Z.of_nat (S k))) (l ++ [x]) = zip (seqZ 0 (Z.of_nat k)) l ++ [(Z.of_nat k, x)].
Proof.
  intros Hl. rewrite seqZ_S.
  rewrite zip_with_app by (rewrite length_seqZ; lia). reflexivity.
Qed.

(** The second loop from index [k] down, against the specified choice over
    the entries 0 to [k]. *)
Lemma find_exit_best_refines (h : fsg_history_t) (fs_code : option Z) (fs : Z)
    (final_ : bool) (f : Z) :
  (final_ = true ->
   fs_code = Some fs
   /\ forall i e, entries h !! i = Some e -> hist_frame e = f -> is_Some (fsglink e)) ->
  (forall i e, entries h !! i = Some e -> INT_MIN < hist_score e) ->
  (forall i j ei ej, (i <= j)%nat -> entries h !! i = Some ei -> entries h !! j = Some ej ->
                     hist_frame ei <= hist_frame ej) ->
  forall (k : nat) x c a,
    entries h !! k = Some x -> hist_frame x <= f -> best_rel c a ->
    exists c',
      find_exit_best (S k) h fs_code final_ f (Z.of_nat k) x (fst c) (snd c) = Ok c'
      /\ best_rel c' (foldr (spec_step fs final_ f) a
                        (zip (seqZ 0 (Z.of_nat (S k))) (take (S k) (entries h)))).
Proof.
  intros Hfin Hsc Hsort k.
  induction k as [|k IH]; intros x c a Hx Hxf Hrel;
    rewrite (take_S_r _ _ _ Hx), zip_seqZ_snoc, foldr_app
      by (apply length_take_le; apply lookup_lt_Some in Hx; lia);
    cbn [foldr find_exit_best];
    destruct (Z.eqb_spec (hist_frame x) f) as [Hf|Hf].
  - destruct (best_step fs_code fs final_ f (Z.of_nat 0) x c a) as (u & -> & Hrel');
      [intros Hfi; destruct (Hfin Hfi); eauto | eauto | lia | exact Hf | exact Hrel |].
    simpl. eexists. split; [reflexivity | exact Hrel'].
  - exists c. split; [now destruct c|]. simpl. now rewrite spec_step_skip.
  - destruct (best_step fs_code fs final_ f (Z.of_nat (S k)) x c a) as (u & -> & Hrel');
      [intros Hfi; destruct (Hfin Hfi); eauto | eauto | lia | exact Hf | exact Hrel |].
    replace (Z.of_nat (S k) - 1 <? 0) with false by (symmetry; apply Z.ltb_ge; lia).
    unfold fsg_history_entry_get.
    replace (Z.of_nat (S k) - 1 <? 0) with false by (symmetry; apply Z.ltb_ge; lia).
    replace (Z.to_nat (Z.of_nat (S k) - 1)) with k by lia.
    destruct (lookup_lt_is_Some_2 (entries h) k) as [e' He'];
      [apply lookup_lt_Some in Hx; lia|].
    rewrite He'. replace (Z.of_nat (S k) - 1) with (Z.of_nat k) by lia.
    apply (IH e' (_, _) _ He'); [|exact Hrel'].
    rewrite <- Hf. apply (Hsort k (S k) e' x); [lia | exact He' | exact Hx].
  - exists c. split; [now destruct c|].
    rewrite spec_step_skip by exact Hf. rewrite foldr_spec_step_skip; [exact Hrel|].
    apply Forall_forall. intros [i e'] Hin. simpl.
    apply elem_of_zip_r in Hin. simpl in Hin.
    apply elem_of_take in Hin as (j & Hj & Hlt).
    pose proof (Hsort j (S k) e' x ltac:(lia) Hj Hx). lia.
Qed.

(** X2.  When the history has more than one entry, the newest one is not later
    than [frame_idx], the frames of the entries do not decrease, every score
    is above [INT_MIN] and (for a final hypothesis) the FSG is set and the
    entries of the frame of the newest one have a link, the search returns
    the index that the specification describes. *)
Theorem find_exit_newest_in_frame (s : search_t) (frame_idx : Z) (final_ : bool)
    (fs : Z) (e : fsg_hist_entry_t) :
  1 < fsg_history_n_entries (history s) ->
  newest (history s) = Some e ->
  frame_idx <> -1 -> hist_frame e <= frame_idx ->
  (forall i j ei ej, (i <= j)%nat ->
     entries (history s) !! i = Some ei -> entries (history s) !! j = Some ej ->
     hist_frame ei <= hist_frame ej) ->
  (forall i e', entries (history s) !! i = Some e' -> INT_MIN < hist_score e') ->
  (final_ = true ->
   (exists a g, fsg s = Some a /\ fsg_heap s !! a = Some g /\ final_state g = fs)
   /\ forall i e', entries (history s) !! i = Some e' -> hist_frame e' = hist_frame e ->
                   is_Some (fsglink e')) ->
  forall fuel, exists sc,
    fsg_search_find_exit (S fuel) frame_idx final_ s
    = Ok ((find_exit_spec (entries (history s)) fs frame_idx final_, sc), s).
Proof.
  intros Hn He Hm1 Hf Hsort Hsc Hfin fuel.
  unfold find_exit_spec. rewrite (spec_search_frame_newest _ _ _ He Hf). unfold spec_best.
  unfold fsg_search_find_exit, bind, get. cbn beta iota.
  replace (frame_idx =? -1) with false by (symmetry; now apply Z.eqb_neq).
  cbn [find_exit_scan].
  replace (0 <? fsg_history_n_entries (history s) - 1) with true
    by (symmetry; apply Z.ltb_lt; lia).
  fold (newest (history s)). rewrite He.
  replace (hist_frame e <=? frame_idx) with true by (symmetry; now apply Z.leb_le).
  unfold newest, fsg_history_entry_get, fsg_history_n_entries in *.
  set (l := entries (history s)) in *.
  replace (Z.of_nat (length l) - 1 <? 0) with false in He by (symmetry; apply Z.ltb_ge; lia).
  set (k := Z.to_nat (Z.of_nat (length l) - 1)) in *.
  assert (Hk : length l = S k) by lia.
  set (fs_code := match fsg s with Some a => final_state <$> fsg_heap s !! a | None => None end).
  destruct (find_exit_best_refines (history s) fs_code fs final_ (hist_frame e))
    with (k := k) (x := e) (c := (INT_MIN, -1)) (a := (-1, 0))
    as ([bs bh] & Hrun & Hi & Hs); try assumption.
  - intros Hfi. destruct (Hfin Hfi) as ((a & g & Ha & Hg & Hfs) & Hl). split; [|exact Hl].
    unfold fs_code. rewrite Ha, Hg. simpl. now rewrite Hfs.
  - lia.
  - split; reflexivity.
  - replace (k + 1)%nat with (S k) by lia.
    replace (Z.of_nat (length l) - 1) with (Z.of_nat k) by lia.
    cbn [fst snd] in Hrun. rewrite Hrun.
    fold l in Hi. rewrite take_ge in Hi by lia. cbn [fst snd] in Hi.
    rewrite Hk, <- Hi.
    destruct (Z.eqb_spec bh (-1)) as [->|_]; eexists; reflexivity.
Qed.

(** ** Rules for the accessors *)

Lemma wp_get_lextree (Q : fsg_lextree_t -> search_t -> Prop) (s : search_t) :
  (forall lt, lextree s = Some lt -> Q lt s) -> wp get_lextree Q s.
Proof.
  intros H. unfold get_lextree. apply wp_bind, wp_get, wp_deref. exact H.
Qed.

Lemma wp_get_fsg (Q : fsg_model_t -> search_t -> Prop) (s : search_t) :
  (forall a g, fsg s = Some a -> fsg_heap s !! a = Some g -> Q g s) -> wp get_fsg Q s.
Proof.
  intros H. unfold get_fsg. apply wp_bind, wp_get, wp_bind, wp_deref.
  intros a Ha. apply wp_deref. intros g Hg. eapply H; eauto.
Qed.

Lemma wp_get_pnode (pid : pnode_id) (Q : fsg_pnode_t -> search_t -> Prop) (s : search_t) :
  (forall lt p, lextree s = Some lt -> pnodes lt !! pid = Some p -> Q p s) ->
  wp (get_pnode pid) Q s.
Proof.
  intros H. unfold get_pnode. apply wp_bind, wp_get_lextree.
  intros lt Hlt. apply wp_deref. intros p Hp. eapply H; eauto.
Qed.

Lemma wp_put_pnode_hmm (pid : pnode_id) (h : hmm_t) (Q : unit -> search_t -> Prop)
    (s : search_t) :
  (forall lt p, lextree s = Some lt -> pnodes lt !! pid = Some p ->
     Q tt (set_lextree
             (Some (lextree_set_pnodes lt (<[pid := pnode_set_hmm p h]> (pnodes lt)))) s)) ->
  wp (put_pnode_hmm pid h) Q s.
Proof.
  intros H. unfold put_pnode_hmm. apply wp_bind, wp_get_lextree.
  intros lt Hlt. apply wp_bind, wp_deref. intros p Hp. apply wp_modify. eapply H; eauto.
Qed.

Ltac wp_step :=
  lazymatch goal with
  | |- wp (bind _ _) _ _ => apply wp_bind
  | |- wp (ret _) _ _ => apply wp_ret
  | |- wp get _ _ => apply wp_get
  | |- wp (gets _) _ _ => apply wp_gets
  | |- wp (modify _) _ _ => apply wp_modify
  | |- wp (fail _) _ _ => apply wp_fail
  | |- wp (assert _) _ _ => apply wp_assert
  | |- wp get_lextree _ _ => apply wp_get_lextree; intros ? ?
  | |- wp get_fsg _ _ => apply wp_get_fsg; intros ? ? ? ?
  | |- wp (get_pnode _) _ _ => apply wp_get_pnode; intros ? ? ? ?
  | |- wp (put_pnode_hmm _ _) _ _ => apply wp_put_pnode_hmm; intros ? ? ? ?
  | |- wp (deref _) _ _ => apply wp_deref; intros ? ?
  end.

Ltac wp_steps := repeat wp_step.

(** ** The beam controller (fsg_search_hmm_eval) *)

Lemma set_lextree_same (s : search_t) : set_lextree (lextree s) s = s.
Proof. now destruct s. Qed.

(** The loop over the active list counts its elements and writes to the
    HMMs of the lextree only. *)
Lemma hmm_eval_loop_spec (l : list pnode_id) (s : search_t) :
  wp (hmm_eval_loop l)
     (fun r s1 => snd r = Z.of_nat (length l) /\ set_lextree (lextree s1) s = s1) s.
Proof.
  unfold hmm_eval_loop.
  apply (wp_foldM_count
           (fun n (acc : Z * Z) s1 =>
              snd acc = Z.of_nat n /\ set_lextree (lextree s1) s = s1)
           l _ ) with (n := 0%nat).
  - intros n acc pid s1 _ [Hn Hs]. wp_steps. simpl. split; [lia|].
    rewrite <- Hs. reflexivity.
  - split; [reflexivity | apply set_lextree_same].
Qed.

Lemma beam_factor_values_closed :
  Forall (fun f => f32_gt_0_1 f = true -> f32_mul f f32_0_9 ∈ beam_factor_values)
         beam_factor_values.
Proof. compute_done. Qed.

Lemma beam_factor_values_floor :
  Forall (fun f => SFleb beam_factor_min f = true) beam_factor_values.
Proof. compute_done. Qed.

Lemma f32_1_0_in_values : f32_1_0 ∈ beam_factor_values.
Proof. unfold beam_factor_values. cbn [f32_decay]. left. Qed.

Lemma hmm_eval_beams_wp (s : search_t) :
  pnode_active s <> [] ->
  wp fsg_search_hmm_eval
     (fun _ s' => beam_orig s' = beam_orig s /\ pbeam_orig s' = pbeam_orig s
                  /\ wbeam_orig s' = wbeam_orig s /\ beams_adjusted s s') s.
Proof.
  intros Hne. unfold fsg_search_hmm_eval. wp_step. wp_step.
  destruct (pnode_active s) as [|p0 l0] eqn:E; [congruence|].
  wp_step. eapply wp_mono; [apply hmm_eval_loop_spec|].
  intros r s1 [Hn Hs]. cbv beta.
  assert (Hcap : negb (maxhmmpf (base s) =? -1) && (maxhmmpf (base s) <? snd r)
                 = over_cap s).
  { unfold over_cap. now rewrite E, Hn. }
  unfold adjust_beams. wp_steps. simpl.
  rewrite <- Hs. simpl. rewrite Hcap. unfold beams_adjusted.
  destruct (over_cap s); [destruct (f32_gt_0_1 (beam_factor s))|];
    wp_steps; simpl;
    match goal with |- wp (if ?c then _ else _) _ _ => destruct c end;
    wp_steps; simpl; repeat split; reflexivity.
Qed.

(** C2, as the code has it.  In a frame with at least one active HMM whose
    number exceeds the cap, the beam factor is multiplied by 0.9f and each
    live beam becomes (int32)(original * factor) when the factor is above
    0.1 before the multiplication, and nothing changes otherwise; in a
    frame at or below the cap, or with the cap disabled, the factor is
    reset to 1.0 and the beams to their originals.  A frame with no active
    HMM changes nothing.  From 1.0 on the factor stays among the 23 values
    1.0, 0.9, ..., 0.9^22, the last of which (about 0.0985) is below 0.1;
    it is never below that value. *)
Theorem hmm_eval_beams (s s' : search_t) :
  fsg_search_hmm_eval s = Ok (tt, s') ->
  (pnode_active s = [] -> s' = s)
  /\ (pnode_active s <> [] ->
      beam_orig s' = beam_orig s /\ pbeam_orig s' = pbeam_orig s
      /\ wbeam_orig s' = wbeam_orig s
      /\ if over_cap s then
           if f32_gt_0_1 (beam_factor s) then
             beam_factor s' = f32_mul (beam_factor s) f32_0_9
             /\ beam s' = scale_beam (beam_orig s) (beam_factor s')
             /\ pbeam s' = scale_beam (pbeam_orig s) (beam_factor s')
             /\ wbeam s' = scale_beam (wbeam_orig s) (beam_factor s')
           else
             beam_factor s' = beam_factor s
             /\ beam s' = beam s /\ pbeam s' = pbeam s /\ wbeam s' = wbeam s
         else
           beam_factor s' = f32_1_0
           /\ beam s' = beam_orig s /\ pbeam s' = pbeam_orig s
           /\ wbeam s' = wbeam_orig s)
  /\ (beam_factor s ∈ beam_factor_values ->
      beam_factor s' ∈ beam_factor_values
      /\ SFleb beam_factor_min (beam_factor s') = true).
Proof.
  intros Hrun.
  assert (Hne : pnode_active s <> [] ->
                beam_orig s' = beam_orig s /\ pbeam_orig s' = pbeam_orig s
                /\ wbeam_orig s' = wbeam_orig s /\ beams_adjusted s s').
  { intros Hne. exact (wp_ok _ _ _ _ _ (hmm_eval_beams_wp s Hne) Hrun). }
  assert (Hnil : pnode_active s = [] -> s' = s).
  { intros E. unfold fsg_search_hmm_eval, bind, get in Hrun. rewrite E in Hrun.
    now inversion Hrun. }
  split; [exact Hnil|]. split; [exact Hne|].
  intros Hin.
  assert (Hin' : beam_factor s' ∈ beam_factor_values).
  { destruct (pnode_active s) as [|p0 l0] eqn:E.
    - now rewrite (Hnil eq_refl).
    - destruct Hne as (_ & _ & _ & Hadj); [discriminate|].
      unfold beams_adjusted in Hadj.
      destruct (over_cap s); [destruct (f32_gt_0_1 (beam_factor s)) eqn:G|].
      + destruct Hadj as [-> _].
        pose proof beam_factor_values_closed as C.
        rewrite Forall_forall in C. now apply C.
      + destruct Hadj as [-> _]. exact Hin.
      + destruct Hadj as [-> _]. apply f32_1_0_in_values. }
  split; [exact Hin'|].
  pose proof beam_factor_values_floor as F. rewrite Forall_forall in F. now apply F.
Qed.

(** ** Null propagation (fsg_search_null_prop) *)

Lemma add_entries_nil (s : search_t) : add_entries [] s = s.
Proof. unfold add_entries. rewrite app_nil_r. now destruct s as [? ? ? ? ? ? []]. Qed.

Lemma add_entries_app (es1 es2 : list fsg_hist_entry_t) (s : search_t) :
  add_entries es2 (add_entries es1 s) = add_entries (es1 ++ es2) s.
Proof. unfold add_entries. simpl. now rewrite app_assoc. Qed.

Lemma history_entry_add_run (e : fsg_hist_entry_t) (s : search_t) :
  history_entry_add e s = Ok (tt, add_entries [e] s).
Proof. reflexivity. Qed.

(** A loop whose body only appends entries appends what the bodies append,
    in order. *)
Lemma forM_appends {A} (l : list A) (body : A -> FM unit)
    (emit : A -> list fsg_hist_entry_t) (s0 : search_t) :
  (forall x es, x ∈ l ->
     body x (add_entries es s0) = Ok (tt, add_entries (es ++ emit x) s0)) ->
  forall es, forM_ l body (add_entries es s0) = Ok (tt, add_entries (es ++ (l ≫= emit)) s0).
Proof.
  induction l as [|x l IH]; intros Hb es; simpl.
  - now rewrite app_nil_r.
  - unfold bind. rewrite Hb by left. rewrite IH.
    + now rewrite <- app_assoc.
    + intros y es' Hy. apply Hb. now right.
Qed.

Lemma null_prop_run (s : search_t) a g :
  fsg s = Some a -> fsg_heap s !! a = Some g -> 0 <= bpidx_start s ->
  let thresh := add32 (bestscore s) (wbeam s) in
  fsg_search_null_prop s
  = Ok (tt, add_entries
              (range (bpidx_start s) (fsg_history_n_entries (history s)) ≫= fun bpidx =>
                 match entries (history s) !! Z.to_nat bpidx with
                 | Some e => null_emits g thresh bpidx e
                 | None => []
                 end) s).
Proof.
  intros Ha Hg Hstart thresh.
  unfold fsg_search_null_prop. unfold bind at 1, get at 1. fold thresh. cbv beta.
  set (emit := fun bpidx => match entries (history s) !! Z.to_nat bpidx with
                            | Some e => null_emits g thresh bpidx e
                            | None => []
                            end).
  match goal with
  | |- forM_ ?l ?body s = _ =>
      enough (Hb : forall bpidx es, bpidx ∈ l ->
                body bpidx (add_entries es s) = Ok (tt, add_entries (es ++ emit bpidx) s))
  end.
  { pose proof (forM_appends _ _ _ s Hb []) as H.
    rewrite add_entries_nil in H. exact H. }
  intros bpidx es Hin. unfold emit.
  apply elem_of_seqZ in Hin. unfold fsg_history_n_entries in Hin.
  assert (Hlt : (Z.to_nat bpidx < length (entries (history s)))%nat) by lia.
  destruct (lookup_lt_is_Some_2 _ _ Hlt) as [e He]. rewrite He.
  unfold bind at 1, get at 1.
  assert (Hget : fsg_history_entry_get (history (add_entries es s)) bpidx = Some e).
  { unfold fsg_history_entry_get. replace (bpidx <? 0) with false by (symmetry; apply Z.ltb_ge; lia).
    simpl. rewrite lookup_app_l by exact Hlt. exact He. }
  rewrite Hget. unfold deref at 1, bind at 1, ret at 1.
  assert (Hfsg : get_fsg (add_entries es s) = Ok (g, add_entries es s)).
  { apply (get_fsg_ok _ a); simpl; assumption. }
  assert (Hdest : hist_dest_state e (add_entries es s) = Ok (dest_state g e, add_entries es s)).
  { unfold hist_dest_state, dest_state. destruct (fsglink e); [reflexivity|].
    unfold bind. now rewrite Hfsg. }
  unfold bind at 1. rewrite Hdest.
  unfold bind at 1. rewrite Hfsg.
  apply (forM_appends _ _
           (fun d => match fsg_model_null_trans g (dest_state g e) d with
                     | Some l => if thresh <=? add32 (hist_score e) (link_logs2prob l)
                                 then [null_entry bpidx e l] else []
                     | None => []
                     end)).
  intros d es' _.
  destruct (fsg_model_null_trans g (dest_state g e) d) as [l|]; simpl.
  - destruct (thresh <=? add32 (hist_score e) (link_logs2prob l)); simpl.
    + rewrite history_entry_add_run, add_entries_app. reflexivity.
    + now rewrite app_nil_r.
  - now rewrite app_nil_r.
Qed.

(** C4.  Null propagation returns, and what it appends to the history is
    exactly this: for an entry [e] at an index [bpidx] from [bpidx_start]
    on and a state [d] with a null arc [l] from the destination state of
    [e], the entry with the frame, the left and the right context of [e],
    the score [e.score + l.logs2prob] and the predecessor [bpidx], if and
    only if that score is at least [bestscore + wbeam]. *)
Theorem null_prop_entries (s : search_t) a g :
  fsg s = Some a -> fsg_heap s !! a = Some g -> 0 <= bpidx_start s ->
  exists added,
    fsg_search_null_prop s = Ok (tt, add_entries added s)
    /\ forall x, x ∈ added <->
         exists bpidx e d l,
           bpidx_start s <= bpidx < fsg_history_n_entries (history s)
           /\ fsg_history_entry_get (history s) bpidx = Some e
           /\ 0 <= d < n_state g
           /\ fsg_model_null_trans g (dest_state g e) d = Some l
           /\ add32 (bestscore s) (wbeam s) <= add32 (hist_score e) (link_logs2prob l)
           /\ x = {| fsglink := Some l; hist_frame := hist_frame e;
                     hist_score := add32 (hist_score e) (link_logs2prob l);
                     hist_pred := bpidx; hist_lc := hist_lc e; hist_rc := hist_rc e |}.
Proof.
  intros Ha Hg Hstart. eexists. split; [apply (null_prop_run s a g Ha Hg Hstart)|].
  intros x. rewrite list_elem_of_bind. split.
  - intros (bpidx & Hx & Hin). apply elem_of_seqZ in Hin.
    destruct (entries (history s) !! Z.to_nat bpidx) as [e|] eqn:He;
      [|now apply elem_of_nil in Hx].
    unfold null_emits in Hx. apply list_elem_of_bind in Hx as (d & Hx & Hd).
    apply elem_of_seqZ in Hd.
    destruct (fsg_model_null_trans g (dest_state g e) d) as [l|] eqn:Hl;
      [|now apply elem_of_nil in Hx].
    destruct (add32 (bestscore s) (wbeam s) <=? add32 (hist_score e) (link_logs2prob l))
      eqn:Hth; [|now apply elem_of_nil in Hx].
    apply list_elem_of_singleton in Hx. apply Z.leb_le in Hth.
    exists bpidx, e, d, l. repeat split; try lia; try assumption.
    unfold fsg_history_entry_get.
    replace (bpidx <? 0) with false by (symmetry; apply Z.ltb_ge; lia). exact He.
  - intros (bpidx & e & d & l & Hb & He & Hd & Hl & Hth & ->).
    exists bpidx. split; [|apply elem_of_seqZ; lia].
    unfold fsg_history_entry_get in He.
    replace (bpidx <? 0) with false in He by (symmetry; apply Z.ltb_ge; lia).
    rewrite He. unfold null_emits. apply list_elem_of_bind.
    exists d. split; [|apply elem_of_seqZ; lia].
    rewrite Hl. apply Z.leb_le in Hth. rewrite Hth. now left.
Qed.

(** ** Context bit vectors *)

Lemma land_pow2_testbit (w k : Z) :
  0 <= k -> (Z.land w (2 ^ k) =? 0) = negb (Z.testbit w k).
Proof.
  intros Hk. destruct (Z.testbit w k) eqn:Hb; simpl.
  - apply Z.eqb_neq. intros E.
    assert (H : Z.testbit (Z.land w (2 ^ k)) k = true).
    { rewrite Z.land_spec, Hb, Z.pow2_bits_true by lia. reflexivity. }
    rewrite E, Z.bits_0 in H. discriminate.
  - apply Z.eqb_eq. apply Z.bits_inj'. intros n Hn.
    rewrite Z.land_spec, Z.bits_0, Z.pow2_bits_eqb by lia.
    destruct (Z.eqb_spec k n) as [->|]; [now rewrite Hb | apply andb_false_r].
Qed.

(** The C test on the words of the vector is membership in the set. *)
Lemma ctxt_test_contains (c : fsg_pnode_ctxt_t) (i : Z) :
  ctxt_test c i = Some true <-> ctxt_contains c i.
Proof.
  unfold ctxt_test, ctxt_contains.
  rewrite Z.shiftr_div_pow2 by lia. change (2 ^ 5) with 32.
  change 31 with (Z.ones 5). rewrite Z.land_ones by lia. change (2 ^ 5) with 32.
  pose proof (Z.mod_pos_bound i 32 ltac:(lia)) as Hm.
  rewrite Z.shiftl_1_l.
  destruct (Z.ltb_spec (i / 32) 0) as [Hneg|Hpos].
  - split; [discriminate|]. intros [Hi _].
    pose proof (Z.div_pos i 32 Hi ltac:(lia)). lia.
  - assert (0 <= i).
    { destruct (Z_lt_le_dec i 0) as [Hi|Hi]; [|exact Hi].
      pose proof (Z.div_lt_upper_bound i 32 0 ltac:(lia) ltac:(lia)). lia. }
    destruct (bv c !! Z.to_nat (i / 32)) as [w|].
    + rewrite land_pow2_testbit by lia. rewrite negb_involutive. split.
      * intros [= Hw]. split; [assumption|]. exists w. auto.
      * intros (_ & w' & [= <-] & Hw). now rewrite Hw.
    + split; [discriminate|]. intros (_ & w & Hw & _). discriminate.
Qed.

Lemma all_ctxt_contains (i : Z) :
  0 <= i < 32 * Z.of_nat FSG_PNODE_CTXT_BVSZ -> ctxt_contains fsg_pnode_add_all_ctxt i.
Proof.
  intros Hi. split; [lia|]. exists 4294967295. split.
  - change (bv fsg_pnode_add_all_ctxt) with (replicate FSG_PNODE_CTXT_BVSZ 4294967295).
    apply lookup_replicate_2.
    assert (i / 32 < Z.of_nat FSG_PNODE_CTXT_BVSZ) by (apply Z.div_lt_upper_bound; lia).
    assert (0 <= i / 32) by (apply Z.div_pos; lia). lia.
  - change 4294967295 with (Z.ones 32). apply Z.ones_spec_low.
    pose proof (Z.mod_pos_bound i 32 ltac:(lia)). lia.
Qed.

(** ** Cross-word transitions (fsg_search_word_trans) *)

Lemma wp_push_active_next (pid : pnode_id) (Q : unit -> search_t -> Prop) (s : search_t) :
  Q tt (set_pnode_active_next (pid :: pnode_active_next s) s) ->
  wp (push_active_next pid) Q s.
Proof. intros H. unfold push_active_next. now apply wp_modify. Qed.

Lemma wp_history_entry_add (e : fsg_hist_entry_t) (Q : unit -> search_t -> Prop)
    (s : search_t) :
  Q tt (set_history (fsg_history_entry_add (history s) e) s) ->
  wp (history_entry_add e) Q s.
Proof. intros H. unfold history_entry_add. now apply wp_modify. Qed.

Lemma wp_pnode_hmm_enter (pid : pnode_id) (score histid frm : Z)
    (Q : unit -> search_t -> Prop) (s : search_t) :
  (forall lt p, lextree s = Some lt -> pnodes lt !! pid = Some p ->
     Q tt (set_lextree
             (Some (lextree_set_pnodes lt
                      (<[pid := pnode_set_hmm p (hmm_enter (hmm p) score histid frm)]>
                         (pnodes lt))))
             (set_enter_log
                (enter_log s ++ [{| ec_pnode := pid; ec_before := hmm p; ec_score := score;
                                    ec_history := histid; ec_frame := frm |}]) s))) ->
  wp (pnode_hmm_enter pid score histid frm) Q s.
Proof.
  intros H. unfold pnode_hmm_enter.
  apply wp_bind, wp_get_pnode. intros lt p Hlt Hp.
  apply wp_bind, wp_modify, wp_put_pnode_hmm. intros lt' p' Hlt' Hp'.
  simpl in Hlt'. rewrite Hlt in Hlt'. injection Hlt' as <-.
  rewrite Hp in Hp'. injection Hp' as <-. now apply H.
Qed.

Lemma wp_hist_dest_state (e : fsg_hist_entry_t) (Q : Z -> search_t -> Prop) (s : search_t) :
  (forall d, is_dest s e d -> Q d s) -> wp (hist_dest_state e) Q s.
Proof.
  intros H. unfold hist_dest_state, is_dest in *. destruct (fsglink e) as [l|].
  - wp_steps. now apply H.
  - wp_steps. apply H. eauto.
Qed.

Ltac wp_run :=
  repeat first
    [ wp_step
    | lazymatch goal with
      | |- wp (push_active_next _) _ _ => apply wp_push_active_next
      | |- wp (history_entry_add _) _ _ => apply wp_history_entry_add
      | |- wp (pnode_hmm_enter _ _ _ _) _ _ => apply wp_pnode_hmm_enter; intros ? ? ? ?
      | |- wp (hist_dest_state _) _ _ => apply wp_hist_dest_state; intros ? ?
      end ].

Lemma pnode_set_hmm_same (p : fsg_pnode_t) : pnode_set_hmm p (hmm p) = p.
Proof. now destruct p. Qed.

Lemma lextree_static_eq_refl (o : option fsg_lextree_t) : lextree_static_eq o o.
Proof.
  destruct o as [lt|]; simpl; [|exact I]. split; [reflexivity|].
  apply Forall2_same_length_lookup_2; [reflexivity|].
  intros i p p' H H'. rewrite H in H'. injection H' as <-. apply pnode_set_hmm_same.
Qed.

Lemma lextree_static_eq_put (o0 : option fsg_lextree_t) lt1 pid p h :
  lextree_static_eq o0 (Some lt1) -> pnodes lt1 !! pid = Some p ->
  lextree_static_eq o0
    (Some (lextree_set_pnodes lt1 (<[pid := pnode_set_hmm p h]> (pnodes lt1)))).
Proof.
  destruct o0 as [lt0|]; simpl; [|tauto]. intros [Hr HF] Hp. split; [exact Hr|].
  destruct (Forall2_lookup_r _ _ _ _ _ HF Hp) as (p0 & Hp0 & Hpp).
  rewrite <- (list_insert_id (pnodes lt0) pid p0 Hp0).
  apply Forall2_insert; [exact HF|].
  rewrite <- Hpp. now destruct p.
Qed.

Lemma lextree_static_eq_lookup lt0 lt1 i p1 :
  lextree_static_eq (Some lt0) (Some lt1) -> pnodes lt1 !! i = Some p1 ->
  exists p0, pnodes lt0 !! i = Some p0
             /\ ctxt p0 = ctxt p1 /\ ci_ext p0 = ci_ext p1 /\ logs2prob p0 = logs2prob p1.
Proof.
  simpl. intros [_ HF] Hp.
  destruct (Forall2_lookup_r _ _ _ _ _ HF Hp) as (p0 & Hp0 & Hpp).
  exists p0. split; [exact Hp0|]. rewrite <- Hpp. auto.
Qed.

Lemma word_trans_inv_refl (s : search_t) : word_trans_inv s s.
Proof.
  unfold word_trans_inv. repeat split; try reflexivity.
  - apply lextree_static_eq_refl.
  - exists []. split; [now rewrite app_nil_r | constructor].
Qed.

Lemma word_trans_root_inv (s : search_t) (bpidx : Z) (e : fsg_hist_entry_t) (d : Z)
    (rid : pnode_id) (s1 : search_t) lt0 :
  bpidx_start s <= bpidx < fsg_history_n_entries (history s) ->
  fsg_history_entry_get (history s) bpidx = Some e ->
  is_dest s e d ->
  lextree s = Some lt0 -> rid ∈ fsg_lextree_root lt0 d ->
  word_trans_inv s s1 ->
  wp (word_trans_root bpidx e (add32 (bestscore s) (beam s)) (add32 (frame s) 1) rid)
     (fun _ => word_trans_inv s) s1.
Proof.
  intros Hb He Hd Hlt0 Hrid Hinv.
  assert (G : forall (p : fsg_pnode_t) (s2 : search_t),
            (forall lt2, lextree s2 = Some lt2 -> pnodes lt2 !! rid = Some p) ->
            ctxt_test (ctxt p) (hist_lc e) = Some true ->
            ctxt_test (hist_rc e) (ci_ext p) = Some true ->
            add32 (bestscore s) (beam s) <= add32 (hist_score e) (logs2prob p) ->
            hmm_in_score (hmm p) < add32 (hist_score e) (logs2prob p) ->
            word_trans_inv s s2 ->
            wp (pnode_hmm_enter rid (add32 (hist_score e) (logs2prob p)) bpidx
                  (add32 (frame s) 1)) (fun _ => word_trans_inv s) s2).
  { intros p s2 Hp2 Ht1 Ht2 Hth Hin
           (Hh & Hf & Hbs & Hbm & Hst & Hfsg & Hheap & Hstat & calls & Hlog & Hadm).
    wp_run. rename H into Hlt2, H0 into Hroot.
    pose proof (Hp2 _ Hlt2) as Hp. rewrite Hroot in Hp. injection Hp as ->.
    unfold word_trans_inv. simpl. split_and!; try assumption.
    - rewrite Hlt2 in Hstat. now apply lextree_static_eq_put.
    - exists (calls ++ [{| ec_pnode := rid; ec_before := hmm p;
                           ec_score := add32 (hist_score e) (logs2prob p);
                           ec_history := bpidx; ec_frame := add32 (frame s) 1 |}]).
      split; [rewrite Hlog; now rewrite app_assoc|].
      apply Forall_app. split; [exact Hadm|]. apply Forall_singleton.
      rewrite Hlt2, Hlt0 in Hstat.
      destruct (lextree_static_eq_lookup _ _ _ _ Hstat Hroot) as (p0 & Hp0 & Hc & Hci & Hl).
      exists e, lt0, p0, d. simpl.
      split_and!; try lia; try assumption.
      + rewrite Hc. now apply ctxt_test_contains.
      + rewrite Hci. now apply ctxt_test_contains.
      + now rewrite Hl. }
  unfold word_trans_root. wp_run.
  rename H into Hlt, H0 into Hroot, H1 into Ht1.
  destruct a; [|wp_run; exact Hinv].
  wp_run. rename H into Ht2.
  destruct a; simpl; [|wp_run; exact Hinv].
  unfold try_enter.
  destruct (add32 (bestscore s) (beam s) <=? add32 (hist_score e) (logs2prob p)) eqn:Hth;
    simpl; [|wp_run; exact Hinv].
  destruct (hmm_in_score (hmm p) <? add32 (hist_score e) (logs2prob p)) eqn:Hin;
    simpl; [|wp_run; exact Hinv].
  apply Z.leb_le in Hth. apply Z.ltb_lt in Hin.
  wp_step. apply wp_when; intros _.
  - apply wp_push_active_next. apply G; try assumption.
    simpl. intros lt2 Hlt2. rewrite Hlt in Hlt2. now injection Hlt2 as <-.
  - apply G; try assumption.
    intros lt2 Hlt2. rewrite Hlt in Hlt2. now injection Hlt2 as <-.
Qed.

Lemma word_trans_wp (s : search_t) :
  wp fsg_search_word_trans (fun _ => word_trans_inv s) s.
Proof.
  unfold fsg_search_word_trans. wp_step. wp_step. cbv zeta.
  apply (wp_forM_ (word_trans_inv s)); [|apply word_trans_inv_refl].
  intros bpidx s1 Hin Hinv. apply elem_of_seqZ in Hin.
  pose proof Hinv as (Hh & Hf & Hbs & Hbm & Hst & Hfsg & Hheap & Hstat & _).
  do 5 wp_step. apply wp_deref. intros e He.
  do 3 wp_step. apply wp_hist_dest_state. intros d Hd.
  wp_step. apply wp_get_lextree. intros lt1 Hlt1.
  rewrite Hh in He.
  assert (Hd' : is_dest s e d).
  { unfold is_dest in *. destruct (fsglink e); [exact Hd|].
    now rewrite Hfsg, Hheap in Hd. }
  rewrite Hlt1 in Hstat. destruct (lextree s) as [lt0|] eqn:Hlt0; [|contradiction].
  apply (wp_forM_ (word_trans_inv s)); [|exact Hinv].
  intros rid s2 Hrid Hinv2.
  apply (word_trans_root_inv s bpidx e d rid s2 lt0); try assumption.
  - lia.
  - destruct Hstat as [<- _]. exact Hrid.
Qed.

(** C3.  Every call of hmm_enter that fsg_search_word_trans makes enters a
    root of the destination state of a history entry [e] of this frame
    such that the root's context vector contains [e.lc] and [e.rc] contains
    the root's [ci_ext]; the score entered is [e.score + root.logs2prob],
    it is at least [bestscore + beam], and it is strictly greater than the
    in_score the root's HMM had when the call was made. *)
Theorem word_trans_admissible (s s' : search_t) :
  fsg_search_word_trans s = Ok (tt, s') ->
  exists calls,
    enter_log s' = enter_log s ++ calls
    /\ Forall (fun c =>
         exists e lt root d,
           bpidx_start s <= ec_history c < fsg_history_n_entries (history s)
           /\ fsg_history_entry_get (history s) (ec_history c) = Some e
           /\ is_dest s e d
           /\ lextree s = Some lt
           /\ ec_pnode c ∈ fsg_lextree_root lt d
           /\ pnodes lt !! ec_pnode c = Some root
           /\ ctxt_contains (ctxt root) (hist_lc e)
           /\ ctxt_contains (hist_rc e) (ci_ext root)
           /\ ec_score c = add32 (hist_score e) (logs2prob root)
           /\ add32 (bestscore s) (beam s) <= ec_score c
           /\ hmm_in_score (ec_before c) < ec_score c
           /\ ec_frame c = add32 (frame s) 1) calls.
Proof.
  intros Hrun.
  pose proof (wp_ok _ _ _ _ _ (word_trans_wp s) Hrun) as Hinv.
  destruct Hinv as (_ & _ & _ & _ & _ & _ & _ & _ & calls & Hlog & Hadm).
  exists calls. split; [exact Hlog | exact Hadm].
Qed.

(** ** The frame loop (fsg_search_step) *)

Lemma at_frame_insert_eq (ps : list fsg_pnode_t) pid p h F :
  ps !! pid = Some p ->
  at_frame (<[pid := pnode_set_hmm p h]> ps) F pid <-> hmm_frame h = F.
Proof.
  intros Hp. unfold at_frame.
  rewrite list_lookup_insert_eq by (eapply lookup_lt_Some; eauto). split.
  - intros (p' & [= <-] & Hf). exact Hf.
  - intros Hf. eexists. split; [reflexivity | exact Hf].
Qed.

Lemma at_frame_insert_ne (ps : list fsg_pnode_t) pid p' F i :
  i <> pid -> at_frame (<[pid := p']> ps) F i <-> at_frame ps F i.
Proof. intros Hne. unfold at_frame. now rewrite list_lookup_insert_ne by congruence. Qed.

Lemma lookup_insert_pnode (ps : list fsg_pnode_t) pid p h i q :
  ps !! pid = Some p ->
  <[pid := pnode_set_hmm p h]> ps !! i = Some q ->
  (i = pid /\ q = pnode_set_hmm p h) \/ (i <> pid /\ ps !! i = Some q).
Proof.
  intros Hp Hq. destruct (decide (i = pid)) as [->|Hne].
  - rewrite list_lookup_insert_eq in Hq by (eapply lookup_lt_Some; eauto).
    left. split; congruence.
  - rewrite list_lookup_insert_ne in Hq by congruence. now right.
Qed.

(** Entering node [pid] for frame [F + 1], and putting it on the next-frame
    list when it was not yet at [F + 1], keeps the invariant. *)
Lemma frames_inv_enter (F : Z) (A N : list pnode_id) (ps : list fsg_pnode_t) pid p h :
  frames_inv F A N ps -> ps !! pid = Some p -> hmm_frame h = F + 1 ->
  frames_inv F A (if hmm_frame (hmm p) <? F + 1 then pid :: N else N)
             (<[pid := pnode_set_hmm p h]> ps).
Proof.
  intros (J1 & J2 & J4 & J5) Hp Hh. split_and!.
  - intros i q Hq. destruct (lookup_insert_pnode _ _ _ _ _ _ Hp Hq) as [[-> ->]|[_ Hq']].
    + simpl. lia.
    + eauto.
  - intros i. destruct (decide (i = pid)) as [->|Hne].
    + rewrite at_frame_insert_eq by exact Hp.
      destruct (Z.ltb_spec (hmm_frame (hmm p)) (F + 1)).
      * split; [auto | intros _; left].
      * split; [auto|]. intros _. apply J2. exists p. split; [exact Hp|].
        pose proof (J1 _ _ Hp). lia.
    + rewrite at_frame_insert_ne by exact Hne. rewrite <- J2.
      destruct (hmm_frame (hmm p) <? F + 1); [|reflexivity].
      rewrite elem_of_cons. tauto.
  - intros i Hi. destruct (decide (i = pid)) as [->|Hne].
    + right. now apply at_frame_insert_eq.
    + rewrite !at_frame_insert_ne by exact Hne. auto.
  - intros i q Hq Hf. destruct (lookup_insert_pnode _ _ _ _ _ _ Hp Hq) as [[-> ->]|[_ Hq']].
    + simpl in Hf. lia.
    + eauto.
Qed.

(** A write to an HMM that keeps its frame keeps the invariant. *)
Lemma frames_inv_same_frame (F : Z) (A N : list pnode_id) (ps : list fsg_pnode_t) pid p h :
  frames_inv F A N ps -> ps !! pid = Some p -> hmm_frame h = hmm_frame (hmm p) ->
  frames_inv F A N (<[pid := pnode_set_hmm p h]> ps).
Proof.
  intros (J1 & J2 & J4 & J5) Hp Hh.
  assert (E : forall G i, at_frame (<[pid := pnode_set_hmm p h]> ps) G i <-> at_frame ps G i).
  { intros G i. destruct (decide (i = pid)) as [->|Hne].
    - rewrite at_frame_insert_eq by exact Hp. rewrite Hh. unfold at_frame. split.
      + intros Hf. eauto.
      + intros (p' & Hp' & Hf). congruence.
    - now apply at_frame_insert_ne. }
  split_and!.
  - intros i q Hq. destruct (lookup_insert_pnode _ _ _ _ _ _ Hp Hq) as [[-> ->]|[_ Hq']].
    + simpl. rewrite Hh. eauto.
    + eauto.
  - intros i. now rewrite E.
  - intros i Hi. rewrite !E. auto.
  - intros i q Hq Hf. destruct (lookup_insert_pnode _ _ _ _ _ _ Hp Hq) as [[-> ->]|[_ Hq']].
    + simpl in Hf. rewrite Hh in Hf. eauto.
    + eauto.
Qed.

Lemma step_inv_put_same (F : Z) (act A : list pnode_id) (s : search_t) lt pid p h :
  step_inv F act A s -> lextree s = Some lt -> pnodes lt !! pid = Some p ->
  hmm_frame h = hmm_frame (hmm p) ->
  step_inv F act A
    (set_lextree (Some (lextree_set_pnodes lt (<[pid := pnode_set_hmm p h]> (pnodes lt)))) s).
Proof.
  unfold step_inv, all_pnodes. intros (Hf & Ha & Hinv) Hlt Hp Hh. rewrite Hlt in Hinv.
  simpl. split_and!; try assumption. now apply frames_inv_same_frame.
Qed.

Lemma step_inv_enter (F : Z) (act A : list pnode_id) (s : search_t) lt pid p h log :
  step_inv F act A s -> lextree s = Some lt -> pnodes lt !! pid = Some p ->
  hmm_frame h = F + 1 ->
  step_inv F act A
    (set_lextree (Some (lextree_set_pnodes lt (<[pid := pnode_set_hmm p h]> (pnodes lt))))
       (set_enter_log log
          (set_pnode_active_next
             (if hmm_frame (hmm p) <? F + 1 then pid :: pnode_active_next s
              else pnode_active_next s) s))).
Proof.
  unfold step_inv, all_pnodes. intros (Hf & Ha & Hinv) Hlt Hp Hh. rewrite Hlt in Hinv.
  simpl. split_and!; try assumption. now apply frames_inv_enter.
Qed.

Lemma try_enter_keeps (F : Z) (act A : list pnode_id) target t newscore thresh histid
    (s1 : search_t) lt :
  step_inv F act A s1 -> lextree s1 = Some lt -> pnodes lt !! target = Some t ->
  wp (try_enter target t newscore thresh histid (F + 1)) (fun _ => step_inv F act A) s1.
Proof.
  intros Hinv Hlt Ht. unfold try_enter.
  destruct ((thresh <=? newscore) && (hmm_in_score (hmm t) <? newscore));
    [|now apply wp_ret].
  pose proof (step_inv_enter F act A s1 lt target t (hmm_enter (hmm t) newscore histid (F + 1))
                (enter_log s1 ++ [{| ec_pnode := target; ec_before := hmm t;
                                     ec_score := newscore; ec_history := histid;
                                     ec_frame := F + 1 |}])
                Hinv Hlt Ht eq_refl) as G.
  wp_step. destruct (hmm_frame (hmm t) <? F + 1); simpl.
  - apply wp_push_active_next. apply wp_pnode_hmm_enter. intros lt' p' Hlt' Hp'.
    simpl in Hlt'. rewrite Hlt in Hlt'. injection Hlt' as <-.
    rewrite Ht in Hp'. injection Hp' as <-. exact G.
  - wp_step. apply wp_pnode_hmm_enter. intros lt' p' Hlt' Hp'.
    rewrite Hlt in Hlt'. injection Hlt' as <-.
    rewrite Ht in Hp'. injection Hp' as <-.
    assert (E : set_pnode_active_next (pnode_active_next s1) s1 = s1) by now destruct s1.
    rewrite E in G. exact G.
Qed.

Lemma pnode_trans_keeps (F : Z) (act A : list pnode_id) pid (s1 : search_t) :
  add32 F 1 = F + 1 -> step_inv F act A s1 ->
  wp (fsg_search_pnode_trans pid) (fun _ => step_inv F act A) s1.
Proof.
  intros Hnf Hinv. unfold fsg_search_pnode_trans.
  do 2 wp_step. do 4 wp_step. cbv zeta.
  replace (frame s1) with F by (symmetry; apply Hinv). rewrite Hnf.
  apply (wp_forM_ (step_inv F act A)); [|exact Hinv].
  intros child s2 _ Hinv2.
  wp_step. apply wp_get_pnode. intros lt2 p2 Hlt2 Hp2.
  wp_step. apply wp_get_pnode. intros lt2' c Hlt2' Hc.
  rewrite Hlt2 in Hlt2'. injection Hlt2' as <-.
  now apply (try_enter_keeps F act A child c _ _ _ s2 lt2).
Qed.

Lemma pnode_exit_keeps (F : Z) (act A : list pnode_id) pid (s1 : search_t) :
  step_inv F act A s1 ->
  wp (fsg_search_pnode_exit pid) (fun _ => step_inv F act A) s1.
Proof.
  intros Hinv. unfold fsg_search_pnode_exit. wp_run.
  match goal with |- wp (if ?c then _ else _) _ _ => destruct c end;
    wp_run; exact Hinv.
Qed.

Lemma prune_prop_keeps (F : Z) (act A : list pnode_id) (s1 : search_t) :
  add32 F 1 = F + 1 -> step_inv F act A s1 ->
  wp fsg_search_hmm_prune_prop (fun _ => step_inv F act A) s1.
Proof.
  intros Hnf Hinv. unfold fsg_search_hmm_prune_prop. do 4 wp_step. cbv zeta.
  apply (wp_forM_ (step_inv F act A)); [|exact Hinv].
  intros pid s2 _ Hinv2.
  wp_step. apply wp_get_pnode. intros lt2 p Hlt2 Hp.
  destruct (add32 (bestscore s1) (beam s1) <=? hmm_bestscore (hmm p)); [|now apply wp_ret].
  do 3 wp_step.
  assert (Hf2 : frame s2 = F) by apply Hinv2.
  eapply wp_mono with (Q := fun _ => step_inv F act A).
  - rewrite Hf2, Hnf. destruct (Z.eqb_spec (hmm_frame (hmm p)) F) as [Hpf|Hpf].
    + wp_step. apply wp_put_pnode_hmm. intros lt2' p' Hlt2' Hp'.
      rewrite Hlt2 in Hlt2'. injection Hlt2' as <-.
      rewrite Hp in Hp'. injection Hp' as <-.
      apply wp_push_active_next.
      pose proof (step_inv_enter F act A s2 lt2 pid p (hmm_set_frame (hmm p) (F + 1))
                    (enter_log s2) Hinv2 Hlt2 Hp eq_refl) as G.
      replace (hmm_frame (hmm p) <? F + 1) with true in G
        by (symmetry; apply Z.ltb_lt; lia).
      exact G.
    + wp_step. exact Hinv2.
  - intros _ s3 Hinv3. cbv beta.
    destruct (negb (leaf p)).
    + apply wp_when; intros _; [now apply pnode_trans_keeps | exact Hinv3].
    + apply wp_when; intros _; [now apply pnode_exit_keeps | exact Hinv3].
Qed.

Lemma null_prop_keeps (F : Z) (act A : list pnode_id) (s1 : search_t) :
  step_inv F act A s1 -> wp fsg_search_null_prop (fun _ => step_inv F act A) s1.
Proof.
  intros Hinv. unfold fsg_search_null_prop. do 2 wp_step. cbv zeta.
  apply (wp_forM_ (step_inv F act A)); [|exact Hinv].
  intros bpidx s2 _ Hinv2. wp_run.
  apply (wp_forM_ (step_inv F act A)); [|exact Hinv2].
  intros dst s3 _ Hinv3.
  destruct (fsg_model_null_trans _ _ _); [|now apply wp_ret].
  apply wp_when; intros _; [|exact Hinv3]. wp_run. exact Hinv3.
Qed.

Lemma word_trans_keeps (F : Z) (act A : list pnode_id) (s1 : search_t) :
  add32 F 1 = F + 1 -> step_inv F act A s1 ->
  wp fsg_search_word_trans (fun _ => step_inv F act A) s1.
Proof.
  intros Hnf Hinv. unfold fsg_search_word_trans. do 2 wp_step. cbv zeta.
  replace (frame s1) with F by (symmetry; apply Hinv). rewrite Hnf.
  apply (wp_forM_ (step_inv F act A)); [|exact Hinv].
  intros bpidx s2 _ Hinv2. wp_run.
  apply (wp_forM_ (step_inv F act A)); [|exact Hinv2].
  intros rid s3 _ Hinv3. unfold word_trans_root.
  wp_step. apply wp_get_pnode. intros lt3 root Hlt3 Hroot.
  wp_step. apply wp_deref. intros t1 _.
  wp_step. eapply wp_mono with (Q := fun _ s => s = s3).
  - destruct t1; [apply wp_deref; intros; reflexivity | now apply wp_ret].
  - intros t2 s4 ->. destruct (t1 && t2); [|now apply wp_ret].
    now apply (try_enter_keeps F act A rid root _ _ _ s3 lt3).
Qed.

Lemma sen_active_keeps (F : Z) (act A : list pnode_id) (s1 : search_t) :
  step_inv F act A s1 -> wp fsg_search_sen_active (fun _ => step_inv F act A) s1.
Proof.
  intros Hinv. unfold fsg_search_sen_active. do 4 wp_step.
  apply (wp_forM_ (step_inv F act A)); [|exact Hinv].
  intros pid s2 _ Hinv2. wp_run. exact Hinv2.
Qed.

Lemma hmm_eval_keeps (F : Z) (act A : list pnode_id) (s1 : search_t) :
  (forall c h, hmm_frame (snd (hmm_vit_eval c h)) = hmm_frame h) ->
  step_inv F act A s1 -> wp fsg_search_hmm_eval (fun _ => step_inv F act A) s1.
Proof.
  intros Hvit Hinv. unfold fsg_search_hmm_eval. do 2 wp_step.
  destruct (pnode_active s1) as [|p0 l0]; [exact Hinv|].
  wp_step. eapply wp_mono with (Q := fun _ => step_inv F act A).
  - unfold hmm_eval_loop.
    apply (wp_foldM (fun _ => step_inv F act A)); [|exact Hinv].
    intros acc pid s2 _ Hinv2.
    wp_step. apply wp_get_pnode. intros lt p Hlt Hp.
    do 5 wp_step. apply wp_put_pnode_hmm. intros lt' p' Hlt' Hp'.
    rewrite Hlt in Hlt'. injection Hlt' as <-. rewrite Hp in Hp'. injection Hp' as <-.
    wp_step. apply step_inv_put_same; auto.
  - intros r s2 Hinv2. cbv beta. do 3 wp_step.
    eapply wp_mono with (Q := fun _ => step_inv F act A).
    + unfold adjust_beams. do 2 wp_step.
      destruct (negb (maxhmmpf (base _) =? -1) && _);
        [destruct (f32_gt_0_1 _)|]; wp_run; exact Hinv2.
    + intros _ s3 Hinv3. cbv beta. wp_run.
      match goal with |- wp (if ?c then _ else _) _ _ => destruct c end;
        wp_run. exact Hinv3.
Qed.

(** The loop that deactivates the nodes of the active list that stayed at
    frame [F]. *)
Lemma deactivate_stale_spec (F : Z) (A N : list pnode_id) (s1 : search_t) :
  -1 <= F -> step_inv F A A s1 -> pnode_active_next s1 = N ->
  wp (deactivate_stale A)
     (fun _ s2 =>
        frame s2 = F /\ pnode_active s2 = A /\ pnode_active_next s2 = N
        /\ (forall i p, all_pnodes s2 !! i = Some p -> hmm_frame (hmm p) <= F + 1)
        /\ (forall i, i ∈ N <-> at_frame (all_pnodes s2) (F + 1) i)
        /\ (forall i p, all_pnodes s2 !! i = Some p -> hmm_frame (hmm p) = F -> i ∈ A)
        /\ (forall i, i ∈ A -> exists p, all_pnodes s2 !! i = Some p
                                       /\ (hmm_frame (hmm p) = F + 1 \/ hmm_cleared (hmm p))))
     s1.
Proof.
  intros HF (Hf & Ha & J1 & J2 & J4 & J5) HN.
  set (I := fun (done : list pnode_id) (s2 : search_t) =>
        frame s2 = F /\ pnode_active s2 = A /\ pnode_active_next s2 = N
        /\ (forall i p, all_pnodes s2 !! i = Some p -> hmm_frame (hmm p) <= F + 1)
        /\ (forall i, i ∈ N <-> at_frame (all_pnodes s2) (F + 1) i)
        /\ (forall i p, all_pnodes s2 !! i = Some p -> hmm_frame (hmm p) = F -> i ∈ A)
        /\ (forall i, i ∈ A ->
              exists p, all_pnodes s2 !! i = Some p
                        /\ (hmm_frame (hmm p) = F \/ hmm_frame (hmm p) = F + 1
                            \/ hmm_cleared (hmm p)))
        /\ (forall i, i ∈ done ->
              exists p, all_pnodes s2 !! i = Some p
                        /\ (hmm_frame (hmm p) = F + 1 \/ hmm_cleared (hmm p)))).
  eapply wp_mono.
  - unfold deactivate_stale. apply (wp_forM_split I).
    + intros done x rest s2 EA (Hf2 & Ha2 & HN2 & K1 & K2 & K5 & K4 & Kd).
      assert (HxA : x ∈ A) by (rewrite EA; apply elem_of_app; right; left).
      wp_step. apply wp_get_pnode. intros lt p Hlt Hp.
      do 2 wp_step. rewrite Hf2.
      assert (Hps : all_pnodes s2 = pnodes lt) by (unfold all_pnodes; now rewrite Hlt).
      destruct (Z.eqb_spec (hmm_frame (hmm p)) F) as [Hpf|Hpf].
      * unfold fsg_psubtree_pnode_deactivate.
        wp_step. apply wp_get_pnode. intros lt' p' Hlt' Hp'.
        rewrite Hlt in Hlt'. injection Hlt' as <-. rewrite Hp in Hp'. injection Hp' as <-.
        apply wp_put_pnode_hmm. intros lt' p' Hlt' Hp'.
        rewrite Hlt in Hlt'. injection Hlt' as <-. rewrite Hp in Hp'. injection Hp' as <-.
        unfold I, all_pnodes. simpl. rewrite Hps in *.
        split_and!; try assumption.
        -- intros i q Hq.
           destruct (lookup_insert_pnode _ _ _ _ _ _ Hp Hq) as [[-> ->]|[_ Hq']];
             [simpl; lia | eauto].
        -- intros i. destruct (decide (i = x)) as [->|Hne].
           ++ rewrite at_frame_insert_eq by exact Hp. rewrite K2. unfold at_frame. simpl.
              split; [|lia]. intros (q & Hq & Hqf). rewrite Hp in Hq. injection Hq as <-. lia.
           ++ rewrite at_frame_insert_ne by exact Hne. apply K2.
        -- intros i q Hq Hqf.
           destruct (lookup_insert_pnode _ _ _ _ _ _ Hp Hq) as [[-> ->]|[_ Hq']];
             [exact HxA | eauto].
        -- intros i Hi. destruct (decide (i = x)) as [->|Hne].
           ++ rewrite list_lookup_insert_eq by (eapply lookup_lt_Some; eauto).
              eexists. split; [reflexivity|]. right. right. simpl. now exists (hmm p).
           ++ rewrite list_lookup_insert_ne by congruence. auto.
        -- intros i Hi. destruct (decide (i = x)) as [->|Hne].
           ++ rewrite list_lookup_insert_eq by (eapply lookup_lt_Some; eauto).
              eexists. split; [reflexivity|]. right. simpl. now exists (hmm p).
           ++ rewrite list_lookup_insert_ne by congruence. apply Kd.
              apply elem_of_app in Hi as [Hi|Hi]; [exact Hi|].
              apply list_elem_of_singleton in Hi. contradiction.
      * wp_step. unfold I. split_and!; try assumption.
        intros i Hi. apply elem_of_app in Hi as [Hi|Hi]; [now apply Kd|].
        apply list_elem_of_singleton in Hi. subst i.
        destruct (K4 x HxA) as (q & Hq & Hqf). rewrite Hps, Hp in Hq. injection Hq as <-.
        exists p. split; [now rewrite Hps|]. destruct Hqf as [?|[?|?]]; [contradiction|auto..].
    + unfold I. split_and!; try assumption.
      * now rewrite <- HN.
      * intros i Hi. destruct (J4 i Hi) as [(p & Hp & Hpf)|(p & Hp & Hpf)]; eauto.
      * intros i Hi. now apply elem_of_nil in Hi.
  - intros _ s2 (Hf2 & Ha2 & HN2 & K1 & K2 & K5 & K4 & Kd). cbv beta.
    split_and!; assumption.
Qed.

Lemma active_inv_step_inv (s : search_t) :
  active_inv s -> step_inv (frame s) (pnode_active s) (pnode_active s) s.
Proof.
  intros (HN & Hact & Hle). unfold step_inv. split_and!; try reflexivity.
  rewrite HN. split_and!.
  - intros i p Hp. pose proof (Hle i p Hp). lia.
  - intros i. split; [intros Hi; now apply elem_of_nil in Hi|].
    intros (p & Hp & Hf). pose proof (Hle i p Hp). lia.
  - intros i Hi. left. now apply Hact.
  - intros i p Hp Hf. apply Hact. now exists p.
Qed.

Ltac wp_keep F A L :=
  apply wp_bind; eapply wp_mono with (Q := fun _ => step_inv F A A);
  [apply L; assumption | intros ? ? ?; cbv beta].

(** C6.  Between two frames the next-frame list is empty, the active list
    holds exactly the nodes whose HMM is at the current frame, and no HMM
    is ahead of it.  A step that processes a frame keeps this: after it the
    frame is one more, the next-frame list is empty, the active list holds
    exactly the nodes whose HMM is at the new frame; the nodes of the old
    active list that are not in the new one have been deactivated, and (from
    frame 0 on) no HMM is left at the old frame. *)
Theorem step_active_sets (s s' : search_t) :
  (forall c h, hmm_frame (snd (hmm_vit_eval c h)) = hmm_frame h) ->
  -1 <= frame s < INT_MAX ->
  active_inv s ->
  fsg_search_step s = Ok (1, s') ->
  frame s' = frame s + 1
  /\ pnode_active_next s' = []
  /\ (forall i, i ∈ pnode_active s' <-> at_frame (all_pnodes s') (frame s') i)
  /\ (forall i p, all_pnodes s' !! i = Some p -> hmm_frame (hmm p) <= frame s')
  /\ (forall i, i ∈ pnode_active s -> i ∉ pnode_active s' ->
        exists p, all_pnodes s' !! i = Some p /\ hmm_cleared (hmm p))
  /\ (0 <= frame s ->
      forall i p, all_pnodes s' !! i = Some p -> hmm_frame (hmm p) <> frame s).
Proof.
  intros Hvit HF Hact Hrun.
  set (F := frame s) in *. set (A := pnode_active s) in *.
  assert (Hnf : add32 F 1 = F + 1).
  { apply add32_exact. unfold in_int32, INT_MIN, INT_MAX in *. lia. }
  pose proof (active_inv_step_inv s Hact) as Hinv. fold F A in Hinv.
  revert Hrun. generalize (eq_refl (1 : Z)). generalize 1 at 1 3 as r. intros r Hr Hrun.
  revert Hr.
  refine (wp_ok fsg_search_step
            (fun r s' => r = 1 -> _) s r s' _ Hrun).
  clear Hrun r s'.
  unfold fsg_search_step. do 2 wp_step.
  destruct (acmod_n_feat_frame (acmod (base s)) =? 0); [wp_step; discriminate|].
  apply wp_bind. eapply wp_mono with (Q := fun _ => step_inv F A A).
  { apply wp_when; intros _; [now apply sen_active_keeps | exact Hinv]. }
  intros _ s1 Hinv1. cbv beta. do 2 wp_step. cbv zeta. do 8 wp_step.
  wp_keep F A hmm_eval_keeps.
  wp_keep F A prune_prop_keeps.
  unfold history_end_frame at 1. do 2 wp_step.
  wp_keep F A null_prop_keeps.
  unfold history_end_frame at 1. do 2 wp_step.
  wp_keep F A word_trans_keeps.
  do 2 wp_step.
  match goal with H : step_inv F A A ?s3 |- _ =>
    replace (pnode_active s3) with A by (symmetry; apply H);
    apply wp_bind; eapply wp_mono;
      [apply (deactivate_stale_spec F A (pnode_active_next s3) s3);
         [lia | exact H | reflexivity] |]
  end.
  intros _ s4 (Hf4 & Ha4 & HN4 & K1 & K2 & K5 & Kd). cbv beta.
  unfold swap_active. wp_run. intros _. simpl.
  rewrite Hf4, Hnf, HN4.
  change (all_pnodes (set_frame _ _)) with (all_pnodes s4).
  split_and!; try reflexivity.
  - exact K2.
  - exact K1.
  - intros i Hi Hni. destruct (Kd i Hi) as (p & Hp & [Hpf|Hc]); [|eauto].
    exfalso. apply Hni. apply K2. now exists p.
  - intros HF0 i p Hp Hpf. pose proof (K5 i p Hp Hpf) as Hi.
    destruct (Kd i Hi) as (q & Hq & [Hqf|(h0 & Hc)]); rewrite Hp in Hq; injection Hq as <-.
    + lia.
    + rewrite Hc in Hpf. simpl in Hpf. lia.
Qed.

(** ** The active sets after fsg_search_start *)

(** With every HMM idle, the state in which fsg_search_start propagates the
    dummy entry is inside frame -1, with no node at frame 0 yet. *)
Lemma idle_step_inv (s : search_t) :
  frame s = -1 -> pnode_active_next s = [] ->
  (forall i p, all_pnodes s !! i = Some p -> hmm_frame (hmm p) = -1) ->
  step_inv (-1) (pnode_active s) (seq 0 (length (all_pnodes s))) s.
Proof.
  intros Hf HN Hidle. unfold step_inv. split_and!; [exact Hf | reflexivity |].
  rewrite HN. split_and!.
  - intros i p Hp. rewrite (Hidle i p Hp). lia.
  - intros i. split; [intros Hi; now apply elem_of_nil in Hi|].
    intros (p & Hp & Hpf). rewrite (Hidle i p Hp) in Hpf. discriminate.
  - intros i Hi. apply elem_of_seq in Hi as [_ Hi]. simpl in Hi.
    destruct (lookup_lt_is_Some_2 (all_pnodes s) i Hi) as [p Hp].
    left. exists p. split; [exact Hp | now apply (Hidle i)].
  - intros i p Hp _. apply elem_of_seq. split; [lia|]. simpl.
    eapply lookup_lt_Some; eauto.
Qed.

(** X1.  With every HMM idle and nothing listed for the next frame,
    fsg_search_start leaves the decoder at frame 0 with the invariant of
    the active sets: the active list holds exactly the roots it entered. *)
Theorem start_active_sets (s s' : search_t) :
  pnode_active_next s = [] ->
  (forall i p, all_pnodes s !! i = Some p -> hmm_frame (hmm p) = -1) ->
  fsg_search_start s = Ok (0, s') ->
  frame s' = 0 /\ active_inv s'.
Proof.
  intros HN Hidle Hrun.
  refine (wp_ok fsg_search_start (fun _ s' => frame s' = 0 /\ active_inv s') s 0 s' _ Hrun).
  clear Hrun s'.
  set (A := seq 0 (length (all_pnodes s))).
  unfold fsg_search_start. wp_run.
  eapply wp_mono with (Q := fun _ => step_inv (-1) (pnode_active s) A).
  { apply null_prop_keeps.
    match goal with |- step_inv _ _ _ ?s0 =>
      change (step_inv (-1) (pnode_active s0) (seq 0 (length (all_pnodes s0))) s0)
    end.
    apply idle_step_inv; [reflexivity | exact HN | exact Hidle]. }
  intros _ s1 Hinv1. cbv beta.
  apply wp_bind. eapply wp_mono with (Q := fun _ => step_inv (-1) (pnode_active s) A).
  { apply word_trans_keeps; [reflexivity | exact Hinv1]. }
  intros _ s2 (Hf2 & _ & J1 & J2 & _ & _). cbv beta.
  unfold swap_active. wp_run. simpl. rewrite Hf2.
  split; [reflexivity|]. unfold active_inv. simpl.
  change (all_pnodes _) with (all_pnodes s2).
  split_and!; [reflexivity | exact J2 | exact J1].
Qed.

(** ** Start, then finish, with no null arc at the start state *)

Lemma bind_all_nil {A B} (l : list A) (f : A -> list B) :
  (forall x, f x = []) -> l ≫= f = [].
Proof. intros H. induction l as [|x l IH]; [reflexivity|]. now rewrite bind_cons, H, IH. Qed.

(** With the dummy entry alone in the history and no null arc at the start
    state, null propagation adds nothing. *)
Lemma null_prop_dummy (s : search_t) a g e :
  fsg s = Some a -> fsg_heap s !! a = Some g -> bpidx_start s = 0 ->
  entries (history s) = [e] -> fsglink e = None ->
  (forall d, fsg_model_null_trans g (start_state g) d = None) ->
  fsg_search_null_prop s = Ok (tt, s).
Proof.
  intros Ha Hg Hb He Hl Hnull.
  rewrite (null_prop_run s a g Ha Hg) by lia. cbv zeta.
  rewrite bind_all_nil; [now rewrite add_entries_nil|].
  intros bpidx. rewrite He.
  destruct (Z.to_nat bpidx) as [|n]; [|reflexivity]. simpl.
  unfold null_emits. apply bind_all_nil. intros d.
  unfold dest_state. now rewrite Hl, Hnull.
Qed.

Lemma start_one_entry (s : search_t) a g :
  fsg s = Some a -> fsg_heap s !! a = Some g ->
  (forall d, fsg_model_null_trans g (start_state g) d = None) ->
  wp fsg_search_start (fun _ s1 => fsg_history_n_entries (history s1) = 1) s.
Proof.
  intros Ha Hg Hnull. unfold fsg_search_start. wp_run.
  match goal with |- wp _ _ ?s0 =>
    unfold wp at 1;
    rewrite (null_prop_dummy s0 a g _ Ha Hg eq_refl eq_refl eq_refl Hnull);
    generalize (eq_refl : fsg_history_n_entries (history s0) = 1);
    generalize s0
  end.
  intros s1 Hn1.
  apply wp_bind. eapply wp_mono; [apply word_trans_wp|].
  intros _ s2 (Hh & _). cbv beta. unfold swap_active. wp_run. simpl. now rewrite Hh.
Qed.

Lemma wp_deactivate_all (l : list pnode_id) (s : search_t) :
  wp (forM_ l fsg_psubtree_pnode_deactivate) (fun _ s1 => history s1 = history s) s.
Proof.
  apply (wp_forM_ (fun s1 => history s1 = history s)); [|reflexivity].
  intros pid s1 _ Hh. unfold fsg_psubtree_pnode_deactivate. wp_run. exact Hh.
Qed.

Lemma finish_history (s : search_t) :
  wp fsg_search_finish (fun _ s1 => history s1 = history s) s.
Proof.
  unfold fsg_search_finish. do 2 wp_step.
  apply wp_bind. eapply wp_mono; [apply wp_deactivate_all|].
  intros u1 s1 Hh1. cbv beta. do 2 wp_step.
  apply wp_bind. eapply wp_mono; [apply wp_deactivate_all|].
  intros u2 s2 Hh2. cbv beta. wp_run. simpl. congruence.
Qed.

(** With one entry in the history the search for an exit is over before it
    looks at an entry, and there is no hypothesis. *)
Lemma hyp_one_entry (s : search_t) (fuel : nat) :
  fsg_history_n_entries (history s) = 1 ->
  fsg_search_hyp (S fuel) s = Ok ((None, None), s).
Proof.
  intros Hn. unfold fsg_search_hyp, fsg_search_find_exit, bind, get.
  rewrite Hn. reflexivity.
Qed.

(** X3.  When no null arc leaves the start state, fsg_search_start leaves the
    dummy entry alone in the history, fsg_search_finish adds nothing, and
    fsg_search_hyp, whose search for an exit is over at index 0, returns
    NULL. *)
Theorem start_finish_no_null_arc (s s' : search_t) a g (fuel : nat) r :
  fsg s = Some a -> fsg_heap s !! a = Some g ->
  (forall d, fsg_model_null_trans g (start_state g) d = None) ->
  (fsg_search_start ;;; fsg_search_finish ;;; fsg_search_hyp (S fuel)) s = Ok (r, s') ->
  r = (None, None) /\ fsg_history_n_entries (history s') = 1.
Proof.
  intros Ha Hg Hnull Hrun.
  refine (wp_ok _ (fun r s' => r = (None, None) /\ fsg_history_n_entries (history s') = 1)
            s r s' _ Hrun).
  clear Hrun r s'.
  apply wp_bind. eapply wp_mono; [apply (start_one_entry s a g Ha Hg Hnull)|].
  intros u1 s1 Hn1. cbv beta.
  apply wp_bind. eapply wp_mono; [apply finish_history|].
  intros u2 s2 Hh2. cbv beta in Hn1, Hh2 |- *. rewrite <- Hh2 in Hn1.
  unfold wp. rewrite (hyp_one_entry s2 fuel Hn1). auto.
Qed.

(** ** The history and the HMMs over the frames *)

Lemma wp_conj {St A} (m : M St A) (Q1 Q2 : A -> St -> Prop) s :
  wp m Q1 s -> wp m Q2 s -> wp m (fun a s' => Q1 a s' /\ Q2 a s') s.
Proof. unfold wp. destruct (m s) as [[a s']|e]; auto. Qed.

Lemma hmm_hist_below_mono (B B' : Z) (h : hmm_t) :
  B <= B' -> hmm_hist_below B h -> hmm_hist_below B' h.
Proof.
  intros HB (Hi & Ho & Hn). split_and!; try lia.
  eapply Forall_impl; [exact Hn|]. simpl. intros. lia.
Qed.

Lemma hmm_cleared_below (B : Z) (h : hmm_t) :
  0 <= B -> hmm_cleared h -> hmm_hist_below B h.
Proof.
  intros HB (h0 & ->). unfold hmm_hist_below, hmm_clear. simpl. split_and!; try lia.
  apply Forall_map, Forall_forall. simpl. intros. lia.
Qed.

Lemma hmm_ok_mono (F B B' : Z) (h : hmm_t) : B <= B' -> hmm_ok F B h -> hmm_ok F B' h.
Proof. intros HB (H1 & H2). split; [now apply (hmm_hist_below_mono B)|exact H2]. Qed.

Lemma n_entries_nonneg (h : fsg_history_t) : 0 <= fsg_history_n_entries h.
Proof. unfold fsg_history_n_entries. lia. Qed.

(** An entry of the frame, appended. *)
Lemma mid_inv_entry_add (F n0 : Z) (l0 : list fsg_hist_entry_t) (s : search_t)
    (e : fsg_hist_entry_t) :
  mid_inv F n0 l0 s ->
  hist_pred e < fsg_history_n_entries (history s) ->
  is_Some (fsglink e) -> hist_frame e = F ->
  mid_inv F n0 l0 (set_history (fsg_history_entry_add (history s) e) s).
Proof.
  intros (Hf & Hb & Hpre & (Hent & Hsort) & Hhmm) Hp Hl He.
  unfold mid_inv, fsg_history_n_entries. simpl. split_and!; try assumption.
  - now apply prefix_app_r.
  - split.
    + intros i x Hx. apply lookup_app_Some in Hx as [Hx|[Hlen Hx]]; [now apply Hent|].
      apply list_lookup_singleton_Some in Hx as [Hi ->].
      unfold fsg_history_n_entries in Hp. split_and!; [lia | auto | lia | auto].
    + intros i j ei ej Hij Hi Hj.
      apply lookup_app_Some in Hj as [Hj|[Hlen Hj]].
      * assert (Hi' : entries (history s) !! i = Some ei).
        { rewrite lookup_app_l in Hi; [exact Hi|]. apply lookup_lt_Some in Hj. lia. }
        eauto.
      * apply list_lookup_singleton_Some in Hj as [_ ->]. rewrite He.
        apply lookup_app_Some in Hi as [Hi|[_ Hi]]; [now apply (Hent i ei Hi)|].
        apply list_lookup_singleton_Some in Hi as [_ ->]. lia.
  - intros i p Hi. rewrite length_app. simpl.
    apply (hmm_ok_mono F (fsg_history_n_entries (history s))); [|exact (Hhmm i p Hi)].
    unfold fsg_history_n_entries. lia.
Qed.

(** A write to an HMM. *)
Lemma mid_inv_put (F n0 : Z) (l0 : list fsg_hist_entry_t) (s : search_t) lt pid p h :
  mid_inv F n0 l0 s -> lextree s = Some lt -> pnodes lt !! pid = Some p ->
  hmm_ok F (fsg_history_n_entries (history s)) h ->
  mid_inv F n0 l0
    (set_lextree (Some (lextree_set_pnodes lt (<[pid := pnode_set_hmm p h]> (pnodes lt)))) s).
Proof.
  intros (Hf & Hb & Hpre & Hh & Hhmm) Hlt Hp Hok.
  unfold mid_inv, all_pnodes in *. rewrite Hlt in Hhmm. simpl.
  split_and!; try assumption.
  intros i q Hq. destruct (lookup_insert_pnode _ _ _ _ _ _ Hp Hq) as [[-> ->]|[_ Hq']];
    [exact Hok | eauto].
Qed.

Lemma hmm_ok_of (F n0 : Z) (l0 : list fsg_hist_entry_t) (s : search_t) lt pid p :
  mid_inv F n0 l0 s -> lextree s = Some lt -> pnodes lt !! pid = Some p ->
  hmm_ok F (fsg_history_n_entries (history s)) (hmm p).
Proof.
  intros (_ & _ & _ & _ & Hhmm) Hlt Hp. apply (Hhmm pid). unfold all_pnodes. now rewrite Hlt.
Qed.

Lemma try_enter_mid (F n0 : Z) (l0 : list fsg_hist_entry_t) target t newscore thresh histid
    (s1 : search_t) lt :
  mid_inv F n0 l0 s1 -> lextree s1 = Some lt -> pnodes lt !! target = Some t ->
  histid < fsg_history_n_entries (history s1) ->
  wp (try_enter target t newscore thresh histid (F + 1)) (fun _ => mid_inv F n0 l0) s1.
Proof.
  intros Hinv Hlt Ht Hh. unfold try_enter.
  destruct ((thresh <=? newscore) && (hmm_in_score (hmm t) <? newscore));
    [|now apply wp_ret].
  pose proof (hmm_ok_of F n0 l0 s1 lt target t Hinv Hlt Ht) as ((Hi & Ho & Hn) & _).
  assert (G : mid_inv F n0 l0
                (set_lextree
                   (Some (lextree_set_pnodes lt
                            (<[target := pnode_set_hmm t
                                 (hmm_enter (hmm t) newscore histid (F + 1))]> (pnodes lt))))
                   s1)).
  { apply mid_inv_put; try assumption. split; [|left; reflexivity].
    unfold hmm_hist_below. simpl. auto. }
  wp_step. apply wp_when; intros _.
  - apply wp_push_active_next. apply wp_pnode_hmm_enter. intros lt' p' Hlt' Hp'.
    simpl in Hlt'. rewrite Hlt in Hlt'. injection Hlt' as <-.
    rewrite Ht in Hp'. injection Hp' as <-. exact G.
  - apply wp_pnode_hmm_enter. intros lt' p' Hlt' Hp'.
    rewrite Hlt in Hlt'. injection Hlt' as <-.
    rewrite Ht in Hp'. injection Hp' as <-. exact G.
Qed.

Lemma pnode_trans_mid (F n0 : Z) (l0 : list fsg_hist_entry_t) pid (s1 : search_t) :
  add32 F 1 = F + 1 -> mid_inv F n0 l0 s1 ->
  wp (fsg_search_pnode_trans pid) (fun _ => mid_inv F n0 l0) s1.
Proof.
  intros Hnf Hinv. unfold fsg_search_pnode_trans.
  do 2 wp_step. do 4 wp_step. cbv zeta.
  replace (frame s1) with F by (symmetry; apply Hinv). rewrite Hnf.
  apply (wp_forM_ (mid_inv F n0 l0)); [|exact Hinv].
  intros child s2 _ Hinv2.
  wp_step. apply wp_get_pnode. intros lt2 p2 Hlt2 Hp2.
  wp_step. apply wp_get_pnode. intros lt2' c Hlt2' Hc.
  rewrite Hlt2 in Hlt2'. injection Hlt2' as <-.
  apply (try_enter_mid F n0 l0 child c _ _ _ s2 lt2); try assumption.
  apply (hmm_ok_of F n0 l0 s2 lt2 pid p2 Hinv2 Hlt2 Hp2).
Qed.

Lemma pnode_exit_mid (F n0 : Z) (l0 : list fsg_hist_entry_t) pid (s1 : search_t) :
  mid_inv F n0 l0 s1 ->
  wp (fsg_search_pnode_exit pid) (fun _ => mid_inv F n0 l0) s1.
Proof.
  intros Hinv. unfold fsg_search_pnode_exit.
  wp_step. apply wp_get_pnode. intros lt p Hlt Hp.
  do 5 wp_step. apply wp_deref. intros fl Hfl. do 6 wp_step.
  pose proof (hmm_ok_of F n0 l0 s1 lt pid p Hinv Hlt Hp) as ((_ & Ho & _) & _).
  assert (Hf : frame s1 = F) by apply Hinv.
  match goal with |- wp (if ?c then _ else _) _ _ => destruct c end;
    apply wp_history_entry_add; apply mid_inv_entry_add; simpl; eauto.
Qed.

Lemma prune_prop_mid (F n0 : Z) (l0 : list fsg_hist_entry_t) (s1 : search_t) :
  add32 F 1 = F + 1 -> mid_inv F n0 l0 s1 ->
  wp fsg_search_hmm_prune_prop (fun _ => mid_inv F n0 l0) s1.
Proof.
  intros Hnf Hinv. unfold fsg_search_hmm_prune_prop. do 4 wp_step. cbv zeta.
  apply (wp_forM_ (mid_inv F n0 l0)); [|exact Hinv].
  intros pid s2 _ Hinv2.
  wp_step. apply wp_get_pnode. intros lt2 p Hlt2 Hp.
  destruct (add32 (bestscore s1) (beam s1) <=? hmm_bestscore (hmm p)); [|now apply wp_ret].
  do 3 wp_step.
  assert (Hf2 : frame s2 = F) by apply Hinv2.
  eapply wp_mono with (Q := fun _ => mid_inv F n0 l0).
  - rewrite Hf2, Hnf. destruct (Z.eqb_spec (hmm_frame (hmm p)) F) as [Hpf|Hpf].
    + wp_step. apply wp_put_pnode_hmm. intros lt2' p' Hlt2' Hp'.
      rewrite Hlt2 in Hlt2'. injection Hlt2' as <-.
      rewrite Hp in Hp'. injection Hp' as <-.
      apply wp_push_active_next.
      pose proof (hmm_ok_of F n0 l0 s2 lt2 pid p Hinv2 Hlt2 Hp) as (Hb & _).
      apply (mid_inv_put F n0 l0 s2 lt2 pid p (hmm_set_frame (hmm p) (F + 1)) Hinv2 Hlt2 Hp).
      split; [exact Hb | left; reflexivity].
    + wp_step. exact Hinv2.
  - intros u s3 Hinv3. cbv beta.
    destruct (negb (leaf p)).
    + apply wp_when; intros _; [now apply pnode_trans_mid | exact Hinv3].
    + apply wp_when; intros _; [now apply pnode_exit_mid | exact Hinv3].
Qed.

Lemma entry_get_Some (h : fsg_history_t) (i : Z) (e : fsg_hist_entry_t) :
  fsg_history_entry_get h i = Some e ->
  0 <= i < fsg_history_n_entries h /\ entries h !! Z.to_nat i = Some e.
Proof.
  unfold fsg_history_entry_get, fsg_history_n_entries.
  destruct (Z.ltb_spec i 0); [discriminate|]. intros He. split; [|exact He].
  apply lookup_lt_Some in He. lia.
Qed.

Lemma null_prop_mid (F n0 : Z) (l0 : list fsg_hist_entry_t) (s1 : search_t) :
  mid_inv F n0 l0 s1 -> wp fsg_search_null_prop (fun _ => mid_inv F n0 l0) s1.
Proof.
  intros Hinv. unfold fsg_search_null_prop. do 2 wp_step. cbv zeta.
  assert (Hb1 : bpidx_start s1 = n0) by apply Hinv.
  apply (wp_forM_ (mid_inv F n0 l0)); [|exact Hinv].
  intros bpidx s2 Hin Hinv2. apply elem_of_seqZ in Hin.
  do 3 wp_step. apply wp_deref. intros e He.
  apply entry_get_Some in He as (Hrange & He).
  wp_step. apply wp_hist_dest_state. intros src _. wp_step. wp_step.
  match goal with |- wp (forM_ ?l ?body) _ _ =>
    eapply wp_mono with
      (Q := fun _ s3 => mid_inv F n0 l0 s3 /\ bpidx < fsg_history_n_entries (history s3));
      [apply (wp_forM_ (fun s3 => mid_inv F n0 l0 s3
                                  /\ bpidx < fsg_history_n_entries (history s3)) l body)
      | intros u s3 [H3 _]; exact H3]
  end; [|split; [exact Hinv2 | lia]].
  intros d s3 _ [Hinv3 Hlt3].
  destruct (fsg_model_null_trans _ _ _) as [l|]; [|apply wp_ret; auto].
  apply wp_when; intros _; [|auto].
  apply wp_history_entry_add. split.
  - apply mid_inv_entry_add; simpl; [exact Hinv3 | exact Hlt3 | eauto |].
    destruct Hinv2 as (_ & _ & _ & (Hent & _) & _).
    destruct (Hent _ _ He) as (_ & _ & _ & HF). apply HF. lia.
  - unfold fsg_history_n_entries in *. simpl. rewrite length_app. simpl. lia.
Qed.

Lemma word_trans_mid (F n0 : Z) (l0 : list fsg_hist_entry_t) (s1 : search_t) :
  add32 F 1 = F + 1 -> mid_inv F n0 l0 s1 ->
  wp fsg_search_word_trans (fun _ => mid_inv F n0 l0) s1.
Proof.
  intros Hnf Hinv. unfold fsg_search_word_trans. do 2 wp_step. cbv zeta.
  replace (frame s1) with F by (symmetry; apply Hinv). rewrite Hnf.
  apply (wp_forM_ (mid_inv F n0 l0)); [|exact Hinv].
  intros bpidx s2 _ Hinv2. do 5 wp_step. apply wp_deref. intros e He.
  apply entry_get_Some in He as (Hrange & He).
  do 3 wp_step. apply wp_hist_dest_state. intros d _. do 2 wp_step.
  match goal with |- wp (forM_ ?l ?body) _ _ =>
    eapply wp_mono with
      (Q := fun _ s3 => mid_inv F n0 l0 s3 /\ history s3 = history s2);
      [apply (wp_forM_ (fun s3 => mid_inv F n0 l0 s3 /\ history s3 = history s2) l body)
      | intros u s3 [H3 _]; exact H3]
  end; [|split; [exact Hinv2 | reflexivity]].
  intros rid s3 _ [Hinv3 Hh3]. unfold word_trans_root.
  wp_step. apply wp_get_pnode. intros lt3 root Hlt3 Hroot.
  wp_step. apply wp_deref. intros t1 _.
  wp_step. eapply wp_mono with (Q := fun _ s => s = s3).
  - destruct t1; [apply wp_deref; intros; reflexivity | now apply wp_ret].
  - intros t2 s4 ->. destruct (t1 && t2); [|apply wp_ret; auto].
    apply wp_conj.
    + apply (try_enter_mid F n0 l0 rid root _ _ _ s3 lt3); try assumption.
      rewrite Hh3. lia.
    + unfold try_enter.
      match goal with |- wp (if ?c then _ else _) _ _ => destruct c end;
        [|now apply wp_ret].
      wp_step. apply wp_when; intros _.
      * apply wp_push_active_next, wp_pnode_hmm_enter. intros. exact Hh3.
      * apply wp_pnode_hmm_enter. intros. exact Hh3.
Qed.

Lemma sen_active_mid (F n0 : Z) (l0 : list fsg_hist_entry_t) (s1 : search_t) :
  mid_inv F n0 l0 s1 -> wp fsg_search_sen_active (fun _ => mid_inv F n0 l0) s1.
Proof.
  intros Hinv. unfold fsg_search_sen_active. do 4 wp_step.
  apply (wp_forM_ (mid_inv F n0 l0)); [|exact Hinv].
  intros pid s2 _ Hinv2. wp_run. exact Hinv2.
Qed.

Lemma hmm_eval_mid (F n0 : Z) (l0 : list fsg_hist_entry_t) (s1 : search_t) :
  (forall c h, hmm_frame (snd (hmm_vit_eval c h)) = hmm_frame h) ->
  (forall c h B, hmm_hist_below B h -> hmm_hist_below B (snd (hmm_vit_eval c h))) ->
  0 <= F ->
  (forall i, i ∈ pnode_active s1 -> at_frame (all_pnodes s1) F i) ->
  mid_inv F n0 l0 s1 -> wp fsg_search_hmm_eval (fun _ => mid_inv F n0 l0) s1.
Proof.
  intros Hvit Hvith HF Hact Hinv. unfold fsg_search_hmm_eval. do 2 wp_step.
  destruct (pnode_active s1) as [|p0 l1] eqn:Ea; [exact Hinv|].
  wp_step.
  eapply wp_mono with
    (Q := fun _ s2 => mid_inv F n0 l0 s2
                      /\ forall i, i ∈ p0 :: l1 -> at_frame (all_pnodes s2) F i).
  - unfold hmm_eval_loop.
    apply (wp_foldM (fun _ s2 => mid_inv F n0 l0 s2
                                 /\ forall i, i ∈ p0 :: l1 -> at_frame (all_pnodes s2) F i)).
    + intros acc pid s2 Hpid [Hinv2 Hact2].
      wp_step. apply wp_get_pnode. intros lt p Hlt Hp.
      do 5 wp_step. apply wp_put_pnode_hmm. intros lt' p' Hlt' Hp'.
      rewrite Hlt in Hlt'. injection Hlt' as <-. rewrite Hp in Hp'. injection Hp' as <-.
      wp_step.
      assert (Hpf : hmm_frame (hmm p) = F).
      { destruct (Hact2 pid Hpid) as (q & Hq & Hqf). unfold all_pnodes in Hq.
        rewrite Hlt in Hq. congruence. }
      split.
      * apply mid_inv_put; try assumption.
        destruct (hmm_ok_of F n0 l0 s2 lt pid p Hinv2 Hlt Hp) as (Hb & _).
        split; [now apply Hvith|]. right. left. split; [exact HF|]. now rewrite Hvit.
      * intros i Hi. unfold all_pnodes. simpl.
        destruct (Hact2 i Hi) as (q & Hq & Hqf). unfold all_pnodes in Hq. rewrite Hlt in Hq.
        destruct (decide (i = pid)) as [->|Hne].
        -- rewrite Hp in Hq. injection Hq as <-.
           exists (pnode_set_hmm p (snd (hmm_vit_eval (hmmctx s2) (hmm p)))).
           rewrite list_lookup_insert_eq by (eapply lookup_lt_Some; eauto).
           split; [reflexivity|]. simpl. now rewrite Hvit.
        -- exists q. rewrite list_lookup_insert_ne by congruence. auto.
    + split; [exact Hinv | exact Hact].
  - intros r s2 [Hinv2 _]. cbv beta. do 3 wp_step.
    eapply wp_mono with (Q := fun _ => mid_inv F n0 l0).
    + unfold adjust_beams. do 2 wp_step.
      destruct (negb (maxhmmpf (base _) =? -1) && _);
        [destruct (f32_gt_0_1 _)|]; wp_run; exact Hinv2.
    + intros u s3 Hinv3. cbv beta. wp_run.
      match goal with |- wp (if ?c then _ else _) _ _ => destruct c end;
        wp_run. exact Hinv3.
Qed.

Lemma deactivate_stale_mid (F n0 : Z) (l0 : list fsg_hist_entry_t) (l : list pnode_id)
    (s1 : search_t) :
  mid_inv F n0 l0 s1 -> wp (deactivate_stale l) (fun _ => mid_inv F n0 l0) s1.
Proof.
  intros Hinv. unfold deactivate_stale.
  apply (wp_forM_ (mid_inv F n0 l0)); [|exact Hinv].
  intros pid s2 _ Hinv2.
  wp_step. apply wp_get_pnode. intros lt p Hlt Hp. do 2 wp_step.
  destruct (hmm_frame (hmm p) =? frame s2); [|wp_step; exact Hinv2].
  unfold fsg_psubtree_pnode_deactivate.
  wp_step. apply wp_get_pnode. intros lt' p' Hlt' Hp'.
  rewrite Hlt in Hlt'. injection Hlt' as <-. rewrite Hp in Hp'. injection Hp' as <-.
  apply wp_put_pnode_hmm. intros lt' p' Hlt' Hp'.
  rewrite Hlt in Hlt'. injection Hlt' as <-. rewrite Hp in Hp'. injection Hp' as <-.
  apply mid_inv_put; try assumption.
  assert (Hc : hmm_cleared (hmm_clear (hmm p))) by now exists (hmm p).
  split; [apply hmm_cleared_below; [apply n_entries_nonneg | exact Hc] | auto].
Qed.

(** fsg_search_sen_active changes the acoustic model only. *)
Lemma sen_active_acmod (s : search_t) :
  wp fsg_search_sen_active
     (fun _ s1 => exists a, s1 = set_base (set_acmod a (base s)) s) s.
Proof.
  unfold fsg_search_sen_active. do 4 wp_step.
  match goal with |- wp (forM_ ?l ?body) _ ?s0 =>
    apply (wp_forM_ (fun s1 => exists a, s1 = set_base (set_acmod a (base s)) s) l body)
  end.
  - intros pid s2 _ (a & ->). wp_run. eexists. reflexivity.
  - eexists. reflexivity.
Qed.

Lemma run_inv_mid (s : search_t) :
  run_inv s -> 0 <= frame s ->
  mid_inv (frame s) (fsg_history_n_entries (history s)) (entries (history s))
    (set_bpidx_start (fsg_history_n_entries (history s)) s).
Proof.
  intros (Hent & Hsort & Hhmm) HF. unfold mid_inv. simpl. split_and!; try reflexivity.
  - split; [|exact Hsort]. intros i e He. destruct (Hent i e He) as (Hp & Hl & Hf).
    split_and!; [exact Hp | exact Hl | lia |].
    apply lookup_lt_Some in He. unfold fsg_history_n_entries. lia.
  - intros i p Hp. destruct (Hhmm i p Hp) as (Hb & [Hf|Hc]); split; auto.
Qed.

Ltac wp_both F A n0 l0 :=
  apply wp_bind;
  eapply wp_mono with (Q := fun _ s => step_inv F A A s /\ mid_inv F n0 l0 s);
  [apply wp_conj | intros ? ? [? ?]; cbv beta].

(** X8.  A step that processes a frame keeps the invariant of the history and
    the HMMs.  The history it leaves begins with the history it found; the
    entries it appended are of the frame it processed, and [bpidx_start]
    is the index of the first of them. *)
Theorem step_run_inv (s s' : search_t) :
  (forall c h, hmm_frame (snd (hmm_vit_eval c h)) = hmm_frame h) ->
  (forall c h B, hmm_hist_below B h -> hmm_hist_below B (snd (hmm_vit_eval c h))) ->
  0 <= frame s < INT_MAX ->
  active_inv s -> run_inv s ->
  fsg_search_step s = Ok (1, s') ->
  run_inv s'
  /\ entries (history s) `prefix_of` entries (history s')
  /\ bpidx_start s' = fsg_history_n_entries (history s)
  /\ (forall i e, entries (history s') !! i = Some e ->
        fsg_history_n_entries (history s) <= Z.of_nat i -> hist_frame e = frame s).
Proof.
  intros Hvit Hvith HF Hact Hrun Hstep.
  set (F := frame s) in *. set (A := pnode_active s) in *.
  set (l0 := entries (history s)) in *.
  assert (Hnf : add32 F 1 = F + 1).
  { apply add32_exact. unfold in_int32, INT_MIN, INT_MAX in *. lia. }
  pose proof (active_inv_step_inv s Hact) as Hinv. fold F A in Hinv.
  set (n0 := fsg_history_n_entries (history s)) in *.
  pose proof (run_inv_mid s Hrun ltac:(lia)) as Hmid. fold F l0 n0 in Hmid.
  revert Hstep. generalize (eq_refl (1 : Z)). generalize 1 at 1 3 as r. intros r Hr Hstep.
  revert Hr.
  refine (wp_ok fsg_search_step (fun r s' => r = 1 -> _) s r s' _ Hstep).
  clear Hstep r s'.
  unfold fsg_search_step. do 2 wp_step.
  destruct (acmod_n_feat_frame (acmod (base s)) =? 0); [wp_step; discriminate|].
  apply wp_bind.
  eapply wp_mono with (Q := fun _ s1 => exists a, s1 = set_base (set_acmod a (base s)) s).
  { apply wp_when; intros _; [apply sen_active_acmod|].
    exists (acmod (base s)). now destruct s as [[]]. }
  intros u s1 (a & ->). cbv beta. do 2 wp_step. cbv zeta. do 8 wp_step.
  match goal with |- wp _ _ ?s2 =>
    assert (Hinv2 : step_inv F A A s2) by exact Hinv;
    assert (Hmid2 : mid_inv F n0 l0 s2) by exact Hmid;
    assert (Hact2 : forall i, i ∈ pnode_active s2 -> at_frame (all_pnodes s2) F i)
      by (intros i Hi; now apply Hact);
    generalize dependent s2
  end.
  intros s2 Hinv2 Hmid2 Hact2.
  apply wp_bind.
  eapply wp_mono with (Q := fun _ s => step_inv F A A s /\ mid_inv F n0 l0 s).
  { apply wp_conj; [now apply hmm_eval_keeps | apply hmm_eval_mid; auto; lia]. }
  intros u3 s3 [Hinv3 Hmid3]. cbv beta.
  wp_both F A n0 l0; [apply prune_prop_keeps; assumption | apply prune_prop_mid; assumption |].
  unfold history_end_frame at 1. do 2 wp_step.
  wp_both F A n0 l0; [apply null_prop_keeps; assumption | apply null_prop_mid; assumption |].
  unfold history_end_frame at 1. do 2 wp_step.
  wp_both F A n0 l0; [apply word_trans_keeps; assumption | apply word_trans_mid; assumption |].
  do 2 wp_step.
  match goal with H : step_inv F A A ?s6 |- wp (bind (deactivate_stale (pnode_active ?s6)) _) _ _ =>
    replace (pnode_active s6) with A by (symmetry; apply H)
  end.
  apply wp_bind. eapply wp_mono.
  { apply wp_conj.
    - eapply deactivate_stale_spec with (F := F) (A := A); [lia | eassumption | reflexivity].
    - apply deactivate_stale_mid. eassumption. }
  intros u7 s7 [(Hf7 & Ha7 & HN7 & K1 & K2 & K5 & Kd) (_ & Hb7 & Hpre & (Hent & Hsort) & Hhmm)].
  cbv beta. unfold swap_active. wp_run. intros _. unfold run_inv. simpl.
  rewrite Hf7, Hnf.
  change (all_pnodes (set_frame _ _)) with (all_pnodes s7).
  split_and!.
  - intros i e He. destruct (Hent i e He) as (Hp & Hl & Hle & _).
    split_and!; [exact Hp | exact Hl | lia].
  - exact Hsort.
  - intros i p Hp. destruct (Hhmm i p Hp) as (Hb & [Hf|[[_ Hf]|Hc]]); split; auto.
    right. pose proof (K5 i p Hp Hf) as Hi.
    destruct (Kd i Hi) as (q & Hq & [Hqf|Hc]); rewrite Hp in Hq; injection Hq as <-;
      [lia | exact Hc].
  - exact Hpre.
  - exact Hb7.
  - intros i e He Hi. destruct (Hent i e He) as (_ & _ & _ & HFe). apply HFe.
    unfold fsg_history_n_entries in Hi. exact Hi.
Qed.

(** X7.  From idle HMMs, fsg_search_start leaves the decoder at frame 0 with the
    invariant of the history and the HMMs.  The history it leaves begins
    with the dummy entry (no link, score 0, no predecessor), and all its
    entries are of frame -1. *)
Theorem start_run_inv (s s' : search_t) :
  (forall i p, all_pnodes s !! i = Some p -> hmm_cleared (hmm p)) ->
  fsg_search_start s = Ok (0, s') ->
  run_inv s' /\ frame s' = 0 /\ bpidx_start s' = 0
  /\ [{| fsglink := None; hist_frame := -1; hist_score := 0; hist_pred := -1;
         hist_lc := bin_mdef_ciphone_id (acmod (base s)) SIL;
         hist_rc := fsg_pnode_add_all_ctxt |}] `prefix_of` entries (history s')
  /\ (forall i e, entries (history s') !! i = Some e -> hist_frame e = -1).
Proof.
  intros Hidle Hrun.
  refine (wp_ok fsg_search_start (fun _ s' => _) s 0 s' _ Hrun).
  clear Hrun s'.
  set (dummy := {| fsglink := None; hist_frame := -1; hist_score := 0; hist_pred := -1;
                   hist_lc := bin_mdef_ciphone_id (acmod (base s)) SIL;
                   hist_rc := fsg_pnode_add_all_ctxt |}).
  unfold fsg_search_start. wp_run.
  match goal with |- wp _ _ ?s0 => assert (Hmid : mid_inv (-1) 0 [dummy] s0) end.
  { unfold mid_inv, fsg_history_n_entries. simpl. split_and!; try reflexivity.
    - split.
      + intros i e He. apply list_lookup_singleton_Some in He as [-> <-]. simpl.
        split_and!; [lia | lia | lia | reflexivity].
      + intros i j ei ej _ Hi Hj.
        apply list_lookup_singleton_Some in Hi as [_ <-].
        apply list_lookup_singleton_Some in Hj as [_ <-]. lia.
    - intros i p Hp. pose proof (Hidle i p Hp) as Hc.
      split; [apply hmm_cleared_below; [lia | exact Hc] | auto]. }
  eapply wp_mono with (Q := fun _ => mid_inv (-1) 0 [dummy]);
    [now apply null_prop_mid|].
  intros u1 s1 Hmid1. cbv beta.
  apply wp_bind. eapply wp_mono with (Q := fun _ => mid_inv (-1) 0 [dummy]);
    [apply word_trans_mid; [reflexivity | exact Hmid1]|].
  intros u2 s2 (Hf2 & Hb2 & Hpre & (Hent & Hsort) & Hhmm). cbv beta.
  unfold swap_active. wp_run. unfold run_inv. simpl. rewrite Hf2.
  change (all_pnodes (set_frame _ _)) with (all_pnodes s2).
  change (add32 (-1) 1) with 0.
  split_and!; try assumption; try reflexivity.
  - intros i e He. destruct (Hent i e He) as (Hp & Hl & Hle & _).
    split_and!; [exact Hp | exact Hl | lia].
  - intros i p Hp. destruct (Hhmm i p Hp) as (Hb & [Hf|[[HF _]|Hc]]); split; auto. lia.
  - intros i e He. destruct (Hent i e He) as (_ & _ & _ & HF). apply HF. lia.
Qed.

Lemma deactivate_run (s : search_t) lt pid p :
  lextree s = Some lt -> pnodes lt !! pid = Some p ->
  fsg_psubtree_pnode_deactivate pid s
  = Ok (tt, set_lextree
              (Some (lextree_set_pnodes lt
                       (<[pid := pnode_set_hmm p (hmm_clear (hmm p))]> (pnodes lt)))) s).
Proof.
  intros Hlt Hp.
  unfold fsg_psubtree_pnode_deactivate, get_pnode, put_pnode_hmm, get_lextree, bind, get.
  unfold deref, ret. repeat (rewrite ?Hlt, ?Hp; cbn). reflexivity.
Qed.

(** X9.  After an utterance, fsg_search_finish returns and leaves every HMM
    idle and both active lists empty, which is what fsg_search_start
    expects; it marks the utterance final and leaves the history and the
    frame count as they are. *)
Theorem finish_idle (s : search_t) :
  is_Some (lextree s) -> active_inv s -> run_inv s ->
  exists s',
    fsg_search_finish s = Ok (0, s')
    /\ pnode_active s' = [] /\ pnode_active_next s' = [] /\ final s' = true
    /\ (forall i p, all_pnodes s' !! i = Some p -> hmm_cleared (hmm p))
    /\ history s' = history s /\ frame s' = frame s.
Proof.
  intros [lt Hlt] (HN & Hact & _) (_ & _ & Hhmm).
  unfold all_pnodes in Hact, Hhmm. rewrite Hlt in Hact, Hhmm.
  set (I := fun (done : list pnode_id) (s1 : search_t) =>
        exists lt1, s1 = set_lextree (Some lt1) s
          /\ length (pnodes lt1) = length (pnodes lt)
          /\ forall i p1, pnodes lt1 !! i = Some p1 ->
               hmm_cleared (hmm p1) \/ ((i ∉ done) /\ i ∈ pnode_active s)).
  assert (G : wpt fsg_search_finish
                (fun r s' => r = 0 /\ pnode_active s' = [] /\ pnode_active_next s' = []
                             /\ final s' = true
                             /\ (forall i p, all_pnodes s' !! i = Some p -> hmm_cleared (hmm p))
                             /\ history s' = history s /\ frame s' = frame s) s).
  { unfold fsg_search_finish. apply wpt_bind, wpt_get. apply wpt_bind.
    eapply wpt_mono.
    - apply (wpt_forM_split I).
      + intros done x rest s1 El (lt1 & -> & Hlen & Hn).
        assert (Hx : x ∈ pnode_active s) by (rewrite El; apply elem_of_app; right; left).
        destruct (proj1 (Hact x) Hx) as (p & Hp & _).
        destruct (lookup_lt_is_Some_2 (pnodes lt1) x) as [p1 Hp1].
        { rewrite Hlen. eapply lookup_lt_Some; eauto. }
        eapply wpt_intro; [apply (deactivate_run _ lt1 x p1); [reflexivity | exact Hp1]|].
        eexists. split; [reflexivity|]. simpl. split; [now rewrite length_insert|].
        intros i q Hq. destruct (lookup_insert_pnode _ _ _ _ _ _ Hp1 Hq) as [[-> ->]|[Hne Hq']].
        * left. simpl. now exists (hmm p1).
        * destruct (Hn i q Hq') as [Hc|[Hnd Hia]]; [now left|]. right. split; [|exact Hia].
          intros Hin. apply elem_of_app in Hin as [Hin|Hin]; [contradiction|].
          apply list_elem_of_singleton in Hin. congruence.
      + exists lt. split; [now destruct s; simpl in *; subst|]. split; [reflexivity|].
        intros i p1 Hp1. destruct (Hhmm i p1 Hp1) as (_ & [Hf|Hc]); [|now left].
        right. split; [apply not_elem_of_nil|]. apply Hact. now exists p1.
    - intros u s1 (lt1 & -> & Hlen & Hn). cbv beta.
      apply wpt_bind, wpt_get. simpl. rewrite HN. simpl.
      unfold bind at 1, ret at 1.
      repeat (apply wpt_bind; apply wpt_modify).
      unfold get_lextree. apply wpt_bind, wpt_bind, wpt_get. simpl.
      apply wpt_ret. split_and!; try reflexivity.
      intros i p Hp. unfold all_pnodes in Hp. simpl in Hp.
      destruct (Hn i p Hp) as [Hc|[Hnd Hia]]; [exact Hc | contradiction]. }
  apply wpt_ok in G as (r & s' & Hrun & -> & G). eauto.
Qed.

(** ** fsg_search_hyp in a running decoder *)

(** Without the final-state constraint the second loop of
    fsg_search_find_exit reads nothing that may be missing. *)
Lemma find_exit_best_total (h : fsg_history_t) (fs : option Z) (f : Z) :
  forall (k : nat) x bs bh,
    entries h !! k = Some x ->
    exists r, find_exit_best (S k) h fs false f (Z.of_nat k) x bs bh = Ok r
              /\ (snd r = bh \/ 0 <= snd r <= Z.of_nat k).
Proof.
  induction k as [|k IH]; intros x bs bh Hx; cbn [find_exit_best];
    destruct (hist_frame x =? f); try (eexists; split; [reflexivity | now left]).
  - destruct (bs <? hist_score x); cbn; eexists; (split; [reflexivity|]); cbn;
      [right; lia | now left].
  - destruct (lookup_lt_is_Some_2 (entries h) k) as [e' He'];
      [apply lookup_lt_Some in Hx; lia|].
    assert (Hg : fsg_history_entry_get h (Z.of_nat (S k) - 1) = Some e').
    { unfold fsg_history_entry_get.
      replace (Z.of_nat (S k) - 1 <? 0) with false by (symmetry; apply Z.ltb_ge; lia).
      now replace (Z.to_nat (Z.of_nat (S k) - 1)) with k by lia. }
    replace (Z.of_nat (S k) - 1 <? 0) with false by (symmetry; apply Z.ltb_ge; lia).
    rewrite Hg. replace (Z.of_nat (S k) - 1) with (Z.of_nat k) by lia.
    destruct (bs <? hist_score x); cbn [negb].
    + destruct (IH e' (hist_score x) (Z.of_nat (S k)) He') as (r & Hr & Hb).
      exists r. split; [exact Hr|]. right. lia.
    + destruct (IH e' bs bh He') as (r & Hr & Hb).
      exists r. split; [exact Hr|]. destruct Hb; [now left | right; lia].
Qed.

(** The walk over the predecessors ends when every entry comes after its
    predecessor, and reads no missing link when every entry but the first
    has one. *)
Lemma hyp_words_total (h : fsg_history_t) (g : fsg_model_t) :
  (forall i e, entries h !! i = Some e ->
     hist_pred e < Z.of_nat i /\ ((0 < i)%nat -> is_Some (fsglink e))) ->
  forall (fuel : nat) (bp : Z),
    bp < fsg_history_n_entries h -> Z.max bp 0 < Z.of_nat fuel ->
    exists ws, hyp_words fuel h (Some g) bp = Ok ws.
Proof.
  intros Hent fuel. induction fuel as [|fuel IH]; intros bp Hn Hf; [lia|].
  cbn [hyp_words]. destruct (Z.ltb_spec 0 bp) as [Hpos|Hneg]; [|now exists []].
  unfold fsg_history_entry_get.
  replace (bp <? 0) with false by (symmetry; apply Z.ltb_ge; lia).
  unfold fsg_history_n_entries in Hn.
  destruct (lookup_lt_is_Some_2 (entries h) (Z.to_nat bp)) as [e He]; [lia|].
  rewrite He. destruct (Hent _ _ He) as (Hp & Hl).
  destruct Hl as [fl Hfl]; [lia|]. rewrite Hfl.
  destruct (IH (hist_pred e)) as (ws & Hws); [unfold fsg_history_n_entries; lia | lia|].
  rewrite Hws. destruct (wid fl <? 0); [eauto|].
  destruct (fsg_model_is_filler g (wid fl)); eauto.
Qed.

(** X10.  In a running decoder whose utterance is not finished, fsg_search_hyp
    returns: its search for the last exit ends at the newest entry, and the
    walk over the predecessors ends and finds the links it reads.  It
    changes nothing but the hypothesis string. *)
Theorem hyp_returns (s : search_t) (a : fsg_ptr) (g : fsg_model_t) (fuel : nat) :
  run_inv s -> 0 <= frame s -> final s = false ->
  fsg s = Some a -> fsg_heap s !! a = Some g ->
  fsg_history_n_entries (history s) < Z.of_nat fuel ->
  exists r s',
    fsg_search_hyp fuel s = Ok (r, s')
    /\ (exists str, s' = set_base (set_hyp_str str (base s)) s)
    /\ (fsg_history_n_entries (history s) <= 1 -> fst r = None).
Proof.
  intros (Hent & Hsort & _) HF Hfin Ha Hg Hfuel.
  assert (Hsame : exists str, s = set_base (set_hyp_str str (base s)) s).
  { exists (hyp_str (base s)). now destruct s as [[]]. }
  unfold fsg_search_hyp, fsg_search_find_exit, bind, get. cbn beta iota.
  replace (frame s =? -1) with false by (symmetry; apply Z.eqb_neq; lia).
  rewrite Hfin. destruct fuel as [|fuel]; [pose proof (n_entries_nonneg (history s)); lia|].
  cbn [find_exit_scan].
  set (n := fsg_history_n_entries (history s)) in *.
  destruct (Z.ltb_spec 0 (n - 1)) as [Hn|Hn].
  2:{ cbn. replace (n - 1 <=? 0) with true by (symmetry; apply Z.leb_le; lia).
      cbn. eexists _, _. split; [reflexivity|]. split; [exact Hsame | reflexivity]. }
  unfold fsg_history_entry_get at 1.
  replace (n - 1 <? 0) with false by (symmetry; apply Z.ltb_ge; lia).
  destruct (lookup_lt_is_Some_2 (entries (history s)) (Z.to_nat (n - 1))) as [e He].
  { unfold n, fsg_history_n_entries in *. lia. }
  rewrite He. destruct (Hent _ _ He) as (_ & _ & Hef).
  replace (hist_frame e <=? frame s) with true by (symmetry; apply Z.leb_le; lia).
  rewrite Ha, Hg. cbn [fmap option_fmap option_map].
  replace (Z.to_nat (n - 1) + 1)%nat with (S (Z.to_nat (n - 1))) by lia.
  destruct (find_exit_best_total (history s) (Some (final_state g)) (hist_frame e)
              (Z.to_nat (n - 1)) e INT_MIN (-1) He) as ([bs bh] & Hbest & Hb).
  replace (Z.of_nat (Z.to_nat (n - 1))) with (n - 1) in Hbest, Hb by lia.
  rewrite Hbest. simpl in Hb.
  destruct (Z.eqb_spec bh (-1)) as [->|Hne].
  { cbn. eexists _, _. split; [reflexivity|]. split; [exact Hsame|]. reflexivity. }
  cbn [ret fst snd]. destruct (Z.leb_spec bh 0) as [Hle|Hgt].
  { cbn. eexists _, _. split; [reflexivity|]. split; [exact Hsame|]. reflexivity. }
  rewrite andb_false_r.
  destruct (hyp_words_total (history s) g) with (fuel := S fuel) (bp := bh) as (ws & Hws).
  - intros i x Hx. destruct (Hent i x Hx) as (Hp & Hl & _). auto.
  - fold n. lia.
  - lia.
  - rewrite Hws. cbn. eexists _, _. split; [reflexivity|].
    split; [eexists; reflexivity | lia].
Qed.

End Properties.

(** * The properties on the example decoder *)

(** The history of [ex_search3]: the dummy entry, its copy through the null
    arc, and the exits of WORD in frames 1 and 2. *)
Lemma ex_search3_history :
  map (fun e => (hist_frame e, hist_score e, hist_pred e)) (entries (history ex_search3))
  = [(-1, 0, -1); (-1, -10, 0); (1, -15, 1); (2, WORST_SCORE, 1)]
  /\ frame ex_search3 = 3.
Proof. vm_compute. split; reflexivity. Qed.


(** The same scan against the search as specified, at a frame index that
    the callers in this file do not pass (they pass the frame counter, which
    is above the frame of every entry): in the history of [ex_search3] the
    first entry from the end with frame <= 1 is entry 2, the only entry of
    frame 1, so the search as specified returns 2; the code tests the newest
    entry only, never moves to an older one, and does not return. *)
Lemma find_exit_misses_older_entries :
  find_exit_spec (entries (history ex_search3)) 2 1 false = 2
  /\ (forall fuel, fsg_search_find_exit fuel 1 false ex_search3 = Err OutOfFuel).
Proof.
  split; [vm_compute; reflexivity|].
  intros fuel. unfold fsg_search_find_exit, bind, get.
  cbn beta iota.
  change (1 =? -1) with false. cbn iota.
  rewrite (find_exit_scan_stuck fuel (history ex_search3) 1
             (fsg_history_n_entries (history ex_search3) - 1)
             {| fsglink := Some ex_link_word; hist_frame := 2; hist_score := WORST_SCORE;
                hist_pred := 1; hist_lc := 7; hist_rc := {| bv := [1; 0; 0; 0] |} |}).
  - reflexivity.
  - vm_compute; reflexivity.
  - vm_compute; reflexivity.
  - vm_compute; reflexivity.
Qed.

(** C1 fails on the code, at a call that fsg_search_hyp makes.  After
    fsg_search_start and fsg_search_finish on [ex_search], whose grammar
    has a null arc out of its start state, the decoder is final at frame 0
    and its history holds the dummy entry, which has no link, and the copy
    of it through the null arc, both of frame -1.  Neither reaches the
    final state, so the search as specified returns -1; the code, called
    with the frame counter and the final flag as fsg_search_hyp calls it,
    reads the state that the link of the dummy entry leads to, and that
    link is NULL. *)
Theorem find_exit_final_null_link :
  exists s,
    (ex_start ;;; fsg_search_finish) ex_search = Ok (0, s)
    /\ frame s = 0 /\ final s = true
    /\ entries (history s) = [ex_entry_dummy; ex_entry_null]
    /\ fsglink ex_entry_dummy = None
    /\ find_exit_spec (entries (history s)) (final_state ex_fsg) (frame s) (final s) = -1
    /\ (forall fuel, fsg_search_find_exit (S fuel) (frame s) (final s) s = Err NullDeref).
Proof.
  eexists. split; [vm_compute; reflexivity|].
  split_and!; vm_compute; reflexivity.
Qed.

(** C2 fails on the code as stated: the frames of [ex_crowded] have two
    active HMMs for a cap of one, and after 22 of them the beam factor is
    [beam_factor_min], which is below 0.1. *)
Lemma beam_factor_below_0_1 :
  over_cap ex_crowded = true
  /\ beam_factor <$> exec (repeatM 22 ex_hmm_eval) ex_crowded = Some beam_factor_min
  /\ SFltb (f64_of_f32 beam_factor_min) f64_0_1 = true.
Proof. vm_compute. repeat split; reflexivity. Qed.

(** C2 on the example: the first crowded frame takes the factor from 1.0
    to 0.9f and the beams from (-1000, -800, -600) to (-900, -720, -540). *)
Lemma hmm_eval_beams_ex :
  ex_hmm_eval ex_crowded = Ok (tt, ex_crowded1)
  /\ beam_factor ex_crowded = f32_1_0
  /\ beam_factor ex_crowded1 = f32_0_9
  /\ beam ex_crowded1 = -900 /\ pbeam ex_crowded1 = -720 /\ wbeam ex_crowded1 = -540.
Proof.
  assert (E : ex_hmm_eval ex_crowded = Ok (tt, ex_crowded1)) by (vm_compute; reflexivity).
  split; [exact E|]. split; [reflexivity|].
  destruct (hmm_eval_beams false ex_vit_eval ex_crowded ex_crowded1 E) as (_ & H & _).
  destruct H as (_ & _ & _ & H); [discriminate|].
  change (over_cap ex_crowded) with true in H.
  change (f32_gt_0_1 (beam_factor ex_crowded)) with true in H.
  cbv iota in H. destruct H as (Hf & Hb & Hp & Hw).
  rewrite Hb, Hp, Hw, Hf. vm_compute. repeat split; reflexivity.
Defined.

(** C3 on the example: from the dummy entry and its copy through the null
    arc, the cross-word transitions of [fsg_search_start] enter the root of
    state 1 once, from entry 1, with score -10 + -3. *)
Lemma word_trans_admissible_ex :
  ex_word_trans ex_search_nulls = Ok (tt, ex_search_entered)
  /\ map (fun c => (ec_pnode c, ec_history c, ec_score c)) (enter_log ex_search_entered)
     = [(0%nat, 1, -13)]
  /\ exists calls,
       enter_log ex_search_entered = enter_log ex_search_nulls ++ calls
       /\ Forall (admissible_enter ex_search_nulls) calls.
Proof.
  assert (E : ex_word_trans ex_search_nulls = Ok (tt, ex_search_entered))
    by (vm_compute; reflexivity).
  split; [exact E|]. split; [vm_compute; reflexivity|].
  exact (word_trans_admissible false ex_search_nulls ex_search_entered E).
Defined.

(** C4 on the example: from the dummy entry, null propagation appends the
    entry of the arc [0 -eps-> 1], and nothing else. *)
Lemma null_prop_entries_ex :
  fsg_search_null_prop ex_search_dummy = Ok (tt, add_entries [ex_entry_null] ex_search_dummy)
  /\ exists added,
       fsg_search_null_prop ex_search_dummy = Ok (tt, add_entries added ex_search_dummy)
       /\ (ex_entry_null ∈ added <->
           exists bpidx e d l,
             bpidx_start ex_search_dummy <= bpidx
               < fsg_history_n_entries (history ex_search_dummy)
             /\ fsg_history_entry_get (history ex_search_dummy) bpidx = Some e
             /\ 0 <= d < n_state ex_fsg
             /\ fsg_model_null_trans ex_fsg (dest_state ex_fsg e) d = Some l
             /\ add32 (bestscore ex_search_dummy) (wbeam ex_search_dummy)
                <= add32 (hist_score e) (link_logs2prob l)
             /\ ex_entry_null
                = {| fsglink := Some l; hist_frame := hist_frame e;
                     hist_score := add32 (hist_score e) (link_logs2prob l);
                     hist_pred := bpidx; hist_lc := hist_lc e; hist_rc := hist_rc e |}).
Proof.
  split; [vm_compute; reflexivity|].
  destruct (null_prop_entries ex_search_dummy 1%N ex_fsg) as (added & Hrun & Hin);
    [vm_compute; reflexivity | vm_compute; reflexivity | vm_compute; discriminate |].
  exists added. split; [exact Hrun | apply Hin].
Defined.

(** C5 on the example: the leaf of WORD (two phones, not a filler) exits
    with its own right-context vector. *)
Lemma pnode_exit_entry_ex :
  exists e,
    fsg_search_pnode_exit false 1%nat ex_crowded
      = Ok (tt, set_history (fsg_history_entry_add (history ex_crowded) e) ex_crowded)
    /\ fsglink e = Some ex_link_word /\ hist_frame e = 0
    /\ hist_score e = 0 /\ hist_pred e = 0 /\ hist_lc e = 7
    /\ hist_rc e = {| bv := [1; 0; 0; 0] |}.
Proof.
  destruct (pnode_exit_entry false ex_crowded
              (lextree_set_pnodes ex_lextree
                 (map (fun p => pnode_set_hmm p (ex_hmm_at 0)) (pnodes ex_lextree)))
              1%nat
              (pnode_set_hmm
                 {| pn_succ := []; pn_fsglink := Some ex_link_word; leaf := true;
                    logs2prob := -2; ci_ext := 7; ctxt := {| bv := [1; 0; 0; 0] |};
                    hmm := ex_hmm_idle |} (ex_hmm_at 0))
              ex_link_word 1%N ex_fsg)
    as (e & Hrun & _ & Hl & Hf & Hs & Hp & Hlc & _ & Hrc);
    [reflexivity | reflexivity | reflexivity | reflexivity | vm_compute; discriminate
    | reflexivity | vm_compute; reflexivity |].
  exists e. split; [exact Hrun|].
  rewrite Hl, Hf, Hs, Hp, Hlc, Hrc by reflexivity. repeat split; reflexivity.
Defined.

Lemma ex_search0_nodes :
  frame ex_search0 = 0 /\ pnode_active ex_search0 = [0%nat]
  /\ pnode_active_next ex_search0 = []
  /\ map (fun p => hmm_frame (hmm p)) (all_pnodes ex_search0) = [0; -1].
Proof. vm_compute. repeat split; reflexivity. Qed.

Lemma ex_search0_active_inv : active_inv ex_search0.
Proof.
  destruct ex_search0_nodes as (Hf & Ha & Hn & Hps).
  unfold active_inv. rewrite Hf, Ha, Hn.
  destruct (all_pnodes ex_search0) as [|p0 [|p1 [|p2 ps]]]; try discriminate.
  injection Hps as Hp0 Hp1. split_and!; [reflexivity| |].
  - intros i. unfold at_frame. split.
    + intros Hi. apply list_elem_of_singleton in Hi. subst i. exists p0. auto.
    + intros (p & Hp & Hpf). destruct i as [|[|i]]; simpl in Hp.
      * left.
      * injection Hp as <-. lia.
      * discriminate.
  - intros i p Hp. destruct i as [|[|i]]; simpl in Hp; [| |discriminate];
      injection Hp as <-; lia.
Qed.

(** C6 on the example: the first frame after [fsg_search_start]. *)
Lemma step_active_sets_ex :
  ex_step ex_search0 = Ok (1, ex_search1)
  /\ frame ex_search1 = 1
  /\ pnode_active_next ex_search1 = []
  /\ pnode_active ex_search1 = [1%nat; 0%nat]
  /\ (forall i, i ∈ pnode_active ex_search1
                <-> at_frame (all_pnodes ex_search1) (frame ex_search1) i).
Proof.
  assert (E : ex_step ex_search0 = Ok (1, ex_search1)) by (vm_compute; reflexivity).
  split; [exact E|].
  destruct (step_active_sets false ex_n_feat_frame ex_compallsen ex_n_senone_active
              ex_clear_active ex_activate_hmm ex_acmod_score ex_vit_eval
              ex_search0 ex_search1) as (Hf & Hn & Hact & _).
  - intros c h. reflexivity.
  - vm_compute. split; [discriminate | reflexivity].
  - exact ex_search0_active_inv.
  - exact E.
  - split; [rewrite Hf; vm_compute; reflexivity|].
    split; [exact Hn|]. split; [vm_compute; reflexivity | exact Hact].
Defined.

(** C7 fails on the code.  With [ex_fsg], whose start state has a null arc
    (to a state that is not final), start followed by finish and hyp reads
    the link of the dummy entry, which is NULL.  With [ex_fsg3], whose null
    arc of probability one leads to the final state, the same calls find
    the exit 1 and return a string (the empty one).  With [ex_fsg2], which
    has no null arc, they return NULL. *)
Theorem start_finish_hyp_null_arc :
  (forall fuel,
     eval (ex_start ;;; fsg_search_finish ;;; ex_hyp (S fuel)) ex_search = Err NullDeref)
  /\ (forall fuel,
        eval (ex_start ;;; fsg_search_finish ;;;
              s <- get;; fsg_search_find_exit (S fuel) (frame s) (final s))
             ex_search_null_final = Ok (1, Some 0))
  /\ (forall fuel,
        eval (ex_start ;;; fsg_search_finish ;;; ex_hyp (S (S fuel))) ex_search_null_final
        = Ok (Some EmptyString, Some 0))
  /\ (forall fuel,
        eval (fsg_set_select NAME_H ;;; ex_start ;;; fsg_search_finish ;;; ex_hyp (S fuel))
             ex_search = Ok (None, None)).
Proof. repeat split; intros fuel; vm_compute; reflexivity. Qed.


(** C9 fails on the code as stated: selecting the other grammar of
    [ex_search] makes it the current one (the pointer is not nulled) and
    leaves the lextree of the grammar that was current in place. *)
Lemma select_keeps_lextree :
  fsg ex_search = Some 1%N
  /\ eval (fsg_set_select NAME_H) ex_search = Ok (Some 2%N)
  /\ fsg <$> exec (fsg_set_select NAME_H) ex_search = Some (Some 2%N)
  /\ lextree <$> exec (fsg_set_select NAME_H) ex_search = Some (Some ex_lextree).
Proof. vm_compute. repeat split; reflexivity. Qed.

(** C9 on the example: removing the current grammar of [ex_search]. *)
Lemma fsg_set_current_changes_ex :
  exists s', fsg_set_remove_byname NAME_G ex_search = Ok (Some 1%N, s')
             /\ fsg s' = None /\ lextree s' = None /\ hist_fsg (history s') = None.
Proof.
  destruct (fsg_set_current_changes ex_lextree_init ex_search NAME_G 1%N) as (Hcur & _);
    [vm_compute; reflexivity|].
  destruct (Hcur eq_refl) as (s' & Hrun & _ & Hf & Hl & Hh).
  exists s'. auto.
Defined.

Lemma ex_search3_entries :
  entries (history ex_search3)
  = [ex_entry_dummy; ex_entry_null; ex_entry_word 1 (-15); ex_entry_word 2 WORST_SCORE].
Proof. vm_compute. reflexivity. Qed.

(** On the example: asked at frame 3, where the newest entry (of frame 2)
    is in range, the search returns entry 3, as specified. *)
Lemma find_exit_newest_in_frame_ex :
  find_exit_spec (entries (history ex_search3)) 2 3 false = 3
  /\ exists sc,
       fsg_search_find_exit 1 3 false ex_search3
       = Ok ((find_exit_spec (entries (history ex_search3)) 2 3 false, sc), ex_search3).
Proof.
  split; [vm_compute; reflexivity|].
  apply (find_exit_newest_in_frame ex_search3 3 false 2 (ex_entry_word 2 WORST_SCORE)).
  - vm_compute. reflexivity.
  - vm_compute. reflexivity.
  - discriminate.
  - vm_compute. discriminate.
  - rewrite ex_search3_entries. intros i j ei ej Hij Hi Hj.
    destruct i as [|[|[|[|i]]]]; simpl in Hi; try discriminate; injection Hi as <-;
      destruct j as [|[|[|[|j]]]]; simpl in Hj; try discriminate; injection Hj as <-;
      simpl; lia.
  - rewrite ex_search3_entries. intros i e' Hi.
    destruct i as [|[|[|[|i]]]]; simpl in Hi; try discriminate; injection Hi as <-;
      vm_compute; reflexivity.
  - discriminate.
Defined.

(** On the example: [fsg_search_start] enters the root of state 1 and
    leaves the decoder at frame 0 with the invariant of the active sets. *)
Lemma start_active_sets_ex :
  ex_start ex_search = Ok (0, ex_search0)
  /\ frame ex_search0 = 0 /\ active_inv ex_search0.
Proof.
  assert (E : ex_start ex_search = Ok (0, ex_search0)) by (vm_compute; reflexivity).
  split; [exact E|].
  refine (start_active_sets false ex_ciphone_id ex_search ex_search0 eq_refl _ E).
  intros i p Hp. destruct i as [|[|i]]; simpl in Hp; [| |discriminate];
    injection Hp as <-; reflexivity.
Defined.

(** On the example: with [ex_fsg2] selected, start, finish and hyp return
    NULL, with the dummy entry alone in the history. *)
Lemma start_finish_no_null_arc_ex :
  exists s',
    (ex_start ;;; fsg_search_finish ;;; ex_hyp 1) ex_search_h = Ok ((None, None), s')
    /\ fsg_history_n_entries (history s') = 1.
Proof.
  destruct ((ex_start ;;; fsg_search_finish ;;; ex_hyp 1) ex_search_h) as [[r s']|e] eqn:E;
    [|vm_compute in E; discriminate].
  exists s'.
  destruct (start_finish_no_null_arc false ex_ciphone_id ex_lattice_build ex_bestpath_hyp
              ex_search_h s' 2%N ex_fsg2 0%nat r eq_refl eq_refl (fun _ => eq_refl) E)
    as (-> & Hn).
  split; [reflexivity | exact Hn].
Defined.

(** * The nodes of the word lattice (new_node, find_node) *)

Lemma find_in_chain_spec (arena : list ps_latnode_t) (chain : list nat) (sf wid : Z) :
  (forall n, n ∈ chain -> is_Some (arena !! n)) ->
  exists r, find_in_chain arena chain sf wid = Ok r
    /\ match r with
       | Some n => n ∈ chain
                   /\ exists node, arena !! n = Some node /\ ln_sf node = sf /\ ln_wid node = wid
       | None => forall n node, n ∈ chain -> arena !! n = Some node ->
                                ~ (ln_sf node = sf /\ ln_wid node = wid)
       end.
Proof.
  induction chain as [|n chain IH]; intros Hv; simpl.
  - exists None. split; [reflexivity|]. intros n node Hn. now apply elem_of_nil in Hn.
  - destruct (Hv n) as [node Hnode]; [left|]. rewrite Hnode.
    destruct (Z.eqb_spec (ln_sf node) sf) as [Hsf|Hsf];
      [destruct (Z.eqb_spec (ln_wid node) wid) as [Hw|Hw]|]; simpl.
    + exists (Some n). split; [reflexivity|]. split; [left | eauto].
    + destruct IH as (r & Hr & Hspec); [intros m Hm; apply Hv; now right|].
      exists r. split; [exact Hr|]. destruct r as [m|].
      * destruct Hspec as (Hm & Hx). split; [now right | exact Hx].
      * intros m nd Hm Hnd. apply elem_of_cons in Hm as [->|Hm]; [|eauto].
        rewrite Hnode in Hnd. injection Hnd as <-. tauto.
    + destruct IH as (r & Hr & Hspec); [intros m Hm; apply Hv; now right|].
      exists r. split; [exact Hr|]. destruct r as [m|].
      * destruct Hspec as (Hm & Hx). split; [now right | exact Hx].
      * intros m nd Hm Hnd. apply elem_of_cons in Hm as [->|Hm]; [|eauto].
        rewrite Hnode in Hnd. injection Hnd as <-. tauto.
Qed.

(** In a well-formed lattice [find_node] returns the node of the chain
    with the start frame and the word asked for, if there is one. *)
Lemma find_node_unique (dag : lat_nodes_t) (n : nat) (node : ps_latnode_t) :
  lat_wf dag -> n ∈ lat_chain dag -> lat_arena dag !! n = Some node ->
  find_node (ln_sf node) (ln_wid node) dag = Ok (Some n, dag).
Proof.
  intros (Hv & Hu) Hn Hnode. unfold find_node.
  destruct (find_in_chain_spec (lat_arena dag) (lat_chain dag) (ln_sf node) (ln_wid node) Hv)
    as (r & -> & Hr).
  destruct r as [m|].
  - destruct Hr as (Hm & nd & Hnd & Hsf & Hw).
    now rewrite (Hu m n nd node Hm Hn Hnd Hnode Hsf Hw).
  - exfalso. apply (Hr n node Hn Hnode). auto.
Qed.

Lemma find_node_none (dag : lat_nodes_t) (sf wid : Z) :
  lat_wf dag ->
  (forall n node, n ∈ lat_chain dag -> lat_arena dag !! n = Some node ->
                  ~ (ln_sf node = sf /\ ln_wid node = wid)) ->
  find_node sf wid dag = Ok (None, dag).
Proof.
  intros (Hv & Hu) Hno. unfold find_node.
  destruct (find_in_chain_spec (lat_arena dag) (lat_chain dag) sf wid Hv) as (r & -> & Hr).
  destruct r as [m|]; [|reflexivity].
  destruct Hr as (Hm & nd & Hnd & Hsf & Hw). exfalso. apply (Hno m nd Hm Hnd). auto.
Qed.

(** The search reads the start frames and the words of the nodes only. *)
Lemma find_in_chain_ext (arena arena' : list ps_latnode_t) (chain : list nat) (sf wid : Z) :
  (forall n, n ∈ chain ->
     (fun nd => (ln_sf nd, ln_wid nd)) <$> arena' !! n
     = (fun nd => (ln_sf nd, ln_wid nd)) <$> arena !! n) ->
  find_in_chain arena' chain sf wid = find_in_chain arena chain sf wid.
Proof.
  induction chain as [|n chain IH]; intros He; simpl; [reflexivity|].
  pose proof (He n ltac:(left)) as Hn.
  rewrite IH by (intros m Hm; apply He; now right).
  destruct (arena' !! n) as [a'|], (arena !! n) as [a|]; simpl in Hn; try discriminate;
    [|reflexivity].
  injection Hn as -> ->. reflexivity.
Qed.

Lemma lookup_update_key (arena : list ps_latnode_t) (n m : nat) (node : ps_latnode_t)
    (ef ascr : Z) :
  arena !! n = Some node ->
  (fun nd => (ln_sf nd, ln_wid nd)) <$> <[n := latnode_update ef ascr node]> arena !! m
  = (fun nd => (ln_sf nd, ln_wid nd)) <$> arena !! m.
Proof.
  intros Hn. destruct (decide (m = n)) as [->|Hne].
  - rewrite list_lookup_insert_eq by (eapply lookup_lt_Some; eauto). now rewrite Hn.
  - now rewrite list_lookup_insert_ne by congruence.
Qed.

(** What [new_node] does: it updates the node that [find_node] finds, or
    allocates one and puts it at the head of the chain. *)
Lemma new_node_run (dag : lat_nodes_t) (sf ef wid ascr : Z) :
  lat_wf dag ->
  (exists n node,
     find_node sf wid dag = Ok (Some n, dag)
     /\ n ∈ lat_chain dag /\ lat_arena dag !! n = Some node
     /\ ln_sf node = sf /\ ln_wid node = wid
     /\ new_node sf ef wid ascr dag
        = Ok (n, set_lat_arena (<[n := latnode_update ef ascr node]> (lat_arena dag)) dag))
  \/ (find_node sf wid dag = Ok (None, dag)
      /\ (forall n node, n ∈ lat_chain dag -> lat_arena dag !! n = Some node ->
                         ~ (ln_sf node = sf /\ ln_wid node = wid))
      /\ new_node sf ef wid ascr dag
         = Ok (length (lat_arena dag),
               {| lat_arena := lat_arena dag
                    ++ [{| ln_wid := wid; ln_sf := sf; ln_fef := ef; ln_lef := ef;
                           ln_reachable := false; ln_entries := []; ln_exits := [];
                           ln_best_exit := ascr |}];
                  lat_chain := length (lat_arena dag) :: lat_chain dag |})).
Proof.
  intros (Hv & Hu). unfold new_node, bind, find_node.
  destruct (find_in_chain_spec (lat_arena dag) (lat_chain dag) sf wid Hv) as (r & -> & Hr).
  destruct r as [n|].
  - left. destruct Hr as (Hn & node & Hnode & Hsf & Hw). exists n, node.
    split_and!; try assumption; try reflexivity.
    unfold gets. rewrite Hnode. reflexivity.
  - right. split_and!; [reflexivity | exact Hr | reflexivity].
Qed.

Lemma latnode_update_bounds (ef ascr : Z) (node : ps_latnode_t) :
  ln_fef (latnode_update ef ascr node) <= ef <= ln_lef (latnode_update ef ascr node)
  /\ ascr <= ln_best_exit (latnode_update ef ascr node).
Proof.
  unfold latnode_update. simpl.
  destruct (ln_fef node =? -1); destruct (Z.ltb_spec ef (ln_fef node));
    destruct (ln_lef node =? -1); destruct (Z.ltb_spec (ln_lef node) ef);
    destruct (Z.ltb_spec (ln_best_exit node) ascr); simpl; lia.
Qed.

Lemma lat_wf_update (dag : lat_nodes_t) (n : nat) (node : ps_latnode_t) (ef ascr : Z) :
  lat_wf dag -> lat_arena dag !! n = Some node ->
  lat_wf (set_lat_arena (<[n := latnode_update ef ascr node]> (lat_arena dag)) dag).
Proof.
  intros (Hv & Hu) Hn. split; simpl.
  - intros m Hm. apply lookup_lt_is_Some. rewrite length_insert.
    apply lookup_lt_is_Some. now apply Hv.
  - intros m1 m2 a b Hm1 Hm2 Ha Hb Hsf Hw.
    pose proof (lookup_update_key (lat_arena dag) n m1 node ef ascr Hn) as K1.
    pose proof (lookup_update_key (lat_arena dag) n m2 node ef ascr Hn) as K2.
    rewrite Ha in K1. rewrite Hb in K2.
    destruct (lat_arena dag !! m1) as [a0|] eqn:Ha0; [|discriminate].
    destruct (lat_arena dag !! m2) as [b0|] eqn:Hb0; [|discriminate].
    simpl in K1, K2. injection K1 as K1s K1w. injection K2 as K2s K2w.
    apply (Hu m1 m2 a0 b0); try assumption; congruence.
Qed.

Lemma lat_wf_alloc (dag : lat_nodes_t) (node : ps_latnode_t) :
  lat_wf dag ->
  (forall n nd, n ∈ lat_chain dag -> lat_arena dag !! n = Some nd ->
                ~ (ln_sf nd = ln_sf node /\ ln_wid nd = ln_wid node)) ->
  lat_wf {| lat_arena := lat_arena dag ++ [node];
            lat_chain := length (lat_arena dag) :: lat_chain dag |}.
Proof.
  intros (Hv & Hu) Hno. split; simpl.
  - intros m Hm. apply lookup_lt_is_Some. rewrite length_app. simpl.
    apply elem_of_cons in Hm as [->|Hm]; [lia|].
    apply Hv, lookup_lt_is_Some in Hm. lia.
  - assert (Hold : forall m a, m ∈ lat_chain dag -> (lat_arena dag ++ [node]) !! m = Some a ->
                               lat_arena dag !! m = Some a).
    { intros m a Hm Ha. rewrite lookup_app_l in Ha; [exact Ha|].
      now apply lookup_lt_is_Some, Hv. }
    assert (Hnew : forall a, (lat_arena dag ++ [node]) !! length (lat_arena dag) = Some a ->
                             a = node).
    { intros a Ha. rewrite lookup_app_r, Nat.sub_diag in Ha by lia. now injection Ha. }
    intros m1 m2 a b Hm1 Hm2 Ha Hb Hsf Hw.
    apply elem_of_cons in Hm1 as [->|Hm1]; apply elem_of_cons in Hm2 as [->|Hm2].
    + reflexivity.
    + apply Hnew in Ha. subst a. exfalso. apply (Hno m2 b Hm2 (Hold _ _ Hm2 Hb)). auto.
    + apply Hnew in Hb. subst b. exfalso. apply (Hno m1 a Hm1 (Hold _ _ Hm1 Ha)). auto.
    + apply (Hu m1 m2 a b); auto.
Qed.

(** X4.  [new_node] returns a node of the chain with the start frame and the
    word asked for, which [find_node] then finds; the node's end frames
    enclose [ef] and its best exit score is at least [ascr]; the lattice
    stays well formed, and the nodes with another start frame or word are
    found as before. *)
Theorem new_node_find (dag : lat_nodes_t) (sf ef wid ascr : Z) :
  lat_wf dag ->
  exists n dag' node,
    new_node sf ef wid ascr dag = Ok (n, dag')
    /\ lat_wf dag'
    /\ n ∈ lat_chain dag' /\ lat_arena dag' !! n = Some node
    /\ ln_sf node = sf /\ ln_wid node = wid
    /\ ln_fef node <= ef <= ln_lef node /\ ascr <= ln_best_exit node
    /\ find_node sf wid dag' = Ok (Some n, dag')
    /\ (forall sf' wid', sf' <> sf \/ wid' <> wid ->
          eval (find_node sf' wid') dag' = eval (find_node sf' wid') dag).
Proof.
  intros Hwf.
  destruct (new_node_run dag sf ef wid ascr Hwf)
    as [(n & node & Hfind & Hn & Hnode & Hsf & Hw & Hrun)|(Hfind & Hno & Hrun)].
  - pose proof (lat_wf_update dag n node ef ascr Hwf Hnode) as Hwf'.
    assert (Hl : <[n:=latnode_update ef ascr node]> (lat_arena dag) !! n
                 = Some (latnode_update ef ascr node)).
    { apply list_lookup_insert_eq. eapply lookup_lt_Some; eauto. }
    eexists n, _, (latnode_update ef ascr node).
    split; [exact Hrun|]. split; [exact Hwf'|].
    split; [exact Hn|]. split; [exact Hl|]. split; [exact Hsf|]. split; [exact Hw|].
    split; [apply latnode_update_bounds|]. split; [apply latnode_update_bounds|].
    split.
    + rewrite <- Hsf at 1. rewrite <- Hw at 1.
      apply (find_node_unique _ n (latnode_update ef ascr node) Hwf' Hn Hl).
    + intros sf' wid' _. unfold eval, find_node. simpl.
      rewrite (find_in_chain_ext (lat_arena dag));
        [now destruct (find_in_chain (lat_arena dag) (lat_chain dag) sf' wid')|].
      intros m _. now apply lookup_update_key.
  - set (node := {| ln_wid := wid; ln_sf := sf; ln_fef := ef; ln_lef := ef;
                    ln_reachable := false; ln_entries := []; ln_exits := [];
                    ln_best_exit := ascr |}) in *.
    pose proof (lat_wf_alloc dag node Hwf Hno) as Hwf'.
    assert (Hl : (lat_arena dag ++ [node]) !! length (lat_arena dag) = Some node).
    { now rewrite lookup_app_r, Nat.sub_diag by lia. }
    eexists _, _, node.
    split; [exact Hrun|]. split; [exact Hwf'|].
    split; [left|]. split; [exact Hl|]. split; [reflexivity|]. split; [reflexivity|].
    split; [simpl; lia|]. split; [simpl; lia|]. split.
    + apply (find_node_unique _ _ node Hwf'); [left | exact Hl].
    + intros sf' wid' Hne. unfold eval, find_node. simpl. rewrite Hl. simpl.
      replace ((sf =? sf') && (wid =? wid')) with false.
      2:{ symmetry. apply andb_false_iff. destruct Hne as [H|H]; [left|right];
          apply Z.eqb_neq; congruence. }
      rewrite (find_in_chain_ext (lat_arena dag));
        [now destruct (find_in_chain (lat_arena dag) (lat_chain dag) sf' wid')|].
      intros m Hm. rewrite lookup_app_l; [reflexivity|].
      destruct Hwf as (Hv & _). now apply lookup_lt_is_Some, Hv.
Qed.

(** * The first pass of fsg_search_lattice *)

Lemma node_attained_mono (h : fsg_history_t) (done : list Z) (i : Z) (node : ps_latnode_t) :
  node_attained h done node -> node_attained h (done ++ [i]) node.
Proof.
  intros ((i1 & f1 & a1 & H1 & R1) & (i2 & f2 & a2 & H2 & R2) & (i3 & f3 & H3 & R3)).
  split_and!; [exists i1, f1, a1 | exists i2, f2, a2 | exists i3, f3];
    (split; [apply elem_of_app; now left | assumption]).
Qed.

Lemma node_attained_nonneg (h : fsg_history_t) (done : list Z) (node : ps_latnode_t) :
  (forall i fh k, fsg_history_entry_get h i = Some fh -> hist_node_key h fh = Some k ->
                  0 <= hist_frame fh) ->
  node_attained h done node -> 0 <= ln_fef node /\ 0 <= ln_lef node.
Proof.
  intros Hpos ((i1 & f1 & a1 & _ & G1 & K1 & E1) & (i2 & f2 & a2 & _ & G2 & K2 & E2) & _).
  rewrite <- E1, <- E2. split; eauto.
Qed.

Lemma update_covers (node : ps_latnode_t) (ef ascr sf w a e : Z) :
  0 <= ln_fef node -> 0 <= ef ->
  node_covers node sf w a e -> node_covers (latnode_update ef ascr node) sf w a e.
Proof.
  unfold node_covers, latnode_update. simpl. intros Hf He (-> & -> & Hb & Ha).
  split_and!; try reflexivity.
  - destruct (Z.eqb_spec (ln_fef node) (-1)); [lia|]. simpl.
    destruct (Z.ltb_spec ef (ln_fef node)); lia.
  - destruct (Z.eqb_spec (ln_lef node) (-1)); [lia|]. simpl.
    destruct (Z.ltb_spec (ln_lef node) ef); lia.
  - destruct (Z.ltb_spec (ln_best_exit node) ascr); lia.
Qed.

Lemma update_attained (h : fsg_history_t) (done : list Z) (i : Z) (fh : fsg_hist_entry_t)
    (node : ps_latnode_t) (ascr : Z) :
  fsg_history_entry_get h i = Some fh ->
  hist_node_key h fh = Some (ln_sf node, ln_wid node, ascr) ->
  node_attained h done node ->
  node_attained h (done ++ [i]) (latnode_update (hist_frame fh) ascr node).
Proof.
  intros Hg Hk Hatt. pose proof (node_attained_mono h done i node Hatt)
    as ((i1 & f1 & a1 & R1) & (i2 & f2 & a2 & R2) & (i3 & f3 & R3)).
  assert (Hi : i ∈ done ++ [i]) by (apply elem_of_app; right; left).
  unfold node_attained, latnode_update. simpl. split_and!.
  - destruct ((ln_fef node =? -1) || (hist_frame fh <? ln_fef node));
      [exists i, fh, ascr | exists i1, f1, a1]; tauto.
  - destruct ((ln_lef node =? -1) || (ln_lef node <? hist_frame fh));
      [exists i, fh, ascr | exists i2, f2, a2]; tauto.
  - destruct (ln_best_exit node <? ascr); [exists i, fh | exists i3, f3]; tauto.
Qed.

(** One entry of the first pass. *)
Lemma add_node_step (h : fsg_history_t) (done : list Z) (i : Z) (fh : fsg_hist_entry_t)
    (sf w ascr : Z) (dag : lat_nodes_t) :
  (forall j f k, fsg_history_entry_get h j = Some f -> hist_node_key h f = Some k ->
                 0 <= hist_frame f) ->
  fsg_history_entry_get h i = Some fh ->
  hist_node_key h fh = Some (sf, w, ascr) ->
  nodes_of_entries h done dag ->
  wpt (new_node sf (hist_frame fh) w ascr) (fun _ => nodes_of_entries h (done ++ [i])) dag.
Proof.
  intros Hpos Hg Hk (Hwf & HA & HB).
  pose proof (Hpos i fh _ Hg Hk) as Hef.
  destruct (new_node_run dag sf (hist_frame fh) w ascr Hwf)
    as [(n & node & _ & Hn & Hnode & Hsf & Hw & Hrun)|(_ & Hno & Hrun)];
    eapply wpt_intro; try exact Hrun.
  - pose proof (HB n node Hn Hnode) as Hatt.
    pose proof (node_attained_nonneg h done node Hpos Hatt) as (Hfef & _).
    assert (Hlt : (n < length (lat_arena dag))%nat) by (eapply lookup_lt_Some; eauto).
    split_and!.
    + now apply lat_wf_update.
    + intros j f sf' w' a' Hj Hgj Hkj. simpl.
      apply elem_of_app in Hj as [Hj|Hj].
      * destruct (HA j f sf' w' a' Hj Hgj Hkj) as (m & nd & Hm & Hnd & Hcov).
        destruct (decide (m = n)) as [->|Hne].
        -- exists n, (latnode_update (hist_frame fh) ascr node).
           rewrite list_lookup_insert_eq by exact Hlt.
           rewrite Hnode in Hnd. injection Hnd as <-.
           split_and!; [assumption | reflexivity | now apply update_covers].
        -- exists m, nd. rewrite list_lookup_insert_ne by congruence. auto.
      * apply list_elem_of_singleton in Hj. subst j.
        rewrite Hg in Hgj. injection Hgj as <-. rewrite Hk in Hkj.
        injection Hkj as <- <- <-.
        exists n, (latnode_update (hist_frame fh) ascr node).
        rewrite list_lookup_insert_eq by exact Hlt.
        split_and!; [assumption | reflexivity | ].
        unfold node_covers. split_and!; try assumption; apply latnode_update_bounds.
    + intros m nd Hm Hnd. simpl in Hm, Hnd. destruct (decide (m = n)) as [->|Hne].
      * rewrite list_lookup_insert_eq in Hnd by exact Hlt. injection Hnd as <-.
        apply update_attained; [exact Hg | now rewrite Hsf, Hw | exact Hatt].
      * rewrite list_lookup_insert_ne in Hnd by congruence.
        apply node_attained_mono. eauto.
  - set (node := {| ln_wid := w; ln_sf := sf; ln_fef := hist_frame fh;
                    ln_lef := hist_frame fh; ln_reachable := false; ln_entries := [];
                    ln_exits := []; ln_best_exit := ascr |}) in *.
    assert (Hl : (lat_arena dag ++ [node]) !! length (lat_arena dag) = Some node).
    { now rewrite lookup_app_r, Nat.sub_diag by lia. }
    assert (Hi : i ∈ done ++ [i]) by (apply elem_of_app; right; left).
    split_and!.
    + now apply (lat_wf_alloc dag node).
    + intros j f sf' w' a' Hj Hgj Hkj. simpl.
      apply elem_of_app in Hj as [Hj|Hj].
      * destruct (HA j f sf' w' a' Hj Hgj Hkj) as (m & nd & Hm & Hnd & Hcov).
        exists m, nd. split_and!; [now right | | exact Hcov].
        rewrite lookup_app_l; [exact Hnd | eapply lookup_lt_Some; eauto].
      * apply list_elem_of_singleton in Hj. subst j.
        rewrite Hg in Hgj. injection Hgj as <-. rewrite Hk in Hkj.
        injection Hkj as <- <- <-.
        exists (length (lat_arena dag)), node. split_and!; [left | exact Hl |].
        unfold node_covers. simpl. split_and!; try reflexivity; lia.
    + intros m nd Hm Hnd. simpl in Hm, Hnd.
      apply elem_of_cons in Hm as [->|Hm].
      * rewrite Hl in Hnd. injection Hnd as <-.
        split_and!; [exists i, fh, ascr | exists i, fh, ascr | exists i, fh]; auto.
      * destruct Hwf as (Hv & _).
        rewrite lookup_app_l in Hnd by (now apply lookup_lt_is_Some, Hv).
        apply node_attained_mono. eauto.
Qed.

(** X5.  The first pass returns when the links of the history have their
    predecessors, and it builds the nodes of those links: one node for
    each start frame and word, whose first and last end frame and best
    exit score are the least and the greatest end frame and the greatest
    score of the links with that start frame and word. *)
Theorem lattice_add_nodes_spec (h : fsg_history_t) :
  (forall i fh l, fsg_history_entry_get h i = Some fh -> hist_word_link fh = Some l ->
     0 <= hist_frame fh /\ exists r, hist_link_start h fh = Ok r) ->
  exists dag,
    lattice_add_nodes h lat_empty = Ok (tt, dag)
    /\ nodes_of_entries h (range 0 (fsg_history_n_entries h)) dag.
Proof.
  intros Hok.
  assert (Hpos : forall j f k, fsg_history_entry_get h j = Some f ->
                               hist_node_key h f = Some k -> 0 <= hist_frame f).
  { intros j f k Hg Hk. unfold hist_node_key in Hk.
    destruct (hist_word_link f) as [l|] eqn:Hl; [|discriminate].
    now apply (Hok j f l). }
  assert (G : wpt (lattice_add_nodes h)
                (fun _ => nodes_of_entries h (range 0 (fsg_history_n_entries h))) lat_empty).
  { unfold lattice_add_nodes.
    apply (wpt_forM_split (nodes_of_entries h)).
    - intros done i rest dag Hr Hinv.
      assert (Hi : i ∈ range 0 (fsg_history_n_entries h)).
      { rewrite Hr. apply elem_of_app. right. left. }
      apply elem_of_seqZ in Hi. unfold fsg_history_n_entries in Hi.
      destruct (lookup_lt_is_Some_2 (entries h) (Z.to_nat i)) as [fh Hfh]; [lia|].
      assert (Hg : fsg_history_entry_get h i = Some fh).
      { unfold fsg_history_entry_get.
        replace (i <? 0) with false by (symmetry; apply Z.ltb_ge; lia). exact Hfh. }
      apply wpt_bind. eapply wpt_deref; [exact Hg|].
      destruct (hist_word_link fh) as [l|] eqn:Hl.
      + destruct (Hok i fh l Hg Hl) as (Hf & [sf ascr] & Hs). rewrite Hs.
        apply wpt_bind. eapply wpt_mono.
        * apply (add_node_step h done i fh sf (wid l) ascr dag Hpos Hg); [|exact Hinv].
          unfold hist_node_key. now rewrite Hl, Hs.
        * intros n dag' Hinv'. exact Hinv'.
      + apply wpt_ret. destruct Hinv as (Hwf & HA & HB). split_and!; [exact Hwf | |].
        * intros j f sf w a Hj Hgj Hkj. apply elem_of_app in Hj as [Hj|Hj]; [eauto|].
          apply list_elem_of_singleton in Hj. subst j. rewrite Hg in Hgj. injection Hgj as <-.
          unfold hist_node_key in Hkj. now rewrite Hl in Hkj.
        * intros m nd Hm Hnd. apply node_attained_mono. eauto.
    - split_and!.
      + split; simpl.
        * intros n Hn. now apply elem_of_nil in Hn.
        * intros n m a b Hn. now apply elem_of_nil in Hn.
      + intros i fh sf w a Hi. now apply elem_of_nil in Hi.
      + intros n node Hn. now apply elem_of_nil in Hn. }
  apply wpt_ok in G as ([] & dag & Hrun & Hinv). eauto.
Qed.

(** * Reachability from the end node (mark_reachable) *)

Lemma same_but_marks_refl (arena : list ps_latnode_t) : same_but_marks arena arena.
Proof. apply Forall2_same_length_lookup_2; [reflexivity|]. intros i a b Ha Hb.
  rewrite Ha in Hb. injection Hb as <-. now destruct a. Qed.

Lemma same_but_marks_length (arena arena' : list ps_latnode_t) :
  same_but_marks arena arena' -> length arena' = length arena.
Proof. intros H. symmetry. eapply Forall2_length; eauto. Qed.

Lemma same_but_marks_entries (arena arena' : list ps_latnode_t) j nd' :
  same_but_marks arena arena' -> arena' !! j = Some nd' ->
  exists nd, arena !! j = Some nd /\ ln_entries nd = ln_entries nd'.
Proof.
  intros H Hj. destruct (Forall2_lookup_r _ _ _ _ _ H Hj) as (nd & Hnd & E).
  exists nd. split; [exact Hnd|]. now rewrite E.
Qed.

Lemma same_but_marks_mark (arena arena' : list ps_latnode_t) i nd :
  same_but_marks arena arena' -> arena' !! i = Some nd ->
  same_but_marks arena (<[i := set_ln_reachable true nd]> arena').
Proof.
  intros H Hi. destruct (Forall2_lookup_r _ _ _ _ _ H Hi) as (a & Ha & E).
  rewrite <- (list_insert_id arena i a Ha). apply Forall2_insert; [exact H|].
  rewrite E. reflexivity.
Qed.

Lemma unmarked_mark (arena : list ps_latnode_t) i nd :
  arena !! i = Some nd -> ln_reachable nd = false ->
  (unmarked (<[i := set_ln_reachable true nd]> arena) + 1 = unmarked arena)%nat.
Proof.
  unfold unmarked. revert i. induction arena as [|a arena IH]; intros i Hi Hr; [discriminate|].
  destruct i as [|i]; simpl in *.
  - injection Hi as ->. rewrite filter_cons_False by (simpl; discriminate).
    rewrite filter_cons_True by exact Hr. simpl. lia.
  - specialize (IH i Hi Hr). rewrite !filter_cons.
    destruct (decide (ln_reachable a = false)); simpl; lia.
Qed.

Lemma unmarked_all (arena : list ps_latnode_t) :
  (forall j nd, arena !! j = Some nd -> ln_reachable nd = false) ->
  unmarked arena = length arena.
Proof.
  unfold unmarked. induction arena as [|a arena IH]; intros H; [reflexivity|].
  rewrite filter_cons_True by (apply (H 0%nat); reflexivity). simpl.
  rewrite IH; [reflexivity|]. intros j nd Hj. apply (H (S j)). exact Hj.
Qed.

Lemma lat_marked_mark (arena : list ps_latnode_t) i nd j :
  arena !! i = Some nd ->
  lat_marked (<[i := set_ln_reachable true nd]> arena) j <-> j = i \/ lat_marked arena j.
Proof.
  intros Hi. unfold lat_marked. destruct (decide (j = i)) as [->|Hne].
  - rewrite list_lookup_insert_eq by (eapply lookup_lt_Some; eauto).
    split; [auto|]. intros _. eexists. split; reflexivity.
  - rewrite list_lookup_insert_ne by congruence. split; [auto|]. intros [?|?]; [contradiction|auto].
Qed.

Lemma mark_inv_mark (A : list ps_latnode_t) (e n i : nat) (q : list nat)
    (arena : list ps_latnode_t) (nd : ps_latnode_t) :
  mark_inv A e (Some n) q arena -> lat_marked arena n -> lat_pred A n i ->
  arena !! i = Some nd ->
  mark_inv A e (Some n) (i :: q) (<[i := set_ln_reachable true nd]> arena).
Proof.
  intros (I0 & I1 & I2 & I3 & I4) Hn Hp Hi.
  pose proof (lat_marked_mark arena i nd) as E.
  split_and!.
  - now apply same_but_marks_mark.
  - intros j Hj. apply (E j Hi) in Hj as [->|Hj]; [|auto].
    eapply rtc_r; [apply I1; exact Hn | exact Hp].
  - apply (E e Hi). now right.
  - intros j Hj. apply (E j Hi). apply elem_of_cons in Hj as [->|Hj]; [now left | right; auto].
  - intros j Hj Hq Hs k Hk. apply (E k Hi). right.
    apply not_elem_of_cons in Hq as (Hji & Hq).
    apply (E j Hi) in Hj as [->|Hj]; [contradiction|].
    apply (I4 j Hj Hq Hs k Hk).
Qed.

Lemma mark_preds_spec (A : list ps_latnode_t) (e n : nat) (entries : list ps_latlink_t)
    (q : list nat) (dag : lat_nodes_t) :
  (forall j node x, A !! j = Some node -> x ∈ ln_entries node ->
                    (ll_from x < length A)%nat) ->
  mark_inv A e (Some n) q (lat_arena dag) ->
  lat_marked (lat_arena dag) n ->
  (forall x, x ∈ entries -> lat_pred A n (ll_from x)) ->
  wpt (mark_preds entries q)
      (fun q' dag' =>
         lat_chain dag' = lat_chain dag
         /\ mark_inv A e (Some n) q' (lat_arena dag')
         /\ lat_marked (lat_arena dag') n
         /\ (forall x, x ∈ entries -> lat_marked (lat_arena dag') (ll_from x))
         /\ (length q' + unmarked (lat_arena dag')
             <= length q + unmarked (lat_arena dag))%nat) dag.
Proof.
  intros Hvalid Hinv Hn Hent. unfold mark_preds.
  apply (wpt_foldM_split
           (fun done q' dag' =>
              lat_chain dag' = lat_chain dag
              /\ mark_inv A e (Some n) q' (lat_arena dag')
              /\ lat_marked (lat_arena dag') n
              /\ (forall x, x ∈ done -> lat_marked (lat_arena dag') (ll_from x))
              /\ (length q' + unmarked (lat_arena dag')
                  <= length q + unmarked (lat_arena dag))%nat)).
  - intros done x rest q1 dag1 El (Hc & Hinv1 & Hn1 & Hd & Hm).
    assert (Hx : x ∈ entries) by (rewrite El; apply elem_of_app; right; left).
    pose proof (Hent x Hx) as Hp.
    assert (Hlt : (ll_from x < length (lat_arena dag1))%nat).
    { rewrite (same_but_marks_length A) by apply Hinv1.
      destruct Hp as (nd & y & Hnd & Hy & <-). eauto. }
    destruct (lookup_lt_is_Some_2 _ _ Hlt) as [next Hnext].
    apply wpt_bind, wpt_gets. apply wpt_bind. eapply wpt_deref; [exact Hnext|].
    destruct (ln_reachable next) eqn:Hr; simpl.
    + apply wpt_ret. split_and!; try assumption.
      intros y Hy. apply elem_of_app in Hy as [Hy|Hy]; [auto|].
      apply list_elem_of_singleton in Hy. subst y. now exists next.
    + apply wpt_bind, wpt_modify, wpt_ret. simpl.
      pose proof (lat_marked_mark (lat_arena dag1) (ll_from x) next) as E.
      split_and!.
      * exact Hc.
      * now apply mark_inv_mark.
      * apply (E n Hnext). now right.
      * intros y Hy. apply (E _ Hnext). apply elem_of_app in Hy as [Hy|Hy]; [right; auto|].
        apply list_elem_of_singleton in Hy. subst y. now left.
      * pose proof (unmarked_mark (lat_arena dag1) (ll_from x) next Hnext Hr). lia.
  - split_and!; [reflexivity | exact Hinv | exact Hn | | lia].
    intros x Hx. now apply elem_of_nil in Hx.
Qed.

Lemma mark_loop_spec (A : list ps_latnode_t) (e : nat) :
  (forall j node x, A !! j = Some node -> x ∈ ln_entries node ->
                    (ll_from x < length A)%nat) ->
  forall (fuel : nat) (q : list nat) (dag : lat_nodes_t),
    mark_inv A e None q (lat_arena dag) ->
    (length q + unmarked (lat_arena dag) < fuel)%nat ->
    wpt (mark_loop fuel q)
        (fun _ dag' => lat_chain dag' = lat_chain dag
                       /\ mark_inv A e None [] (lat_arena dag')) dag.
Proof.
  intros Hvalid fuel. induction fuel as [|fuel IH]; intros q dag Hinv Hm; [lia|].
  destruct q as [|n q]; simpl.
  - apply wpt_ret. auto.
  - pose proof Hinv as (I0 & I1 & I2 & I3 & I4).
    destruct (I3 n ltac:(left)) as (node & Hnode & Hr).
    apply wpt_bind, wpt_gets. apply wpt_bind. eapply wpt_deref; [exact Hnode|].
    apply wpt_bind. eapply wpt_mono.
    + apply (mark_preds_spec A e n (ln_entries node) q dag Hvalid).
      * split_and!; try assumption.
        -- intros j Hj. apply I3. now right.
        -- intros j Hj Hq Hs. apply I4; [exact Hj | | discriminate].
           intros Hin. apply elem_of_cons in Hin as [->|Hin]; [now apply Hs | contradiction].
      * now exists node.
      * intros x Hx. destruct (same_but_marks_entries A _ n node I0 Hnode) as (nd & Hnd & E).
        exists nd, x. rewrite E. auto.
    + intros q' dag' (Hc & (K0 & K1 & K2 & K3 & K4) & Hn' & Hd & Hm'). cbv beta.
      eapply wpt_mono.
      * apply (IH q' dag'); [|simpl in Hm; lia].
        split_and!; try assumption.
        intros j Hj Hq _ i Hi. destruct (decide (j = n)) as [->|Hne].
        -- destruct Hi as (nd & x & Hnd & Hx & <-). apply Hd.
           destruct (same_but_marks_entries A _ n node I0 Hnode) as (nd0 & Hnd0 & E).
           rewrite Hnd in Hnd0. injection Hnd0 as <-. now rewrite <- E.
        -- apply (K4 j Hj Hq); [congruence | exact Hi].
      * intros u dag'' (Hc'' & Hinv''). split; [congruence | exact Hinv''].
Qed.

(** X6.  From a lattice with no node marked whose links come from allocated
    nodes, mark_reachable returns within [length (lat_arena dag) + 1]
    rounds of its loop; it changes the reachable marks only, and it marks
    exactly the nodes from which the end node is reached through links:
    the end node, the nodes that links entering it come from, and so on. *)
Theorem mark_reachable_spec (dag : lat_nodes_t) (end_ : nat) (fuel : nat) :
  (end_ < length (lat_arena dag))%nat ->
  (forall j node x, lat_arena dag !! j = Some node -> x ∈ ln_entries node ->
                    (ll_from x < length (lat_arena dag))%nat) ->
  (forall j node, lat_arena dag !! j = Some node -> ln_reachable node = false) ->
  (length (lat_arena dag) < fuel)%nat ->
  exists dag',
    mark_reachable fuel end_ dag = Ok (tt, dag')
    /\ lat_chain dag' = lat_chain dag
    /\ same_but_marks (lat_arena dag) (lat_arena dag')
    /\ forall j, lat_marked (lat_arena dag') j <-> rtc (lat_pred (lat_arena dag)) end_ j.
Proof.
  intros He Hvalid Hun Hfuel.
  set (A := lat_arena dag) in *.
  destruct (lookup_lt_is_Some_2 A end_ He) as [node Hnode].
  assert (G : wpt (mark_reachable fuel end_)
                (fun _ dag' => lat_chain dag' = lat_chain dag
                               /\ mark_inv A end_ None [] (lat_arena dag')) dag).
  { unfold mark_reachable. apply wpt_bind, wpt_gets. apply wpt_bind.
    eapply wpt_deref; [exact Hnode|]. apply wpt_bind, wpt_modify.
    pose proof (lat_marked_mark A end_ node) as E.
    assert (Hnone : forall j, ~ lat_marked A j).
    { intros j (nd & Hnd & Hr). rewrite (Hun j nd Hnd) in Hr. discriminate. }
    eapply wpt_mono.
    - apply (mark_loop_spec A end_ Hvalid).
      + simpl. fold A. split_and!.
        * apply same_but_marks_mark; [apply same_but_marks_refl | exact Hnode].
        * intros j Hj. apply (E j Hnode) in Hj as [->|Hj]; [reflexivity|].
          now apply Hnone in Hj.
        * apply (E _ Hnode). now left.
        * intros j Hj. apply list_elem_of_singleton in Hj. subst j. apply (E _ Hnode). now left.
        * intros j Hj Hq _. apply (E j Hnode) in Hj as [->|Hj].
          -- exfalso. apply Hq. left.
          -- now apply Hnone in Hj.
      + simpl. fold A.
        pose proof (unmarked_mark A end_ node Hnode (Hun _ _ Hnode)).
        pose proof (unmarked_all A Hun). lia.
    - intros u dag' (Hc & Hinv). split; [exact Hc | exact Hinv]. }
  apply wpt_ok in G as ([] & dag' & Hrun & Hc & I0 & I1 & I2 & I3 & I4).
  exists dag'. split_and!; try assumption.
  intros j. split; [apply I1|].
  revert j. apply (rtc_ind_r (fun j => lat_marked (lat_arena dag') j)); [exact I2|].
  intros b c _ Hbc IHr.
  apply (I4 b IHr); [apply not_elem_of_nil | discriminate | exact Hbc].
Qed.

(** * The lattice functions on examples *)

(** The nodes of the history of [ex_search3]: the two exits of WORD, which
    both start in frame 0, share one node. *)
Lemma ex_lattice_nodes_run :
  lattice_add_nodes (history ex_search3) lat_empty = Ok (tt, ex_lat_nodes).
Proof. vm_compute. reflexivity. Qed.

(** X4 on the example: asking for the node of WORD from frame 0 again, with
    a later end frame and a better score, returns the node that is there. *)
Lemma new_node_find_ex :
  exists dag' node,
    new_node 0 3 0 (-1) ex_lat_nodes = Ok (0%nat, dag')
    /\ find_node 0 0 dag' = Ok (Some 0%nat, dag')
    /\ lat_arena dag' !! 0%nat = Some node
    /\ ln_fef node = 1 /\ ln_lef node = 3 /\ ln_best_exit node = -1.
Proof.
  assert (Hwf : lat_wf ex_lat_nodes).
  { split.
    - intros n Hn. apply list_elem_of_singleton in Hn. subst n. eexists. reflexivity.
    - intros n m a b Hn Hm _ _ _ _.
      apply list_elem_of_singleton in Hn, Hm. congruence. }
  destruct (new_node_find ex_lat_nodes 0 3 0 (-1) Hwf)
    as (n & dag' & node & Hrun & _ & _ & Hnode & _ & _ & _ & _ & Hfind & _).
  assert (E : new_node 0 3 0 (-1) ex_lat_nodes
              = Ok (0%nat, set_lat_arena [latnode_update 3 (-1) ex_latnode_word] ex_lat_nodes))
    by (vm_compute; reflexivity).
  rewrite E in Hrun. injection Hrun as <- <-.
  eexists _, _. split; [exact E|]. split; [exact Hfind|].
  split; [reflexivity|]. vm_compute. repeat split; reflexivity.
Defined.

(** X5 on the example: the first pass over the history of [ex_search3]. *)
Lemma lattice_add_nodes_spec_ex :
  exists dag,
    lattice_add_nodes (history ex_search3) lat_empty = Ok (tt, dag)
    /\ nodes_of_entries (history ex_search3)
         (range 0 (fsg_history_n_entries (history ex_search3))) dag.
Proof.
  apply lattice_add_nodes_spec.
  intros i fh l Hg Hl. unfold fsg_history_entry_get in Hg.
  destruct (i <? 0); [discriminate|]. rewrite ex_search3_entries in *.
  destruct (Z.to_nat i) as [|[|[|[|n]]]]; simpl in Hg; try discriminate;
    injection Hg as <-; try discriminate;
    (split; [vm_compute; discriminate | eexists; vm_compute; reflexivity]).
Defined.

(** X6 on the example, a lattice with a branch that does not lead to the
    end: node 0 has links to nodes 1 and 2, and node 1 is the end node. *)
Lemma mark_reachable_spec_ex :
  exists dag',
    mark_reachable 4 1 ex_lat_branch = Ok (tt, dag')
    /\ map ln_reachable (lat_arena dag') = [true; true; false]
    /\ forall j, lat_marked (lat_arena dag') j
                 <-> rtc (lat_pred (lat_arena ex_lat_branch)) 1%nat j.
Proof.
  destruct (mark_reachable_spec ex_lat_branch 1 4) as (dag' & Hrun & _ & _ & Hiff).
  - simpl. lia.
  - intros j node x Hj Hx.
    destruct j as [|[|[|j]]]; simpl in Hj; try discriminate; injection Hj as <-;
      simpl in Hx; try (now apply elem_of_nil in Hx);
      apply list_elem_of_singleton in Hx; subst x; simpl; lia.
  - intros j node Hj.
    destruct j as [|[|[|j]]]; simpl in Hj; try discriminate; injection Hj as <-; reflexivity.
  - simpl. lia.
  - exists dag'. split; [exact Hrun|]. split; [|exact Hiff].
    assert (E : mark_reachable 4 1 ex_lat_branch
                = Ok (tt, set_lat_arena
                            (map (fun p => set_ln_reachable (fst p) (snd p))
                               (zip [true; true; false] (lat_arena ex_lat_branch)))
                            ex_lat_branch)) by (vm_compute; reflexivity).
    rewrite E in Hrun. injection Hrun as <-. reflexivity.
Defined.

(** * The history and the HMMs of the example decoder *)

(** The idle HMM of the example is cleared, and the Viterbi step of the
    example keeps the history ids of an HMM. *)
Lemma ex_hmm_idle_cleared : hmm_cleared ex_hmm_idle.
Proof. now exists ex_hmm_idle. Qed.

Lemma ex_vit_eval_hist (c : option (list Z)) (h : hmm_t) (B : Z) :
  hmm_hist_below B h -> hmm_hist_below B (snd (ex_vit_eval c h)).
Proof. intros (Hi & Ho & Hn). unfold hmm_hist_below. simpl. auto. Qed.

(** The decoder after fsg_search_start. *)
Lemma ex_search0_run_inv : run_inv ex_search0.
Proof.
  assert (He : entries (history ex_search0) = [ex_entry_dummy; ex_entry_null])
    by (vm_compute; reflexivity).
  assert (Hf : frame ex_search0 = 0) by (vm_compute; reflexivity).
  assert (Hp : exists p0 p1, all_pnodes ex_search0 = [p0; p1]
                             /\ hmm_in_history (hmm p0) = 1 /\ hmm_out_history (hmm p0) = -1
                             /\ hmm_inner (hmm p0) = [] /\ hmm_frame (hmm p0) = 0
                             /\ hmm p1 = ex_hmm_idle).
  { eexists _, _. vm_compute. repeat split; reflexivity. }
  destruct Hp as (p0 & p1 & Hp & H1 & H2 & H3 & H4 & H5).
  unfold run_inv, fsg_history_n_entries. rewrite He, Hp, Hf.
  split_and!.
  - intros i e Hi. destruct i as [|[|i]]; simpl in Hi; try discriminate; injection Hi as <-;
      simpl; (split_and!; [lia | | lia]); intros; try lia; eexists; reflexivity.
  - intros i j ei ej _ Hi Hj.
    destruct i as [|[|i]]; simpl in Hi; try discriminate; injection Hi as <-;
      destruct j as [|[|j]]; simpl in Hj; try discriminate; injection Hj as <-; simpl; lia.
  - intros i p Hi. destruct i as [|[|i]]; simpl in Hi; try discriminate; injection Hi as <-.
    + split; [|now left]. unfold hmm_hist_below. rewrite H1, H2, H3. simpl. split_and!; try lia.
      constructor.
    + rewrite H5. split; [|right; apply ex_hmm_idle_cleared].
      apply hmm_cleared_below; [simpl; lia | apply ex_hmm_idle_cleared].
Qed.

(** X7 on the example: fsg_search_start from the idle decoder. *)
Lemma start_run_inv_ex :
  ex_start ex_search = Ok (0, ex_search0)
  /\ run_inv ex_search0
  /\ entries (history ex_search0) = [ex_entry_dummy; ex_entry_null].
Proof.
  assert (E : ex_start ex_search = Ok (0, ex_search0)) by (vm_compute; reflexivity).
  split; [exact E|].
  split; [|vm_compute; reflexivity].
  refine (proj1 (start_run_inv false ex_ciphone_id ex_search ex_search0 _ E)).
  intros i p Hp. destruct i as [|[|i]]; simpl in Hp; [| |discriminate];
    injection Hp as <-; apply ex_hmm_idle_cleared.
Defined.

(** X8 on the example: the first frame after fsg_search_start. *)
Lemma step_run_inv_ex :
  ex_step ex_search0 = Ok (1, ex_search1)
  /\ run_inv ex_search1
  /\ entries (history ex_search0) `prefix_of` entries (history ex_search1).
Proof.
  assert (E : ex_step ex_search0 = Ok (1, ex_search1)) by (vm_compute; reflexivity).
  split; [exact E|].
  assert (Hf : 0 <= frame ex_search0 < INT_MAX) by (vm_compute; split; [discriminate | reflexivity]).
  destruct (step_run_inv false ex_n_feat_frame ex_compallsen ex_n_senone_active
              ex_clear_active ex_activate_hmm ex_acmod_score ex_vit_eval
              ex_search0 ex_search1 (fun c h => eq_refl) ex_vit_eval_hist Hf
              ex_search0_active_inv ex_search0_run_inv E) as (Hr & Hp & _).
  split; [exact Hr | exact Hp].
Defined.

(** X9 on the example: finishing right after the start. *)
Lemma finish_idle_ex :
  exists s',
    fsg_search_finish ex_search0 = Ok (0, s')
    /\ pnode_active s' = [] /\ pnode_active_next s' = [] /\ final s' = true
    /\ (forall i p, all_pnodes s' !! i = Some p -> hmm_cleared (hmm p)).
Proof.
  assert (Hl : is_Some (lextree ex_search0)) by (vm_compute; eexists; reflexivity).
  destruct (finish_idle ex_search0 Hl ex_search0_active_inv ex_search0_run_inv)
    as (s' & Hrun & Ha & Hn & Hf & Hc & _).
  exists s'. auto.
Defined.

(** The decoder after three frames. *)
Lemma ex_search3_run_inv : run_inv ex_search3.
Proof.
  assert (Hf : frame ex_search3 = 3) by (vm_compute; reflexivity).
  assert (Hp : exists p0 p1, all_pnodes ex_search3 = [p0; p1]
                             /\ hmm p0 = ex_hmm_idle
                             /\ hmm_in_history (hmm p1) = 1 /\ hmm_out_history (hmm p1) = 1
                             /\ hmm_inner (hmm p1) = [] /\ hmm_frame (hmm p1) = 3).
  { eexists _, _. vm_compute. repeat split; reflexivity. }
  destruct Hp as (p0 & p1 & Hp & H0 & H1 & H2 & H3 & H4).
  unfold run_inv, fsg_history_n_entries. rewrite ex_search3_entries, Hp, Hf.
  clear Hp Hf. split_and!.
  - intros i e Hi.
    destruct i as [|[|[|[|i]]]]; simpl in Hi; try discriminate Hi; injection Hi as <-;
      simpl; (split_and!; [lia | | lia]); intros; try lia; eexists; reflexivity.
  - intros i j ei ej Hij Hi Hj.
    destruct i as [|[|[|[|i]]]]; simpl in Hi; try discriminate Hi; injection Hi as <-;
      destruct j as [|[|[|[|j]]]]; simpl in Hj; try discriminate Hj; injection Hj as <-;
      simpl; lia.
  - intros i p Hi. destruct i as [|[|i]]; simpl in Hi; try discriminate Hi;
      injection Hi as <-.
    + rewrite H0. split; [|right; apply ex_hmm_idle_cleared].
      apply hmm_cleared_below; [simpl; lia | apply ex_hmm_idle_cleared].
    + split; [|left; exact H4]. unfold hmm_hist_below. rewrite H1, H2, H3. simpl.
      split_and!; try lia. constructor.
Qed.

(** X10 on the example: the hypothesis after three frames, before
    fsg_search_finish. *)
Lemma hyp_returns_ex :
  eval (ex_hyp 5) ex_search3 = Ok (Some WORD, Some WORST_SCORE)
  /\ exists r s',
       ex_hyp 5 ex_search3 = Ok (r, s')
       /\ exists str, s' = set_base (set_hyp_str str (base ex_search3)) ex_search3.
Proof.
  split; [vm_compute; reflexivity|].
  assert (Hf : 0 <= frame ex_search3) by (vm_compute; intros H; discriminate H).
  assert (Hfin : final ex_search3 = false) by (vm_compute; reflexivity).
  assert (Ha : fsg ex_search3 = Some 1%N) by (vm_compute; reflexivity).
  assert (Hg : fsg_heap ex_search3 !! 1%N = Some ex_fsg) by (vm_compute; reflexivity).
  assert (Hn : fsg_history_n_entries (history ex_search3) < Z.of_nat 5)
    by (vm_compute; reflexivity).
  destruct (hyp_returns ex_lattice_build ex_bestpath_hyp ex_search3 1%N ex_fsg 5
              ex_search3_run_inv Hf Hfin Ha Hg Hn) as (r & s' & Hrun & Hs & _).
  exists r, s'. split; [exact Hrun | exact Hs].
Defined.
